(** * The Ibn Arabi translation pipeline: [scripts/translate_ibn_arabi.py]

    A shallow embedding of the translation script and the properties of its
    batch-processing core: the page parser ([parse_ocr_file]), the retrying
    client ([translate_text]), the per-page processor ([process_page]), the
    batch part of [main], and the combiner ([create_combined_translation])
    with its natural sort ([natural_sort_key]); and, of the scripts around it,
    the writer of the OCR results file ([scripts/claude_pdf_ocr.py]) and the
    loader and the escaping of the LaTeX generator
    ([scripts/create_latex_book.py]).

    Conventions of the embedding.
    - A Python [str] is given by its UTF-8 encoding, a list of bytes; a text
      of ASCII characters is the list of its characters.  [len] counts the
      characters, not the bytes; [str.strip] removes the white space of
      Python, ASCII or not; a file opened in text mode is read with universal
      newlines.  The classes that Python takes from the Unicode tables and
      that are given here on ASCII only -- the digits of [\d], [str.isdigit]
      and [int], the letters of [str.lower] -- agree with Python on texts
      whose digits and letters are ASCII: the statements that depend on them
      are made for such texts (names of ASCII characters, page markers whose
      digits are ASCII).
    - A file is named by its directory and its name in it.  [Path(d) / name]
      is that pair when [name] is a plain file name, without a separator;
      files are written as on POSIX systems, a newline staying a newline.
    - Effects are threaded through a state-and-exception monad [M] over a
      record [World]: the history of remote calls, the sleeps, the clock, the
      files, and the log.  What the environment decides (the answers of the
      remote service, which file operations fail) and the library routines
      whose text is immaterial ([json.dump], [datetime.isoformat]) are
      collected in a record [Env].
    - The worker pool of [main] is modelled at its default size of one worker:
      pages are processed one after the other, in list order. *)

From Stdlib Require Import Ascii String ZArith Lia ZifyBool.
From stdpp Require Import gmap list strings sorting.

Local Open Scope Z_scope.
Local Open Scope list_scope.

#[local] Set Warnings "-clear-no-such-hyp".

(** ** Text *)

Definition str : Type := list ascii.

(** String literals of the source. *)
Definition lit (s : string) : str := list_ascii_of_string s.
Global Arguments lit : simpl never.

(** The newline character. *)
Definition nl : ascii := "010"%char.

Definition code (c : ascii) : N := N_of_ascii c.

(** The carriage return. *)
Definition cr : ascii := "013"%char.

(** [[0-9]]; also [\d] and [str.isdigit] as long as the digits of the text
    are ASCII digits. *)
Definition is_digit (c : ascii) : bool :=
  ((48 <=? code c) && (code c <=? 57))%N.

(** The white space of [str.isspace] and [str.strip].  In ASCII: tab, line
    feed, vertical tab, form feed, carriage return, the four separators 28 to
    31, and the space. *)
Definition is_space (c : ascii) : bool :=
  (((9 <=? code c) && (code c <=? 13)) || ((28 <=? code c) && (code c <=? 32)))%N.

(** Outside ASCII, by the bytes of the UTF-8 encoding: U+0085 and U+00A0
    (C2 85, C2 A0); *)
Definition space2 (a b : ascii) : bool :=
  ((code a =? 194) && ((code b =? 133) || (code b =? 160)))%N.

(** U+1680 (E1 9A 80); U+2000 to U+200A, U+2028, U+2029 and U+202F (E2 80
    followed by 80 to 8A, A8, A9, AF); U+205F (E2 81 9F); U+3000 (E3 80 80). *)
Definition space3 (a b c : ascii) : bool :=
  (((code a =? 225) && (code b =? 154) && (code c =? 128))
   || ((code a =? 226) && (code b =? 128)
       && (((128 <=? code c) && (code c <=? 138))
           || (code c =? 168) || (code c =? 169) || (code c =? 175)))
   || ((code a =? 226) && (code b =? 129) && (code c =? 159))
   || ((code a =? 227) && (code b =? 128) && (code c =? 128)))%N.

(** [len(s)]: the number of characters, that is of the bytes that are not
    continuation bytes (10xxxxxx). *)
Definition is_continuation (c : ascii) : bool :=
  ((128 <=? code c) && (code c <? 192))%N.

Definition len (s : str) : nat :=
  length (List.filter (fun c => negb (is_continuation c)) s).

(** [str.lower] on ASCII. *)
Definition lower_char (c : ascii) : ascii :=
  if ((65 <=? code c) && (code c <=? 90))%N then ascii_of_N (code c + 32) else c.

Definition lower (s : str) : str := map lower_char s.

(** [s.isdigit()]: every character is a digit and there is at least one. *)
Definition isdigit (s : str) : bool :=
  match s with
  | [] => false
  | _ => forallb is_digit s
  end.

(** [int(s)] on a run of ASCII digits (most significant digit first). *)
Definition digit_value (c : ascii) : Z := Z.of_N (code c) - 48.

Definition int_of_digits (s : str) : Z :=
  fold_left (fun acc c => 10 * acc + digit_value c) s 0.

(** [s.startswith(p)], returning what follows the prefix. *)
Fixpoint strip_prefix (p s : str) : option str :=
  match p with
  | [] => Some s
  | a :: p' =>
      match s with
      | [] => None
      | b :: s' => if decide (a = b) then strip_prefix p' s' else None
      end
  end.

Definition startswith (s p : str) : bool :=
  match strip_prefix p s with Some _ => true | None => false end.

Definition endswith (s p : str) : bool := startswith (rev s) (rev p).

(** White space removed at the head of [s]; [forwards] tells whether the
    bytes of [s] are in reading order or reversed. *)
Fixpoint strip_head (forwards : bool) (s : str) : str :=
  match s with
  | [] => []
  | a :: s1 =>
      if is_space a then strip_head forwards s1
      else match s1 with
           | [] => s
           | b :: s2 =>
               if (if forwards then space2 a b else space2 b a) then strip_head forwards s2
               else match s2 with
                    | [] => s
                    | c :: s3 =>
                        if (if forwards then space3 a b c else space3 c b a)
                        then strip_head forwards s3
                        else s
                    end
           end
  end.

(** [s.lstrip()], [s.rstrip()] and [s.strip()]. *)
Definition lstrip (s : str) : str := strip_head true s.

Definition rstrip (s : str) : str := rev (strip_head false (rev s)).

Definition strip (s : str) : str := rstrip (lstrip s).

(** What [read()] gives for the text [s] of a file opened in text mode:
    [\r\n] and [\r] become [\n]. *)
Fixpoint universal_newlines (s : str) : str :=
  match s with
  | [] => []
  | c :: s1 =>
      if decide (c = cr) then
        nl :: match s1 with
              | c1 :: s2 => if decide (c1 = nl) then universal_newlines s2
                            else universal_newlines s1
              | [] => []
              end
      else c :: universal_newlines s1
  end.

(** [s.replace(old, new)] for a non-empty [old]: the occurrences of [old] are
    replaced from left to right, without overlap.  [skip] counts the characters
    of an occurrence that are still to be passed over. *)
Fixpoint replace_from (old new : str) (skip : nat) (s : str) : str :=
  match s with
  | [] => []
  | c :: s' =>
      match skip with
      | S k => replace_from old new k s'
      | O =>
          if startswith s old
          then new ++ replace_from old new (length old - 1) s'
          else c :: replace_from old new 0 s'
      end
  end.

Definition replace (old new s : str) : str := replace_from old new 0 s.

(** ** The page pattern of [parse_ocr_file]

    [re.compile(r'===== (page_\d+) =====\n(.*?)(?=\n=====|\Z)', re.DOTALL)].
    The matcher follows the pattern piece by piece; the greedy [\d+] is
    written with a continuation so that it gives back digits when what follows
    does not match, as the backtracking matcher of [re] does. *)

(** Greedy [\d*] followed by the continuation [k]. *)
Fixpoint re_digits_star {A} (k : str -> option A) (s : str) : option (str * A) :=
  match s with
  | c :: s' =>
      if is_digit c then
        match re_digits_star k s' with
        | Some (ds, a) => Some (c :: ds, a)
        | None => pair [] <$> k s
        end
      else pair [] <$> k s
  | [] => pair [] <$> k s
  end.

(** Greedy [\d+] followed by the continuation [k]. *)
Definition re_digits_plus {A} (k : str -> option A) (s : str) : option (str * A) :=
  match s with
  | c :: s' =>
      if is_digit c then
        match re_digits_star k s' with
        | Some (ds, a) => Some (c :: ds, a)
        | None => None
        end
      else None
  | [] => None
  end.

(** The lookahead [(?=\n=====|\Z)]. *)
Definition re_lookahead (s : str) : bool :=
  startswith s (nl :: lit "=====") || bool_decide (s = []).

(** The lazy [(.*?)] under [re.DOTALL], followed by the lookahead: the
    shortest prefix after which the lookahead holds, and what is left. *)
Fixpoint re_lazy_body (s : str) : str * str :=
  if re_lookahead s then ([], s)
  else match s with
       | [] => ([], [])
       | c :: s' => let (body, rest) := re_lazy_body s' in (c :: body, rest)
       end.

(** One match of the pattern at the start of [s]: the two groups and the text
    after the match. *)
Definition page_pattern_match (s : str) : option ((str * str) * str) :=
  s1 ← strip_prefix (lit "===== ") s;
  s2 ← strip_prefix (lit "page_") s1;
  '(ds, s3) ← re_digits_plus (strip_prefix (lit " =====" ++ [nl])) s2;
  let (body, rest) := re_lazy_body s3 in
  Some ((lit "page_" ++ ds, body), rest).

(** [page_pattern.findall(content)]: the matches from left to right, each
    search starting where the previous match ended.  A match of this pattern
    is never empty.  [fuel] bounds the number of search positions. *)
Fixpoint findall_from (fuel : nat) (s : str) : list (str * str) :=
  match fuel with
  | O => []
  | S n =>
      match page_pattern_match s with
      | Some (groups, rest) => groups :: findall_from n rest
      | None =>
          match s with
          | [] => []
          | _ :: s' => findall_from n s'
          end
      end
  end.

Definition findall (content : str) : list (str * str) :=
  findall_from (S (length content)) content.

(** The body of the [with] block of [parse_ocr_file]. *)
Definition parse_content (content : str) : list (str * str) :=
  map (fun m => (m.1, strip m.2)) (findall content).

(** ** Natural sort *)

(** [re.split('([0-9]+)', s)]: the text between the digit runs and the digit
    runs themselves, alternating, starting and ending with text. *)
Fixpoint split_text (acc : str) (s : str) : list str :=
  match s with
  | [] => [rev acc]
  | c :: s' =>
      if is_digit c then rev acc :: split_digits [c] s'
      else split_text (c :: acc) s'
  end
with split_digits (acc : str) (s : str) : list str :=
  match s with
  | [] => [rev acc; []]
  | c :: s' =>
      if is_digit c then split_digits (c :: acc) s'
      else rev acc :: split_text [c] s'
  end.

Definition re_split (s : str) : list str := split_text [] s.

(** The elements of a key: an [int] or a [str]. *)
Inductive KeyElem : Type :=
| KInt (n : Z)
| KStr (s : str).

Definition natural_sort_key (s : str) : list KeyElem :=
  map (fun text => if isdigit text then KInt (int_of_digits text) else KStr (lower text))
      (re_split s).

(** [a < b] on [str]: by code points, a proper prefix first. *)
Fixpoint str_lt (a b : str) : bool :=
  match a, b with
  | _, [] => false
  | [], _ :: _ => true
  | x :: a', y :: b' =>
      if (code x <? code y)%N then true
      else if (code y <? code x)%N then false
      else str_lt a' b'
  end.

Definition elem_eqb (a b : KeyElem) : bool :=
  match a, b with
  | KInt m, KInt n => m =? n
  | KStr s, KStr t => bool_decide (s = t)
  | _, _ => false
  end.

(** [a < b] between elements; [None] is the [TypeError] of comparing an [int]
    with a [str]. *)
Definition elem_lt (a b : KeyElem) : option bool :=
  match a, b with
  | KInt m, KInt n => Some (m <? n)
  | KStr s, KStr t => Some (str_lt s t)
  | _, _ => None
  end.

(** [a < b] between lists: the first pair of elements that differ decides;
    without one, the shorter list is the smaller. *)
Fixpoint key_lt (a b : list KeyElem) : option bool :=
  match a, b with
  | _, [] => Some false
  | [], _ :: _ => Some true
  | x :: a', y :: b' => if elem_eqb x y then key_lt a' b' else elem_lt x y
  end.

(** [list.sort(key=...)] is stable and compares keys with [<] only.  It is
    given here as an insertion sort: [x] goes before the first element whose
    key is not smaller than the key of [x]. *)
Fixpoint insert_by {A} (key : A -> list KeyElem) (x : A) (l : list A) : option (list A) :=
  match l with
  | [] => Some [x]
  | y :: l' =>
      lt ← key_lt (key y) (key x);
      if lt : bool then cons y <$> insert_by key x l' else Some (x :: y :: l')
  end.

Fixpoint sort_by {A} (key : A -> list KeyElem) (l : list A) : option (list A) :=
  match l with
  | [] => Some []
  | x :: l' => sort_by key l' ≫= insert_by key x
  end.

(** ** Exceptions, results, and the world *)

(** A message with interpolated values, as an f-string builds it. *)
Inductive Frag : Type :=
| FS (s : str)
| FI (n : Z).

Definition Msg : Type := list Frag.

(** The exception classes the script tells apart: [RateLimitError] (a
    subclass of [APIError]); any other [APIError], which in the client
    library is every error of the connection, every error status of the
    service (400, 401, 403, 404, 500, ...) and every response that the
    library cannot read; and any other [Exception].  Each carries its
    message, [str(e)]. *)
Inductive exn : Type :=
| RateLimitError (msg : Msg)
| APIError (msg : Msg)
| OtherException (msg : Msg).

Global Instance Frag_eq_dec : EqDecision Frag.
Proof. solve_decision. Defined.
Global Instance exn_eq_dec : EqDecision exn.
Proof. solve_decision. Defined.

Definition exn_str (e : exn) : Msg :=
  match e with
  | RateLimitError m | APIError m | OtherException m => m
  end.

Inductive result (A : Type) : Type :=
| Return (a : A)
| Raise (e : exn).
Arguments Return {A} a.
Arguments Raise {A} e.

(** The parameters of [client.messages.create]. *)
Record Request : Type := {
  rq_model : str;
  rq_max_tokens : Z;
  rq_system : str;
  rq_messages : list (str * str)   (* role, content *)
}.

(** A file is named by its directory and its name in it. *)
Definition Path : Type := str * str.

(** [Path(d) / name] for a file, and for a directory. *)
Definition in_dir (d name : str) : Path := (d, name).
Definition subdir (d name : str) : str := d ++ lit "/" ++ name.

(** [str(path)]. *)
Definition path_str (p : Path) : str := subdir p.1 p.2.

(** [PurePath.suffix] of a name: from the last dot on, unless that dot opens
    or closes the name. *)
Fixpoint last_dot (s : str) : option nat :=
  match s with
  | [] => None
  | c :: s' =>
      match last_dot s' with
      | Some i => Some (S i)
      | None => if decide (c = "."%char) then Some O else None
      end
  end.

Definition path_suffix (name : str) : str :=
  match last_dot name with
  | Some i => if bool_decide (0 < i < length name - 1)%nat then drop i name else []
  | None => []
  end.

(** [PurePath.with_suffix], on the name. *)
Definition with_suffix (name suffix : str) : str :=
  take (length name - length (path_suffix name)) name ++ suffix.

Inductive IoOp : Type :=
| OpOpenRead | OpDecode | OpOpenWrite | OpWrite | OpMkdir | OpListdir.

Global Instance IoOp_eq_dec : EqDecision IoOp.
Proof. solve_decision. Defined.

Inductive Level : Type := INFO | WARNING | ERROR.

Inductive Status : Type := Completed | Skipped | Failed.

Global Instance Status_eq_dec : EqDecision Status.
Proof. solve_decision. Defined.

(** The three dictionaries the script serialises with [json.dump]. *)
Record Metadata : Type := {
  md_source_page : str;
  md_translation_date : str;
  md_model : str;
  md_characters : nat;
  md_status : Status
}.

Record ErrorInfo : Type := {
  ei_source_page : str;
  ei_error_date : str;
  ei_error_message : Msg;
  ei_status : Status
}.

Record Summary : Type := {
  sm_timestamp : str;
  sm_ocr_file : str;
  sm_output_directory : str;
  sm_model : str;
  sm_total_pages : nat;
  sm_completed : nat;
  sm_skipped : nat;
  sm_failed : nat;
  sm_results : gmap str Status
}.

Inductive JsonDoc : Type :=
| JMetadata (m : Metadata)
| JErrorInfo (e : ErrorInfo)
| JSummary (s : Summary).

(** What the script does not decide.
    - [remote history request]: the outcome of [client.messages.create]
      followed by [response.content[0].text], given the calls made before;
    - [io_fault op path]: the exception, if any, with which the operating
      system refuses the operation;
    - [json_dumps], [isoformat]: the texts produced by [json.dump(_, indent=2)]
      and [datetime.isoformat]. *)
Record Env : Type := {
  remote : list Request -> Request -> result str;
  io_fault : IoOp -> Path -> option exn;
  json_dumps : JsonDoc -> str;
  isoformat : Z -> str
}.

(** What happens between the script and the outside, in order. *)
Inductive Event : Type :=
| Called (params : Request)     (* one call of [client.messages.create] *)
| Slept (seconds : Z).          (* one call of [time.sleep] *)

Record World : Type := {
  events : list Event;           (* remote calls and sleeps, oldest first *)
  clock : Z;                     (* seconds; advanced by sleeping *)
  files : gmap Path str;         (* the text files *)
  logged : list (Level * Msg)    (* the log records, oldest first *)
}.

(** The remote calls made so far, and the sleeps. *)
Definition calls_of (evs : list Event) : list Request :=
  omap (fun ev => match ev with Called rq => Some rq | Slept _ => None end) evs.
Definition slept_of (evs : list Event) : list Z :=
  omap (fun ev => match ev with Slept n => Some n | Called _ => None end) evs.

Definition calls (w : World) : list Request := calls_of (events w).
Definition slept (w : World) : list Z := slept_of (events w).

Definition set_events (f : list Event -> list Event) (w : World) : World :=
  {| events := f (events w); clock := clock w; files := files w; logged := logged w |}.
Definition set_clock (f : Z -> Z) (w : World) : World :=
  {| events := events w; clock := f (clock w); files := files w; logged := logged w |}.
Definition set_files (f : gmap Path str -> gmap Path str) (w : World) : World :=
  {| events := events w; clock := clock w; files := f (files w); logged := logged w |}.
Definition set_logged (f : list (Level * Msg) -> list (Level * Msg)) (w : World) : World :=
  {| events := events w; clock := clock w; files := files w; logged := f (logged w) |}.

(** ** The monad of effects *)

Definition M (A : Type) : Type := World -> result A * World.

Definition ret {A} (a : A) : M A := fun w => (Return a, w).

Definition raise {A} (e : exn) : M A := fun w => (Raise e, w).

Definition bind {A B} (m : M A) (k : A -> M B) : M B :=
  fun w =>
    match m w with
    | (Return a, w') => k a w'
    | (Raise e, w') => (Raise e, w')
    end.

Global Instance M_ret : MRet M := @ret.
Global Instance M_bind : MBind M := fun A B k m => bind m k.

(** [try: m except Exception as e: h e]. *)
Definition try_except {A} (m : M A) (h : exn -> M A) : M A :=
  fun w =>
    match m w with
    | (Return a, w') => (Return a, w')
    | (Raise e, w') => h e w'
    end.

(** [for x in l: body x]. *)
Fixpoint for_each {A} (body : A -> M unit) (l : list A) : M unit :=
  match l with
  | [] => ret tt
  | x :: l' => body x ;; for_each body l'
  end.

(** The results of [f] on the elements of [l], in order; an exception ends
    the traversal. *)
Fixpoint map_M {A B} (f : A -> M B) (l : list A) : M (list B) :=
  match l with
  | [] => ret []
  | x :: l' => b ← f x; bs ← map_M f l'; ret (b :: bs)
  end.

(** Reading and changing the world. *)
Definition gets {A} (f : World -> A) : M A := fun w => (Return (f w), w).
Definition modify (f : World -> World) : M unit := fun w => (Return tt, f w).

(** The outcome [r] of an operation of the environment. *)
Definition lift_result {A} (r : result A) : M A := fun w => (r, w).

Definition logger (lvl : Level) (msg : Msg) : M unit :=
  modify (set_logged (fun l => l ++ [(lvl, msg)])).

(** [time.sleep(seconds)]: a [ValueError] for a negative length. *)
Definition sleep (seconds : Z) : M unit :=
  if seconds <? 0 then
    raise (OtherException [FS (lit "sleep length must be non-negative")])
  else
    modify (set_events (fun l => l ++ [Slept seconds])) ;;
    modify (set_clock (Z.add seconds)).

(** [path.exists()]. *)
Definition path_exists (p : Path) : M bool :=
  gets (fun w => bool_decide (is_Some (files w !! p))).

Section Effects.
Context (env : Env).

(** [datetime.now().isoformat()]. *)
Definition now_isoformat : M str :=
  gets (fun w => isoformat env (clock w)).

(** [client.messages.create] on [params], and [response.content[0].text]. *)
Definition messages_create (params : Request) : M str :=
  history ← gets calls;
  modify (set_events (fun l => l ++ [Called params])) ;;
  lift_result (remote env history params).

Definition check_fault (op : IoOp) (p : Path) : M unit :=
  match io_fault env op p with
  | Some e => raise e
  | None => ret tt
  end.

(** [open(p, 'r', encoding='utf-8')] and [read()]: the text of the file,
    with universal newlines. *)
Definition read_text (p : Path) : M str :=
  check_fault OpOpenRead p ;;
  file ← gets (fun w => files w !! p);
  match file with
  | None => raise (OtherException [FS (lit "No such file or directory: "); FS (path_str p)])
  | Some content => check_fault OpDecode p ;; ret (universal_newlines content)
  end.

(** [open(p, 'w', encoding='utf-8')]: the file is created or emptied. *)
Definition open_write (p : Path) : M unit :=
  check_fault OpOpenWrite p ;;
  modify (set_files (insert p [])).

(** [file.write(s)] on a file opened for writing. *)
Definition file_write (p : Path) (s : str) : M unit :=
  check_fault OpWrite p ;;
  modify (set_files (fun fs => <[p := default [] (fs !! p) ++ s]> fs)).

(** [mkdir(exist_ok=True)] and [os.makedirs(_, exist_ok=True)]; directories
    themselves are not part of the state. *)
Definition mkdir (d : str) : M unit :=
  check_fault OpMkdir (d, []).

(** [os.listdir(d)]: the names in [d], in no particular order. *)
Definition names_in (d : str) (fs : gmap Path str) : list str :=
  omap (fun p : Path => if decide (p.1 = d) then Some p.2 else None)
       (elements (dom fs)).

Definition listdir (d : str) : M (list str) :=
  check_fault OpListdir (d, []) ;;
  gets (fun w => names_in d (files w)).

(** *** [parse_ocr_file] *)

Definition parse_ocr_file (ocr_file_path : Path) : M (list (str * str)) :=
  try_except
    (content ← read_text ocr_file_path;
     let page_entries := parse_content content in
     logger INFO [FS (lit "Parsed "); FI (Z.of_nat (length page_entries));
                  FS (lit " pages from OCR file "); FS (path_str ocr_file_path)] ;;
     ret page_entries)
    (fun e =>
       logger ERROR ([FS (lit "Failed to parse OCR file "); FS (path_str ocr_file_path);
                      FS (lit ": ")] ++ exn_str e) ;;
       ret []).

(** *** [translate_text] *)

Definition system_prompt : str := lit
"You are a scholar specializing in translating Ibn Arabi's complex mystical Arabic writings into English.

TRANSLATION GUIDELINES:
1. Preserve the original structure, format, and layout - especially for poetry and verse
2. Translate with extreme precision and fidelity to the source text
3. Maintain Ibn Arabi's distinct style, complex metaphors, and technical Sufi terminology
4. Render specialized Sufi terms accurately while preserving their technical meaning
5. DO NOT add explanatory notes, commentary, or interpolations
6. Respect line breaks, stanza divisions, and other formatting elements
7. When encountering ambiguities, render the most literal translation possible without interpretation
8. Preserve any footnotes, page numbers, or reference markers
9. For poetry, attempt to convey the rhythm and poetic qualities while prioritizing accuracy over style

Your goal is to create a scholarly, meticulous translation that captures both the letter and spirit of Ibn Arabi's work while avoiding any interpretive intrusion.".

Definition user_prompt : str :=
  lit "Please translate the following Ibn Arabi text from Classical Arabic into English. Preserve all formatting, poetry structure, and technical terms. The text is from the Futūḥāt al-Makkiyya (Meccan Revelations) or related works."
  ++ [nl; nl].

Definition translate_params (text model : str) : Request :=
  {| rq_model := model;
     rq_max_tokens := 4000;
     rq_system := system_prompt;
     rq_messages := [(lit "user", user_prompt ++ text)] |}.

(** The body of the loop for one value of [attempt]: [Some r] when it
    returns [r], [None] when the loop goes on. *)
Definition translate_attempt (text model : str) (max_retries : nat) (retry_delay : Z)
    (attempt : nat) : M (option str) :=
  try_except
    (r ← messages_create (translate_params text model); ret (Some r))
    (fun e =>
       match e with
       | RateLimitError _ =>
           let wait_time := retry_delay * 2 ^ Z.of_nat attempt in
           logger WARNING [FS (lit "Rate limit exceeded. Waiting "); FI wait_time;
                           FS (lit " seconds before retry.")] ;;
           sleep wait_time ;;
           ret None
       | APIError _ =>
           if (attempt <? max_retries - 1)%nat then
             let wait_time := retry_delay * 2 ^ Z.of_nat attempt in
             logger WARNING ([FS (lit "API error: ")] ++ exn_str e ++
                             [FS (lit ". Retrying in "); FI wait_time; FS (lit " seconds.")]) ;;
             sleep wait_time ;;
             ret None
           else
             logger ERROR ([FS (lit "Failed after "); FI (Z.of_nat max_retries);
                            FS (lit " attempts: ")] ++ exn_str e) ;;
             raise e
       | OtherException _ =>
           logger ERROR ([FS (lit "Unexpected error: ")] ++ exn_str e) ;;
           raise e
       end).

(** [for attempt in attempts: ...], then the final [raise]. *)
Fixpoint translate_loop (text model : str) (max_retries : nat) (retry_delay : Z)
    (attempts : list nat) : M str :=
  match attempts with
  | [] =>
      raise (OtherException [FS (lit "Failed to translate after "); FI (Z.of_nat max_retries);
                             FS (lit " attempts")])
  | attempt :: rest =>
      o ← translate_attempt text model max_retries retry_delay attempt;
      match o with
      | Some r => ret r
      | None => translate_loop text model max_retries retry_delay rest
      end
  end.

Definition translate_text (text model : str) (max_retries : nat) (retry_delay : Z) : M str :=
  translate_loop text model max_retries retry_delay (seq 0 max_retries).

(** *** [process_page]

    The tuple [args] without its first component, the client, which is the
    [remote] of the environment. *)

Definition ProcessArgs : Type := str * str * str * str * bool.

(** The body of the [try] block. *)
Definition process_page_try (page_id text output_directory model : str) : M (str * Status) :=
  let output_filepath := in_dir output_directory (page_id ++ lit ".txt") in
  logger INFO [FS (lit "Translating "); FS page_id; FS (lit "...")] ;;
  translation ← translate_text text model 3 2;
  open_write output_filepath ;;
  file_write output_filepath translation ;;
  translation_date ← now_isoformat;
  let metadata :=
    {| md_source_page := page_id;
       md_translation_date := translation_date;
       md_model := model;
       md_characters := len text;
       md_status := Completed |} in
  let metadata_path :=
    in_dir output_directory (with_suffix (page_id ++ lit ".txt") (lit ".meta.json")) in
  open_write metadata_path ;;
  file_write metadata_path (json_dumps env (JMetadata metadata)) ;;
  logger INFO [FS (lit "Translation saved to "); FS (path_str output_filepath)] ;;
  ret (page_id, Completed).

(** The body of the [except Exception as e] block. *)
Definition process_page_except (page_id output_directory : str) (e : exn) : M (str * Status) :=
  logger ERROR ([FS (lit "Failed to translate "); FS page_id; FS (lit ": ")] ++ exn_str e) ;;
  let error_dir := subdir output_directory (lit "errors") in
  mkdir error_dir ;;
  error_date ← now_isoformat;
  let error_info :=
    {| ei_source_page := page_id;
       ei_error_date := error_date;
       ei_error_message := exn_str e;
       ei_status := Failed |} in
  let error_path := in_dir error_dir (page_id ++ lit ".error.json") in
  open_write error_path ;;
  file_write error_path (json_dumps env (JErrorInfo error_info)) ;;
  ret (page_id, Failed).

Definition process_page (args : ProcessArgs) : M (str * Status) :=
  let '(page_id, text, output_directory, model, force_retranslate) := args in
  let output_filepath := in_dir output_directory (page_id ++ lit ".txt") in
  output_exists ← path_exists output_filepath;
  if output_exists && negb force_retranslate then
    logger INFO [FS (lit "Skipping "); FS page_id; FS (lit " - translation already exists")] ;;
    ret (page_id, Skipped)
  else
    try_except
      (process_page_try page_id text output_directory model)
      (process_page_except page_id output_directory).

(** *** [create_combined_translation] *)

Definition is_translation_file (filename : str) : bool :=
  startswith filename (lit "page_") && endswith filename (lit ".txt")
  && negb (endswith filename (lit ".meta.json")).

Definition page_header (page_id : str) : str :=
  lit "===== " ++ page_id ++ lit " =====" ++ [nl; nl].

(** The body of the loop over the sorted file names. *)
Definition combine_page (output_directory : str) (combined_path : Path) (filename : str) :
    M unit :=
  let page_id := replace (lit ".txt") [] filename in
  file_write combined_path (page_header page_id) ;;
  try_except
    (content ← read_text (in_dir output_directory filename);
     file_write combined_path content ;;
     file_write combined_path [nl; nl])
    (fun e =>
       logger ERROR ([FS (lit "Error adding "); FS filename;
                      FS (lit " to combined file: ")] ++ exn_str e)).

Definition create_combined_translation (output_directory : str) : M unit :=
  names ← listdir output_directory;
  match sort_by natural_sort_key (List.filter is_translation_file names) with
  | None => raise (OtherException [FS (lit "'<' not supported between instances")])
  | Some translation_files =>
      if bool_decide (translation_files = []) then
        logger WARNING [FS (lit "No translation files found to combine")]
      else
        let combined_path := in_dir output_directory (lit "combined_translation.txt") in
        open_write combined_path ;;
        for_each (combine_page output_directory combined_path) translation_files ;;
        logger INFO [FS (lit "Combined translation saved to "); FS (path_str combined_path)]
  end.

(** *** [main]

    The command line once parsed and its defaults resolved. *)
Record Args : Type := {
  ocr_file : Path;
  output : str;
  model : str;
  workers : nat;
  force : bool;
  pages : list str;            (* empty when [--pages] is not given *)
  create_combined : bool
}.

Definition count_status (st : Status) (results : list (str * Status)) : nat :=
  length (List.filter (fun r : str * Status => bool_decide (r.2 = st)) results).

(** [dict(results)]: a later pair replaces an earlier one with the same key. *)
Definition dict_of (results : list (str * Status)) : gmap str Status :=
  foldl (fun m (r : str * Status) => <[r.1 := r.2]> m) ∅ results.

(** The list [process_args] of [main]. *)
Definition process_args (args : Args) (page_entries : list (str * str)) : list ProcessArgs :=
  map (fun e : str * str => (e.1, e.2, output args, model args, force args)) page_entries.

(** The log records before the dispatch. *)
Definition log_batch_start (args : Args) (page_entries : list (str * str)) : M unit :=
  logger INFO [FS (lit "Starting translation of "); FI (Z.of_nat (length page_entries));
               FS (lit " pages")] ;;
  logger INFO [FS (lit "OCR file: "); FS (path_str (ocr_file args))] ;;
  logger INFO [FS (lit "Output directory: "); FS (output args)] ;;
  logger INFO [FS (lit "Model: "); FS (model args)] ;;
  logger INFO [FS (lit "Workers: "); FI (Z.of_nat (workers args))].

(** The dictionary [summary]. *)
Definition make_summary (args : Args) (page_entries : list (str * str))
    (results : list (str * Status)) (timestamp : str) : Summary :=
  {| sm_timestamp := timestamp;
     sm_ocr_file := path_str (ocr_file args);
     sm_output_directory := output args;
     sm_model := model args;
     sm_total_pages := length page_entries;
     sm_completed := count_status Completed results;
     sm_skipped := count_status Skipped results;
     sm_failed := count_status Failed results;
     sm_results := dict_of results |}.

(** [main] once the results are collected: the counts, the summary file, the
    combined file. *)
Definition finish_batch (args : Args) (page_entries : list (str * str))
    (results : list (str * Status)) : M unit :=
  let completed := count_status Completed results in
  let skipped := count_status Skipped results in
  let failed := count_status Failed results in
  logger INFO [FS (lit "Translation process completed:")] ;;
  logger INFO [FS (lit "  - Completed: "); FI (Z.of_nat completed)] ;;
  logger INFO [FS (lit "  - Skipped: "); FI (Z.of_nat skipped)] ;;
  logger INFO [FS (lit "  - Failed: "); FI (Z.of_nat failed)] ;;
  timestamp ← now_isoformat;
  let summary := make_summary args page_entries results timestamp in
  let summary_path := in_dir (output args) (lit "translation_summary.json") in
  open_write summary_path ;;
  file_write summary_path (json_dumps env (JSummary summary)) ;;
  if create_combined args && bool_decide (0 < completed)%nat then
    create_combined_translation (output args)
  else ret tt.

(** [main] from the point where [page_entries] is final: dispatch, summary,
    combined file. *)
Definition run_batch (args : Args) (page_entries : list (str * str)) : M unit :=
  log_batch_start args page_entries ;;
  results ← map_M process_page (process_args args page_entries);
  finish_batch args page_entries results.

(** [main] after the parsing of the command line and the creation of the
    client. *)
Definition main (args : Args) : M unit :=
  mkdir (output args) ;;
  page_entries ← parse_ocr_file (ocr_file args);
  if bool_decide (page_entries = []) then
    logger ERROR [FS (lit "No pages found in OCR file "); FS (path_str (ocr_file args))]
  else
    if bool_decide (pages args = []) then run_batch args page_entries
    else
      let page_entries :=
        List.filter (fun e : str * str => bool_decide (e.1 ∈ pages args)) page_entries in
      if bool_decide (page_entries = []) then
        logger ERROR [FS (lit "None of the specified pages were found")]
      else run_batch args page_entries.

End Effects.

(** * The scripts around the translator *)

(** ** [scripts/create_latex_book.py]: [escape_latex]

    The dictionary [escapes], in the order in which it is written, which is
    the order in which [for k, v in escapes.items()] goes through it. *)

Definition backslash : ascii := "092"%char.

Definition escapes : list (str * str) :=
  [ (lit "&", backslash :: lit "&");
    (lit "%", backslash :: lit "%");
    (lit "$", backslash :: lit "$");
    (lit "#", backslash :: lit "#");
    (lit "_", backslash :: lit "_");
    (lit "{", backslash :: lit "{");
    (lit "}", backslash :: lit "}");
    (lit "~", backslash :: lit "textasciitilde{}");
    (lit "^", backslash :: lit "^{}");
    ([backslash], backslash :: lit "textbackslash{}") ].

(** [for k, v in escapes.items(): text = text.replace(k, v)]. *)
Definition escape_latex (text : str) : str :=
  fold_left (fun text kv => replace kv.1 kv.2 text) escapes text.

Section Scripts.
Context (env : Env).

(** ** [scripts/claude_pdf_ocr.py]: the results file

    The last block of [main]: [with open(args.result_file, "w") as f] and
    the loop over [results]. *)
Definition write_ocr_results (result_file : Path) (results : list (str * str)) : M unit :=
  open_write env result_file ;;
  for_each (fun r : str * str =>
              file_write env result_file (lit "===== " ++ r.1 ++ lit " =====" ++ [nl]) ;;
              file_write env result_file r.2 ;;
              file_write env result_file [nl; nl])
           results.

(** ** [scripts/create_latex_book.py]: [load_translations] *)
Definition load_translations (translations_dir : str) : M (list (str * str)) :=
  try_except
    (names ← listdir env translations_dir;
     match sort_by natural_sort_key (List.filter is_translation_file names) with
     | None => raise (OtherException [FS (lit "'<' not supported between instances")])
     | Some translation_files =>
         translation_entries ←
           map_M (fun filename =>
                    content ← read_text env (in_dir translations_dir filename);
                    ret (replace (lit ".txt") [] filename, strip content))
                 translation_files;
         logger INFO [FS (lit "Loaded "); FI (Z.of_nat (length translation_entries));
                      FS (lit " translation files from "); FS translations_dir] ;;
         ret translation_entries
     end)
    (fun e =>
       logger ERROR ([FS (lit "Failed to load translation files from "); FS translations_dir;
                      FS (lit ": ")] ++ exn_str e) ;;
       ret []).

End Scripts.

(** * The input format, as the statements below read it *)

(** The lines of a text, as [s.split('\n')] gives them. *)
Fixpoint lines (s : str) : list str :=
  match s with
  | [] => [[]]
  | c :: s' =>
      if decide (c = nl) then [] :: lines s'
      else match lines s' with
           | l :: ls => (c :: l) :: ls
           | [] => [[c]]
           end
  end.

(** No line of [s] begins with [=====]. *)
Definition no_marker_line (s : str) : Prop :=
  Forall (fun l => startswith l (lit "=====") = false) (lines s).

(** No line of [s] after the first begins with [=====]. *)
Definition no_inner_marker (s : str) : Prop :=
  Forall (fun l => startswith l (lit "=====") = false) (tail (lines s)).

(** The marker line of a block, [===== <id> =====]. *)
Definition marker_line (id : str) : str := lit "===== " ++ id ++ lit " =====".

(** A block: its marker line, then its body on the following lines. *)
Definition block_text (b : str * str) : str := marker_line b.1 ++ [nl] ++ b.2.

(** A text made of blocks, each beginning on a line of its own. *)
Fixpoint blocks_text (bs : list (str * str)) : str :=
  match bs with
  | [] => []
  | [b] => block_text b
  | b :: bs' => block_text b ++ [nl] ++ blocks_text bs'
  end.

(** An identifier of the form [page_<digits>]. *)
Definition is_page_id (id : str) : bool :=
  match strip_prefix (lit "page_") id with
  | Some ds => isdigit ds
  | None => false
  end.

(** A byte of what [\d] of Python may take for a decimal digit: an ASCII
    digit, or a byte of a character outside ASCII, where the digits of the
    other scripts are. *)
Definition may_be_digit (c : ascii) : bool := is_digit c || (128 <=? code c)%N.

(** [content] holds a marker [===== page_<digits> =====] followed by a
    newline, the digits being of any script. *)
Definition has_page_marker (content : str) : Prop :=
  exists pre digits post,
    digits <> [] /\ forallb may_be_digit digits = true /\
    content = pre ++ marker_line (lit "page_" ++ digits) ++ [nl] ++ post.

(** The longest run of such bytes at the head of [s]. *)
Fixpoint digit_run (s : str) : str :=
  match s with
  | c :: s' => if may_be_digit c then c :: digit_run s' else []
  | [] => []
  end.

(** The digits of the marker at the head of [s], if there is one. *)
Definition marker_digits (s : str) : option str :=
  s1 ← strip_prefix (lit "===== page_") s;
  let run := digit_run s1 in
  if bool_decide (run <> []) && startswith (drop (length run) s1) (lit " =====" ++ [nl])
  then Some run else None.

(** The markers of [content] are written with ASCII digits: wherever it
    holds a marker, the digits are ASCII digits.  On such a text the [\d] of
    Python and [[0-9]] match the same markers. *)
Fixpoint markers_ascii (content : str) : bool :=
  match content with
  | [] => true
  | _ :: s' =>
      match marker_digits content with
      | Some run => forallb is_digit run
      | None => true
      end && markers_ascii s'
  end.

(** A plain file name: not empty, not beginning with a dot, and without a
    separator of directories or drives ([/], and the backslash and the colon
    of Windows) or a null character. *)
Definition is_file_name (name : str) : bool :=
  match name with
  | [] => false
  | c :: _ =>
      negb (bool_decide (c = "."%char)) &&
      forallb (fun x => negb (bool_decide (x ∈ ["/"%char; "092"%char; ":"%char; "000"%char])))
              name
  end.

(** The translation files of the directory [d] have names of ASCII
    characters: on such names [str.isdigit], [int] and [str.lower] are those
    of [natural_sort_key] here. *)
Definition ascii_names (d : str) (fs : gmap Path str) : Prop :=
  forall f, is_translation_file f = true -> is_Some (fs !! (d, f)) ->
            Forall (fun c => (code c < 128)%N) f.

(** The file at [p] cannot be opened, is not there, or cannot be decoded;
    [e] is the exception that reading it raises. *)
Definition unreadable (env : Env) (p : Path) (w : World) (e : exn) : Prop :=
  io_fault env OpOpenRead p = Some e
  \/ (io_fault env OpOpenRead p = None /\ files w !! p = None /\
      e = OtherException [FS (lit "No such file or directory: "); FS (path_str p)])
  \/ (io_fault env OpOpenRead p = None /\ is_Some (files w !! p) /\
      io_fault env OpDecode p = Some e).

(** [ext] does not begin with a digit. *)
Definition not_digit_first (ext : str) : Prop :=
  match ext with
  | [] => True
  | c :: _ => is_digit c = false
  end.

(** The artifacts of a page in the output directory. *)
Definition output_path (output_directory page_id : str) : Path :=
  in_dir output_directory (page_id ++ lit ".txt").
Definition metadata_path (output_directory page_id : str) : Path :=
  in_dir output_directory (with_suffix (page_id ++ lit ".txt") (lit ".meta.json")).
Definition error_path (output_directory page_id : str) : Path :=
  in_dir (subdir output_directory (lit "errors")) (page_id ++ lit ".error.json").

(** The outcome of the transform of a page, called by [process_page] in
    the world [w]. *)
Definition transform_outcome (env : Env) (page_id text model : str) (w : World) : result str :=
  (translate_text env text model 3 2
     (set_logged (fun l => l ++ [(INFO, [FS (lit "Translating "); FS page_id; FS (lit "...")])])
        w)).1.

(** The four file operations of the [try] block go through. *)
Definition output_writes_ok (env : Env) (output_directory page_id : str) : Prop :=
  io_fault env OpOpenWrite (output_path output_directory page_id) = None /\
  io_fault env OpWrite (output_path output_directory page_id) = None /\
  io_fault env OpOpenWrite (metadata_path output_directory page_id) = None /\
  io_fault env OpWrite (metadata_path output_directory page_id) = None.

(** After the transform has returned, a write fails once the output file
    exists: the write of its text, or the opening or the write of the
    metadata file. *)
Definition late_write_fails (env : Env) (output_directory page_id : str) : Prop :=
  io_fault env OpOpenWrite (output_path output_directory page_id) = None /\
  ~ output_writes_ok env output_directory page_id.

(** The error record can be opened for writing, and can be written. *)
Definition error_record_opens (env : Env) (output_directory page_id : str) : Prop :=
  io_fault env OpMkdir (subdir output_directory (lit "errors"), []) = None /\
  io_fault env OpOpenWrite (error_path output_directory page_id) = None.

Definition error_writes_ok (env : Env) (output_directory page_id : str) : Prop :=
  error_record_opens env output_directory page_id /\
  io_fault env OpWrite (error_path output_directory page_id) = None.

(** The summary file and the combined file of an output directory. *)
Definition summary_path (output_directory : str) : Path :=
  in_dir output_directory (lit "translation_summary.json").
Definition combined_path (output_directory : str) : Path :=
  in_dir output_directory (lit "combined_translation.txt").

(** The world in which the pages of a batch are dispatched. *)
Definition dispatch_world (args : Args) (page_entries : list (str * str)) (w : World) : World :=
  (log_batch_start args page_entries w).2.

(** The text of the combined file for the files [contents], given as
    (file name, text) in the order of the combiner. *)
Definition combined_text (contents : list (str * str)) : str :=
  concat (map (fun fc : str * str =>
                 page_header (replace (lit ".txt") [] fc.1) ++ fc.2 ++ [nl; nl])
              contents).



(** No operation on files fails. *)
Definition no_io_fault (env : Env) : Prop := forall op p, io_fault env op p = None.

(** The status of the page [e] in a batch run from the world [w] when
    [bad] is the page whose transform fails: skipped if its output is there
    and [--force] is not given, else failed if it is [bad], else completed. *)
Definition expected_status (args : Args) (w : World) (bad e : str * str) : Status :=
  if bool_decide (is_Some (files w !! output_path (output args) e.1)) && negb (force args)
  then Skipped
  else if bool_decide (e = bad) then Failed else Completed.

(** The files that the page [e] then writes. *)
Definition written (args : Args) (w : World) (bad e : str * str) (p : Path) : Prop :=
  match expected_status args w bad e with
  | Completed => p = output_path (output args) e.1 \/ p = metadata_path (output args) e.1
  | Failed => p = error_path (output args) e.1
  | Skipped => False
  end.



(** The exception of [translate_text] when the loop ends without a result. *)
Definition attempts_exhausted (max_retries : nat) : exn :=
  OtherException [FS (lit "Failed to translate after "); FI (Z.of_nat max_retries);
                  FS (lit " attempts")].


(** The three files that [process_page] may write for a page. *)
Definition page_artifacts (output_directory page_id : str) (p : Path) : Prop :=
  p = output_path output_directory page_id \/
  p = metadata_path output_directory page_id \/
  p = error_path output_directory page_id.

(** The files of an output directory and of its [errors] directory. *)
Definition batch_area (output_directory : str) (p : Path) : Prop :=
  p.1 = output_directory \/ p.1 = subdir output_directory (lit "errors").

(** The request for the text of one of the pages [page_entries]. *)
Definition request_of (model : str) (page_entries : list (str * str)) (rq : Request) : Prop :=
  exists e, e ∈ page_entries /\ rq = translate_params e.2 model.

(** The pages that [main] processes: the pages parsed from the OCR file,
    or those of them that [--pages] names. *)
Definition selected (pages : list str) (page_entries : list (str * str)) : list (str * str) :=
  if bool_decide (pages = []) then page_entries
  else List.filter (fun e : str * str => bool_decide (e.1 ∈ pages)) page_entries.

(** What reading the file [p] gives; [None] when it cannot be opened, is not
    there, or cannot be decoded. *)
Definition file_text (env : Env) (fs : gmap Path str) (p : Path) : option str :=
  match io_fault env OpOpenRead p, fs !! p, io_fault env OpDecode p with
  | None, Some content, None => Some (universal_newlines content)
  | _, _, _ => None
  end.

(** The text that reading the file [p] gives when it is there and can be
    read. *)
Definition read_back (fs : gmap Path str) (p : Path) : str :=
  universal_newlines (default [] (fs !! p)).

(** The page files [L] of a directory as items: the identifier, and the
    text as it is read. *)
Definition items_of (d : str) (fs : gmap Path str) (L : list str) : list (str * str) :=
  map (fun f => (replace (lit ".txt") [] f, read_back fs (in_dir d f))) L.

(** Page files: each name is [<id>.txt] for a page identifier, and no line
    of the text begins with [=====]. *)
Definition page_files (d : str) (fs : gmap Path str) (L : list str) : Prop :=
  Forall (fun f => (exists id, f = id ++ lit ".txt" /\ is_page_id id = true) /\
                   is_Some (fs !! in_dir d f) /\
                   no_marker_line (read_back fs (in_dir d f))) L.

(** What the combiner writes for the file [f] of the directory [d]: the
    header, and the text and two newlines if the file can be read. *)
Definition combined_block (env : Env) (d : str) (fs : gmap Path str) (f : str) : str :=
  page_header (replace (lit ".txt") [] f) ++
  match file_text env fs (in_dir d f) with
  | Some content => content ++ [nl; nl]
  | None => []
  end.

(** The text of the results file of the OCR script for the pages
    [results], given as (page, text). *)
Definition ocr_results_text (results : list (str * str)) : str :=
  concat (map (fun r : str * str => lit "===== " ++ r.1 ++ lit " =====" ++ [nl] ++ r.2 ++ [nl; nl])
              results).

(** What [escape_latex] makes of one character. *)
Definition escaped_char (c : ascii) : str :=
  if bool_decide (c ∈ lit "&%$#_{}") then backslash :: lit "textbackslash{}" ++ [c]
  else if bool_decide (c = "~"%char) then backslash :: lit "textbackslash{}textasciitilde{}"
  else if bool_decide (c = "^"%char) then backslash :: lit "textbackslash{}^{}"
  else if bool_decide (c = backslash) then backslash :: lit "textbackslash{}"
  else [c].

(** The entry that [load_translations] makes of the file [f], if it can be
    read. *)
Definition loaded_entry (env : Env) (d : str) (fs : gmap Path str) (f : str) :
    option (str * str) :=
  content ← file_text env fs (in_dir d f);
  Some (replace (lit ".txt") [] f, strip content).

(** The name [g] may come after the name [f] in a list sorted by the
    natural key: the key of [g] is not smaller than the key of [f]. *)
Definition natural_le (f g : str) : Prop :=
  key_lt (natural_sort_key g) (natural_sort_key f) = Some false.

(** A text of ASCII characters. *)
Definition is_ascii_text (s : str) : Prop := Forall (fun c => (code c < 128)%N) s.

(** The blocks of the results file: each text is followed by a newline, the
    last one by two. *)
Fixpoint ocr_blocks (results : list (str * str)) : list (str * str) :=
  match results with
  | [] => []
  | [r] => [(r.1, r.2 ++ [nl; nl])]
  | r :: results' => (r.1, r.2 ++ [nl]) :: ocr_blocks results'
  end.

(** Two elements of a key of the same kind: two texts, or two numbers. *)
Definition same_kind (x y : KeyElem) : Prop :=
  match x, y with
  | KInt _, KInt _ | KStr _, KStr _ => True
  | _, _ => False
  end.

(** ** Relations between the world before and the world after

    [keeps R m]: from any world, [m] ends, with a result or an exception, in
    a world related by [R] to the one it started from. *)
Definition keeps {A} (R : relation World) (m : M A) : Prop :=
  forall w, R w (m w).2.

(** No remote call, no sleep. *)
Definition same_events : relation World := fun w w' => events w' = events w.

(** No file is created, written or removed. *)
Definition same_files : relation World := fun w w' => files w' = files w.

(** Every file that was there is still there, with whatever content. *)
Definition no_file_lost : relation World :=
  fun w w' => forall p, is_Some (files w !! p) -> is_Some (files w' !! p).

(** The files outside [area] are as they were: neither created nor
    changed. *)
Definition writes_within (area : Path -> Prop) : relation World :=
  fun w w' => forall p, ~ area p -> files w' !! p = files w !! p.

(** The remote calls made in between all satisfy [allowed]. *)
Definition sends_only (allowed : Request -> Prop) : relation World :=
  fun w w' => exists sent, calls w' = calls w ++ sent /\ Forall allowed sent.

(** * Scenarios

    Concrete environments and worlds on which the statements below are
    exercised. *)

(** Library routines: any fixed rendering will do. *)
Definition plain_json (d : JsonDoc) : str :=
  match d with
  | JMetadata _ => lit "{metadata}"
  | JErrorInfo _ => lit "{error}"
  | JSummary _ => lit "{summary}"
  end.

Definition plain_iso (t : Z) : str := lit "2025-03-01T00:00:00".

(** An environment from the behaviour of the remote service, without
    failures of the file system. *)
Definition env_of (r : list Request -> Request -> result str) : Env :=
  {| remote := r; io_fault := fun _ _ => None;
     json_dumps := plain_json; isoformat := plain_iso |}.

Definition empty_world : World :=
  {| events := []; clock := 0; files := ∅; logged := [] |}.

Definition two_pages : list (str * str) :=
  [(lit "page_1", lit "salam"); (lit "page_2", lit "nur")].

Definition args_out : Args :=
  {| ocr_file := (lit "in", lit "ocr_results.txt"); output := lit "out"; model := lit "m";
     workers := 1; force := false; pages := []; create_combined := true |}.

(** An output directory with two translations and one metadata file. *)
Definition translated_files : gmap Path str :=
  list_to_map
    [((lit "out", lit "page_10.txt"), lit " salam ");
     ((lit "out", lit "page_2.txt"), lit "nur" ++ [nl] ++ lit "== ala nur");
     ((lit "out", lit "page_2.meta.json"), lit "{metadata}")].

Definition world_of (fs : gmap Path str) : World :=
  {| events := []; clock := 0; files := fs; logged := [] |}.

(** An OCR file with the text [content], and nothing else. *)
Definition ocr_path : Path := (lit "in", lit "ocr_results.txt").

Definition ocr_world (content : str) : World := world_of {[ ocr_path := content ]}.

(** Two pages as a Windows editor saves them, the lines ending with a
    carriage return and a newline. *)
Definition crlf_pages : str :=
  lit "===== page_1 =====" ++ [cr; nl] ++ lit "  hello " ++ [cr; nl] ++
  lit "===== page_22 =====" ++ [cr; nl] ++ lit "a" ++ [cr; nl] ++ lit "b".

(** The text sent for translation, read back from a request. *)
Definition request_text (rq : Request) : str :=
  match rq_messages rq with
  | (_, content) :: _ => drop (length user_prompt) content
  | [] => []
  end.

(** A service that is rate limited on its first two calls and then echoes. *)
Definition remote_limited_twice (history : list Request) (rq : Request) : result str :=
  if (length history <? 2)%nat then Raise (RateLimitError [FS (lit "429")])
  else Return (lit "EN:" ++ request_text rq).

(** A service that answers every call. *)
Definition remote_echo (history : list Request) (rq : Request) : result str :=
  Return (lit "EN:" ++ request_text rq).

(** The metadata file of [page_1] in [out] cannot be opened for writing. *)
Definition env_metadata_denied : Env :=
  {| remote := remote_echo;
     io_fault := fun op p =>
       if bool_decide (op = OpOpenWrite /\ p = metadata_path (lit "out") (lit "page_1"))
       then Some (OtherException [FS (lit "Permission denied")])
       else None;
     json_dumps := plain_json; isoformat := plain_iso |}.

(** A service that is always down with a server error. *)
Definition remote_down (history : list Request) (rq : Request) : result str :=
  Raise (APIError [FS (lit "500"); FI (Z.of_nat (length history))]).

(** A service whose answers cannot be read. *)
Definition remote_broken (history : list Request) (rq : Request) : result str :=
  Raise (OtherException [FS (lit "list index out of range")]).

(** A service that refuses every call for good: the key is not valid, status
    401, an [AuthenticationError] of the client library, which is an
    [APIError]. *)
Definition remote_unauthorized (history : list Request) (rq : Request) : result str :=
  Raise (APIError [FS (lit "Error code: 401 - invalid x-api-key")]).




(** An output directory that holds a translation of [page_2] from an earlier
    run. *)
Definition stale_files : gmap Path str :=
  {[ (lit "out", lit "page_2.txt") := lit "stale" ]}.

(** An output directory that holds the error record of [page_1] from an
    earlier run, and nothing else. *)
Definition stale_error_record : gmap Path str :=
  {[ (lit "out/errors", lit "page_1.error.json") := lit "{stale error}" ]}.

(** An output directory with four translations and one metadata file. *)
Definition four_page_files : gmap Path str :=
  list_to_map
    [((lit "out", lit "page_10.txt"), lit "ten");
     ((lit "out", lit "page_1.txt"), lit "one");
     ((lit "out", lit "page_20.txt"), lit "twenty");
     ((lit "out", lit "page_2.txt"), lit "two");
     ((lit "out", lit "page_2.meta.json"), lit "{metadata}")].

(** A directory of artifacts named [item_1], [item_2], [item_10] and
    [item_20], with and without the extension of the translations. *)
Definition item_files : gmap Path str :=
  list_to_map
    [((lit "out", lit "item_10"), lit "ten");
     ((lit "out", lit "item_1"), lit "one");
     ((lit "out", lit "item_20"), lit "twenty");
     ((lit "out", lit "item_2"), lit "two");
     ((lit "out", lit "item_10.txt"), lit "ten");
     ((lit "out", lit "item_1.txt"), lit "one");
     ((lit "out", lit "item_20.txt"), lit "twenty");
     ((lit "out", lit "item_2.txt"), lit "two")].






(** * Properties *)

(** ** Running the monad *)

Lemma run_bind {A B} (m : M A) (k : A -> M B) (w : World) :
  (m ≫= k) w = match m w with
               | (Return a, w') => k a w'
               | (Raise e, w') => (Raise e, w')
               end.
Proof. reflexivity. Qed.

Lemma calls_of_app (l1 l2 : list Event) : calls_of (l1 ++ l2) = calls_of l1 ++ calls_of l2.
Proof. unfold calls_of. apply omap_app. Qed.

Lemma slept_of_app (l1 l2 : list Event) : slept_of (l1 ++ l2) = slept_of l1 ++ slept_of l2.
Proof. unfold slept_of. apply omap_app. Qed.

(** Unfolds the operations of the monad in the goal. *)
Ltac run_M :=
  cbv beta iota zeta delta
    [mbind M_bind mret M_ret bind ret raise try_except gets modify lift_result
     logger sleep path_exists now_isoformat messages_create check_fault
     set_events set_clock set_files set_logged
     events clock files logged fst snd].

(** Cases on the next file operation that the goal is stuck on. *)
Ltac case_fault op :=
  match goal with
  | |- context [match io_fault ?env op ?p with _ => _ end] =>
      let E := fresh "E" in destruct (io_fault env op p) eqn:E
  end;
  run_M.

(** ** The retrying client *)

Section Client.
Context (env : Env) (text model : str).

Let rq := translate_params text model.

(** One turn of the loop, by the outcome of the remote call. *)
Lemma translate_attempt_run (max_retries : nat) (retry_delay : Z) (attempt : nat) (w : World) :
  0 <= retry_delay ->
  let out := translate_attempt env text model max_retries retry_delay attempt w in
  files out.2 = files w /\
  match remote env (calls w) rq with
  | Return r => out.1 = Return (Some r) /\ events out.2 = events w ++ [Called rq]
  | Raise (RateLimitError m) =>
      out.1 = Return None /\
      events out.2 = events w ++ [Called rq; Slept (retry_delay * 2 ^ Z.of_nat attempt)]
  | Raise (APIError m) =>
      if (attempt <? max_retries - 1)%nat then
        out.1 = Return None /\
        events out.2 = events w ++ [Called rq; Slept (retry_delay * 2 ^ Z.of_nat attempt)]
      else out.1 = Raise (APIError m) /\ events out.2 = events w ++ [Called rq]
  | Raise (OtherException m) =>
      out.1 = Raise (OtherException m) /\ events out.2 = events w ++ [Called rq]
  end.
Proof.
  intros Hd.
  assert (Hwait : (retry_delay * 2 ^ Z.of_nat attempt <? 0) = false).
  { apply Z.ltb_ge, Z.mul_nonneg_nonneg; [done|]. apply Z.pow_nonneg. lia. }
  unfold translate_attempt. fold rq. destruct w as [evs clk fs lg].
  run_M. unfold calls. cbn [events].
  destruct (remote env (calls_of evs) rq) as [r|[m|m|m]]; cbv beta iota; rewrite ?Hwait.
  - done.
  - split; [done|]. split; [done|]. by rewrite <- app_assoc.
  - destruct (attempt <? max_retries - 1)%nat; rewrite ?Hwait.
    + split; [done|]. split; [done|]. by rewrite <- app_assoc.
    + done.
  - done.
Qed.

(** No turn of the loop touches a file. *)
Lemma translate_attempt_files (max_retries : nat) (retry_delay : Z) (attempt : nat) (w : World) :
  files (translate_attempt env text model max_retries retry_delay attempt w).2 = files w.
Proof.
  unfold translate_attempt. destruct w as [evs clk fs lg]. run_M.
  destruct (remote env _ _) as [r|[m|m|m]]; cbv beta iota; try done.
  - by destruct (_ <? 0).
  - destruct (attempt <? max_retries - 1)%nat; [by destruct (_ <? 0) | done].
Qed.

(** One turn of the loop when the call meets an exception that is no
    [APIError]: no sleep, whatever the delay. *)
Lemma translate_attempt_other (max_retries : nat) (retry_delay : Z) (attempt : nat) (w : World)
    (m : Msg) :
  remote env (calls w) rq = Raise (OtherException m) ->
  let out := translate_attempt env text model max_retries retry_delay attempt w in
  out.1 = Raise (OtherException m) /\ events out.2 = events w ++ [Called rq] /\
  files out.2 = files w.
Proof.
  intros H. unfold translate_attempt. fold rq. destruct w as [evs clk fs lg].
  run_M. unfold calls in *. cbn [events] in *. by rewrite H.
Qed.

Lemma translate_loop_cons (n : nat) (d : Z) (attempt : nat) (rest : list nat) (w : World) :
  translate_loop env text model n d (attempt :: rest) w =
  match translate_attempt env text model n d attempt w with
  | (Return (Some r), w') => (Return r, w')
  | (Return None, w') => translate_loop env text model n d rest w'
  | (Raise e, w') => (Raise e, w')
  end.
Proof.
  cbn [translate_loop]. rewrite run_bind.
  by destruct (translate_attempt env text model n d attempt w) as [[[r|]|e] w'].
Qed.


End Client.

(** C1. With the default settings (three attempts, base delay 2 s), when the
    remote call raises a rate-limit error on the first and on the second
    attempt and answers on the third, [translate_text] returns that answer;
    the service is called three times and the script sleeps 2 s before the
    second attempt and 4 s before the third. *)
Theorem C1_rate_limited_twice_then_success
    (env : Env) (text model : str) (w : World) (m1 m2 : Msg) (r : str) :
  let rq := translate_params text model in
  remote env (calls w) rq = Raise (RateLimitError m1) ->
  remote env (calls w ++ [rq]) rq = Raise (RateLimitError m2) ->
  remote env (calls w ++ [rq; rq]) rq = Return r ->
  let out := translate_text env text model 3 2 w in
  out.1 = Return r /\
  events out.2 = events w ++ [Called rq; Slept 2; Called rq; Slept 4; Called rq] /\
  slept out.2 = slept w ++ [2; 4].
Proof.
  intros rq H1 H2 H3. unfold translate_text. cbn [seq].
  rewrite translate_loop_cons.
  pose proof (translate_attempt_run env text model 3 2 0 w ltac:(lia)) as [_ Hrun].
  fold rq in Hrun. rewrite H1 in Hrun.
  destruct (translate_attempt env text model 3 2 0 w) as [o w1].
  cbn [fst snd] in Hrun. destruct Hrun as [-> Hev1].
  assert (Hc1 : calls w1 = calls w ++ [rq]) by (unfold calls; by rewrite Hev1, calls_of_app).
  rewrite translate_loop_cons.
  pose proof (translate_attempt_run env text model 3 2 1 w1 ltac:(lia)) as [_ Hrun].
  fold rq in Hrun. rewrite Hc1, H2 in Hrun.
  destruct (translate_attempt env text model 3 2 1 w1) as [o w2].
  cbn [fst snd] in Hrun. destruct Hrun as [-> Hev2].
  assert (Hc2 : calls w2 = calls w ++ [rq; rq]).
  { unfold calls in *. rewrite Hev2, calls_of_app, Hc1, <- app_assoc. done. }
  rewrite translate_loop_cons.
  pose proof (translate_attempt_run env text model 3 2 2 w2 ltac:(lia)) as [_ Hrun].
  fold rq in Hrun. rewrite Hc2, H3 in Hrun.
  destruct (translate_attempt env text model 3 2 2 w2) as [o w3].
  cbn [fst snd] in Hrun. destruct Hrun as [-> Hev3].
  cbn [fst snd].
  assert (Hev : events w3 = events w ++ [Called rq; Slept 2; Called rq; Slept 4; Called rq]).
  { rewrite Hev3, Hev2, Hev1, <- !app_assoc. done. }
  split; [done|]. split; [done|].
  unfold slept. by rewrite Hev, slept_of_app.
Qed.

Lemma C1_witness :
  let out := translate_text (env_of remote_limited_twice) (lit "salam") (lit "m") 3 2 empty_world in
  out.1 = Return (lit "EN:salam") /\
  events out.2 =
    events empty_world
    ++ [Called (translate_params (lit "salam") (lit "m")); Slept 2;
        Called (translate_params (lit "salam") (lit "m")); Slept 4;
        Called (translate_params (lit "salam") (lit "m"))] /\
  slept out.2 = slept empty_world ++ [2; 4].
Proof.
  apply (C1_rate_limited_twice_then_success (env_of remote_limited_twice)
           (lit "salam") (lit "m") empty_world [FS (lit "429")] [FS (lit "429")]);
    vm_compute; reflexivity.
Defined.



(** C5, as the code has it.  When the first attempt meets an exception that
    is not an [APIError] of the client library -- neither a rate-limit error
    nor any other API error --, [translate_text] raises that exception at
    once: one call, no sleep, for any number of attempts and any delay. *)
Theorem C5_other_error_propagates_immediately
    (env : Env) (text model : str) (max_retries : nat) (retry_delay : Z) (w : World) (m : Msg) :
  let rq := translate_params text model in
  (0 < max_retries)%nat ->
  remote env (calls w) rq = Raise (OtherException m) ->
  let out := translate_text env text model max_retries retry_delay w in
  out.1 = Raise (OtherException m) /\
  events out.2 = events w ++ [Called rq] /\
  calls out.2 = calls w ++ [rq] /\
  slept out.2 = slept w.
Proof.
  intros rq Hpos H. destruct max_retries as [|k]; [lia|].
  unfold translate_text. cbn [seq]. rewrite translate_loop_cons.
  pose proof (translate_attempt_other env text model (S k) retry_delay 0 w m H) as Hrun.
  destruct (translate_attempt env text model (S k) retry_delay 0 w) as [o w1].
  cbn [fst snd] in *. destruct Hrun as (-> & Hev & _). split; [done|]. split; [done|].
  unfold calls, slept. cbn [fst snd]. rewrite Hev, calls_of_app, slept_of_app.
  split; [done|]. cbn. by rewrite app_nil_r.
Qed.

Lemma C5_witness :
  let rq := translate_params (lit "salam") (lit "m") in
  let out := translate_text (env_of remote_broken) (lit "salam") (lit "m") 3 2 empty_world in
  out.1 = Raise (OtherException [FS (lit "list index out of range")]) /\
  events out.2 = events empty_world ++ [Called rq] /\
  calls out.2 = calls empty_world ++ [rq] /\
  slept out.2 = slept empty_world.
Proof.
  apply (C5_other_error_propagates_immediately (env_of remote_broken) (lit "salam") (lit "m")
           3 2 empty_world [FS (lit "list index out of range")]).
  - lia.
  - reflexivity.
Defined.

(** C5 as the specification states it fails: a final refusal of the service
    (here status 401) is neither a rate-limit error nor a transient error,
    but it is an [APIError] for the script, which sleeps 2 s and 4 s and calls
    the service three times before it raises the error. *)
Lemma C5_counterexample :
  let rq := translate_params (lit "salam") (lit "m") in
  let out := translate_text (env_of remote_unauthorized) (lit "salam") (lit "m") 3 2 empty_world in
  remote (env_of remote_unauthorized) (calls empty_world) rq
    = Raise (APIError [FS (lit "Error code: 401 - invalid x-api-key")]) /\
  out.1 = Raise (APIError [FS (lit "Error code: 401 - invalid x-api-key")]) /\
  events out.2 = [Called rq; Slept 2; Called rq; Slept 4; Called rq] /\
  calls out.2 = [rq; rq; rq] /\
  slept out.2 = [2; 4].
Proof. vm_compute. repeat split; reflexivity. Qed.

(** ** Text *)

Lemma strip_prefix_Some (p s r : str) : strip_prefix p s = Some r <-> s = p ++ r.
Proof.
  revert s. induction p as [|a p IH]; intros s; cbn.
  - split; congruence.
  - destruct s as [|b s]; [split; discriminate|].
    destruct (decide (a = b)) as [->|Hne].
    + rewrite IH. split; congruence.
    + split; [discriminate|]. intros [= -> _]. done.
Qed.

Lemma strip_prefix_app (p r : str) : strip_prefix p (p ++ r) = Some r.
Proof. by apply strip_prefix_Some. Qed.

Lemma startswith_app (p r : str) : startswith (p ++ r) p = true.
Proof. unfold startswith. by rewrite strip_prefix_app. Qed.

Lemma startswith_true (s p : str) : startswith s p = true -> exists r, s = p ++ r.
Proof.
  unfold startswith. destruct (strip_prefix p s) as [r|] eqn:E; [|discriminate].
  intros _. exists r. by apply strip_prefix_Some.
Qed.

Lemma startswith_false (s p : str) : startswith s p = false -> forall r, s <> p ++ r.
Proof.
  unfold startswith. intros H r ->. by rewrite strip_prefix_app in H.
Qed.

Lemma startswith_cons (a b : ascii) (s p : str) :
  startswith (b :: s) (a :: p) = bool_decide (a = b) && startswith s p.
Proof.
  unfold startswith. cbn. destruct (decide (a = b)) as [->|Hne].
  - by rewrite bool_decide_eq_true_2.
  - by rewrite bool_decide_eq_false_2.
Qed.

Lemma forallb_Forall_true {A} (f : A -> bool) (l : list A) :
  forallb f l = true <-> Forall (fun x => f x = true) l.
Proof.
  induction l as [|x l IH]; cbn.
  - split; [constructor | done].
  - rewrite andb_true_iff, Forall_cons, IH. done.
Qed.

Lemma isdigit_Forall (ds : str) :
  isdigit ds = true <-> ds <> [] /\ Forall (fun c => is_digit c = true) ds.
Proof.
  destruct ds as [|c ds].
  - cbn. split; [discriminate|]. by intros [? _].
  - unfold isdigit. rewrite forallb_Forall_true. split; [by intros H | by intros [_ H]].
Qed.

(** ** The page pattern *)

(** [\d*] on a run of digits that ends before a character which is not a
    digit: the whole run is taken. *)
Lemma re_digits_star_run {A} (k : str -> option A) (ds s : str) (a : A) :
  Forall (fun c => is_digit c = true) ds ->
  match s with c :: _ => is_digit c = false | [] => True end ->
  k s = Some a ->
  re_digits_star k (ds ++ s) = Some (ds, a).
Proof.
  intros Hds Hs Hk. induction Hds as [|c ds Hc _ IH].
  - destruct s as [|c s]; cbn; [|rewrite Hs]; by rewrite Hk.
  - cbn. by rewrite Hc, IH.
Qed.

(** What a match of [\d*] has read. *)
Lemma re_digits_star_Some {A} (k : str -> option A) (s ds : str) (a : A) :
  re_digits_star k s = Some (ds, a) ->
  exists s', s = ds ++ s' /\ k s' = Some a /\ Forall (fun c => is_digit c = true) ds.
Proof.
  revert ds. induction s as [|c s IH]; intros ds; cbn.
  - destruct (k []) as [a'|] eqn:Hk; cbn; [|discriminate].
    intros [= <- <-]. by exists [].
  - destruct (is_digit c) eqn:Hc.
    + destruct (re_digits_star k s) as [[ds' a']|] eqn:Hrec.
      * intros [= <- <-]. destruct (IH ds' eq_refl) as (s' & -> & Hk & Hds).
        exists s'. split; [done|]. split; [done|]. by constructor.
      * destruct (k (c :: s)) as [a'|] eqn:Hk; cbn; [|discriminate].
        intros [= <- <-]. by exists (c :: s).
    + destruct (k (c :: s)) as [a'|] eqn:Hk; cbn; [|discriminate].
      intros [= <- <-]. by exists (c :: s).
Qed.

Lemma re_digits_plus_Some {A} (k : str -> option A) (s ds : str) (a : A) :
  re_digits_plus k s = Some (ds, a) ->
  exists s', s = ds ++ s' /\ k s' = Some a /\ isdigit ds = true.
Proof.
  destruct s as [|c s]; cbn; [discriminate|].
  destruct (is_digit c) eqn:Hc; [|discriminate].
  destruct (re_digits_star k s) as [[ds' a']|] eqn:Hrec; [|discriminate].
  intros [= <- <-]. destruct (re_digits_star_Some _ _ _ _ Hrec) as (s' & -> & Hk & Hds).
  exists s'. split; [done|]. split; [done|].
  apply isdigit_Forall. split; [done|]. by constructor.
Qed.

Lemma is_page_id_inv (id : str) :
  is_page_id id = true <-> exists ds, id = lit "page_" ++ ds /\ isdigit ds = true.
Proof.
  unfold is_page_id. split.
  - destruct (strip_prefix (lit "page_") id) as [ds|] eqn:E; [|discriminate].
    intros H. exists ds. split; [by apply strip_prefix_Some | done].
  - intros (ds & -> & H). by rewrite strip_prefix_app.
Qed.

(** The pattern at the start of a marker line with a page identifier. *)
Lemma page_pattern_match_marker (id rest : str) :
  is_page_id id = true ->
  page_pattern_match (marker_line id ++ [nl] ++ rest) =
  Some ((id, (re_lazy_body rest).1), (re_lazy_body rest).2).
Proof.
  intros (ds & -> & Hds)%is_page_id_inv.
  apply isdigit_Forall in Hds as [Hne Hds].
  unfold page_pattern_match, marker_line.
  rewrite <- !app_assoc, strip_prefix_app. cbn [mbind option_bind].
  rewrite strip_prefix_app. cbn [mbind option_bind].
  destruct ds as [|c ds]; [done|]. apply Forall_cons in Hds as [Hc Hds].
  cbn [app re_digits_plus]. rewrite Hc.
  rewrite (re_digits_star_run _ ds (lit " =====" ++ [nl] ++ rest) rest).
  - cbn [mbind option_bind]. by destruct (re_lazy_body rest).
  - exact Hds.
  - reflexivity.
  - rewrite app_assoc. apply strip_prefix_app.
Qed.

(** What a match of the pattern has read. *)
Lemma page_pattern_match_Some (s id body rest : str) :
  page_pattern_match s = Some ((id, body), rest) ->
  is_page_id id = true /\
  exists s3, s = marker_line id ++ [nl] ++ s3 /\ re_lazy_body s3 = (body, rest).
Proof.
  unfold page_pattern_match.
  destruct (strip_prefix (lit "===== ") s) as [s1|] eqn:E1; [|discriminate].
  cbn [mbind option_bind].
  destruct (strip_prefix (lit "page_") s1) as [s2|] eqn:E2; [|discriminate].
  cbn [mbind option_bind].
  destruct (re_digits_plus _ s2) as [[ds s3]|] eqn:E3; [|discriminate].
  cbn [mbind option_bind].
  destruct (re_lazy_body s3) as [b r] eqn:E4. intros [= <- <- <-].
  apply strip_prefix_Some in E1 as ->. apply strip_prefix_Some in E2 as ->.
  apply re_digits_plus_Some in E3 as (s' & -> & Hk & Hds).
  apply strip_prefix_Some in Hk as ->. split.
  - apply is_page_id_inv. by exists ds.
  - exists s3. split; [|done]. unfold marker_line. by rewrite <- !app_assoc.
Qed.

(** ** Lines and the lazy body *)

Lemma lines_not_nil (s : str) : lines s <> [].
Proof.
  destruct s as [|c s]; cbn; [done|].
  destruct (decide (c = nl)); [done|]. by destruct (lines s).
Qed.

Lemma lines_app_nl (b x : str) : lines (b ++ nl :: x) = lines b ++ lines x.
Proof.
  induction b as [|c b IH]; cbn [app lines].
  - done.
  - destruct (decide (c = nl)); [rewrite IH; reflexivity|].
    rewrite IH. pose proof (lines_not_nil b). destruct (lines b); [done|reflexivity].
Qed.

(** A prefix without newline is looked for on the first line. *)
Lemma startswith_first_line (p s : str) :
  nl ∉ p -> startswith s p = startswith (hd [] (lines s)) p.
Proof.
  revert s. induction p as [|a p IH]; intros s Hp; [done|].
  apply not_elem_of_cons in Hp as [Ha Hp].
  destruct s as [|c s]; [done|]. cbn [lines].
  destruct (decide (c = nl)) as [->|Hc].
  - cbn [hd]. rewrite startswith_cons, bool_decide_eq_false_2; done.
  - pose proof (lines_not_nil s). destruct (lines s) as [|l ls] eqn:E; [done|].
    cbn [hd]. rewrite !startswith_cons, (IH s Hp), E. done.
Qed.

Lemma nl_not_in_marker : nl ∉ lit "=====".
Proof. intros H. repeat (apply elem_of_cons in H as [H|H]; [discriminate|]). by apply elem_of_nil in H. Qed.

Lemma no_marker_line_inner (s : str) : no_marker_line s -> no_inner_marker s.
Proof. unfold no_marker_line, no_inner_marker. apply Forall_tail. Qed.

Lemma no_inner_marker_cons (c : ascii) (s : str) :
  no_inner_marker (c :: s) ->
  no_inner_marker s /\ (c = nl -> startswith s (lit "=====") = false).
Proof.
  unfold no_inner_marker. cbn [lines].
  pose proof (lines_not_nil s). destruct (decide (c = nl)) as [->|Hc].
  - cbn [tail]. intros Hall. split; [by apply Forall_tail|].
    intros _. rewrite startswith_first_line by apply nl_not_in_marker.
    destruct (lines s); [done|]. by apply Forall_cons in Hall as [? _].
  - destruct (lines s) as [|l ls]; [done|]. cbn [tail]. intros Hall. split; [done|].
    done.
Qed.

Lemma re_lookahead_cons (c : ascii) (s : str) :
  re_lookahead (c :: s) = bool_decide (c = nl) && startswith s (lit "=====").
Proof.
  unfold re_lookahead. rewrite startswith_cons, orb_false_r.
  f_equal. apply bool_decide_ext. split; congruence.
Qed.

(** The lazy body stops at the first line that begins with [=====]. *)
Lemma re_lazy_body_until_marker (b r : str) :
  no_inner_marker b ->
  re_lazy_body (b ++ nl :: lit "=====" ++ r) = (b, nl :: lit "=====" ++ r).
Proof.
  induction b as [|c b IH]; intros Hb.
  - cbn [app]. destruct (lit "=====" ++ r) eqn:E; cbn [re_lazy_body];
      rewrite re_lookahead_cons, <- E, startswith_app, bool_decide_eq_true_2; done.
  - apply no_inner_marker_cons in Hb as [Hb Hc]. cbn [app re_lazy_body].
    rewrite re_lookahead_cons, IH by done.
    destruct (decide (c = nl)) as [->|Hne].
    + rewrite startswith_first_line, lines_app_nl by apply nl_not_in_marker.
      rewrite startswith_first_line in Hc by apply nl_not_in_marker.
      pose proof (lines_not_nil b). destruct (lines b) as [|l ls]; [done|].
      cbn [app hd] in *. by rewrite Hc, andb_false_r.
    + by rewrite bool_decide_eq_false_2.
Qed.

(** Without such a line, it runs to the end of the text. *)
Lemma re_lazy_body_to_end (b : str) :
  no_inner_marker b -> re_lazy_body b = (b, []).
Proof.
  induction b as [|c b IH]; intros Hb; [done|].
  apply no_inner_marker_cons in Hb as [Hb Hc]. cbn [re_lazy_body].
  rewrite re_lookahead_cons, IH by done.
  destruct (decide (c = nl)) as [->|Hne].
  - by rewrite Hc, andb_false_r.
  - by rewrite bool_decide_eq_false_2.
Qed.

(** ** [findall] on a text made of blocks *)

Lemma marker_line_starts (id : str) : marker_line id = lit "=====" ++ lit " " ++ id ++ lit " =====".
Proof. reflexivity. Qed.

Lemma blocks_text_starts (b : str * str) (bs : list (str * str)) :
  exists r, blocks_text (b :: bs) = lit "=====" ++ r.
Proof.
  destruct bs as [|b' bs]; cbn [blocks_text]; unfold block_text;
    rewrite marker_line_starts, <- !app_assoc; eauto.
Qed.

Lemma page_pattern_match_nl (s : str) : page_pattern_match (nl :: s) = None.
Proof. reflexivity. Qed.

Lemma findall_from_blocks_inner (bs : list (str * str)) (fuel : nat) :
  Forall (fun b => is_page_id b.1 = true /\ no_inner_marker b.2) bs ->
  (length (blocks_text bs) < fuel)%nat ->
  findall_from fuel (blocks_text bs) = bs.
Proof.
  intros Hbs. revert fuel. induction Hbs as [|[id body] bs [Hid Hbody] Hbs IH]; intros fuel Hfuel.
  - destruct fuel; [lia|]. reflexivity.
  - cbn [fst snd] in *.
    destruct fuel as [|fuel]; [lia|]. destruct bs as [|b' bs].
    + cbn [blocks_text findall_from]. unfold block_text. cbn [fst snd].
      rewrite page_pattern_match_marker, re_lazy_body_to_end by done.
      cbn [fst snd]. f_equal. destruct fuel; reflexivity.
    + destruct (blocks_text_starts b' bs) as [r Hr].
      change (blocks_text ((id, body) :: b' :: bs))
        with (block_text (id, body) ++ [nl] ++ blocks_text (b' :: bs)) in *.
      unfold block_text in *. cbn [fst snd] in *.
      rewrite <- !app_assoc in *. cbn [findall_from].
      rewrite page_pattern_match_marker by done.
      assert (Hlazy : re_lazy_body (body ++ [nl] ++ blocks_text (b' :: bs))
                      = (body, [nl] ++ blocks_text (b' :: bs))).
      { rewrite Hr. by apply re_lazy_body_until_marker. }
      rewrite Hlazy. cbn [fst snd]. f_equal.
      rewrite !length_app in Hfuel. cbn [length] in Hfuel.
      destruct fuel as [|fuel]; [lia|].
      cbn [app findall_from]. rewrite page_pattern_match_nl.
      apply IH. lia.
Qed.

Lemma findall_from_blocks (bs : list (str * str)) (fuel : nat) :
  Forall (fun b => is_page_id b.1 = true /\ no_marker_line b.2) bs ->
  (length (blocks_text bs) < fuel)%nat ->
  findall_from fuel (blocks_text bs) = bs.
Proof.
  intros Hbs. apply findall_from_blocks_inner.
  eapply Forall_impl; [exact Hbs|]. intros b [Hid Hb]. split; [done|].
  by apply no_marker_line_inner.
Qed.

(** Text without a page marker has no match. *)
Lemma findall_from_no_marker (fuel : nat) (s : str) :
  (forall pre id post,
     is_page_id id = true -> s <> pre ++ marker_line id ++ [nl] ++ post) ->
  findall_from fuel s = [].
Proof.
  revert s. induction fuel as [|fuel IH]; intros s Hs; [done|].
  cbn [findall_from].
  destruct (page_pattern_match s) as [[[id body] rest]|] eqn:E.
  - apply page_pattern_match_Some in E as (Hid & s3 & -> & _).
    by destruct (Hs [] id s3).
  - destruct s as [|c s]; [done|]. apply IH. intros pre id post Hid ->.
    by apply (Hs (c :: pre) id post).
Qed.

(** [parse_ocr_file] on a file that can be read. *)
Lemma parse_ocr_file_ok (env : Env) (p : Path) (text : str) (w : World) :
  file_text env (files w) p = Some text ->
  (parse_ocr_file env p w).1 = Return (parse_content text).
Proof.
  unfold file_text, parse_ocr_file, read_text, check_fault.
  destruct w as [evs clk fs lg]. cbn [files]. run_M. unfold Msg, Path, str in *.
  destruct (io_fault env OpOpenRead p); [done|]. destruct (fs !! p); [|done].
  destruct (io_fault env OpDecode p); [done|]. intros [= <-]. by run_M.
Qed.

Lemma file_text_no_fault (env : Env) (fs : gmap Path str) (p : Path) (content : str) :
  no_io_fault env -> fs !! p = Some content ->
  file_text env fs p = Some (universal_newlines content).
Proof. intros Hio Hp. unfold file_text. by rewrite !Hio, Hp. Qed.

(** C6, as the code has it.  The text of the file, read with universal
    newlines.  When it is made of [N] blocks, each on lines of its own -- a
    marker line [===== page_<digits> =====], then a body of which no line
    begins with [=====] -- the file is parsed into these [N] blocks, in
    order, bodies stripped.  The line that comes right after a marker line
    never opens a block, even if it is a marker line itself: it is the first
    line of the body, so that the same holds of blocks whose bodies begin
    with a line that begins with [=====].  A text that nowhere holds a marker
    [===== page_<digits> =====] followed by a newline, the digits being of
    any script, gives no item. *)
Theorem C6_parse_page_blocks (env : Env) (p : Path) (text : str) (w : World) :
  file_text env (files w) p = Some text ->
  let out := parse_ocr_file env p w in
  (forall blocks : list (str * str),
     Forall (fun b => is_page_id b.1 = true /\ no_marker_line b.2) blocks ->
     text = blocks_text blocks ->
     exists items,
       out.1 = Return items /\
       items = map (fun b => (b.1, strip b.2)) blocks /\
       length items = length blocks) /\
  (forall blocks : list (str * str),
     Forall (fun b => is_page_id b.1 = true /\ no_inner_marker b.2) blocks ->
     text = blocks_text blocks ->
     out.1 = Return (map (fun b => (b.1, strip b.2)) blocks)) /\
  (~ has_page_marker text -> out.1 = Return []).
Proof.
  intros Hfile. cbv zeta. rewrite (parse_ocr_file_ok env p text w Hfile).
  split; [|split].
  - intros blocks Hb ->. eexists. split; [reflexivity|].
    unfold parse_content, findall. rewrite findall_from_blocks by (done || lia).
    split; [done|]. by rewrite length_map.
  - intros blocks Hb ->. f_equal. unfold parse_content, findall.
    by rewrite findall_from_blocks_inner by (done || lia).
  - intros Hno. f_equal. unfold parse_content, findall.
    rewrite findall_from_no_marker; [done|].
    intros pre id post (ds & -> & Hds)%is_page_id_inv ->. apply Hno.
    apply isdigit_Forall in Hds as [Hne Hds].
    exists pre, ds, post. split; [done|]. split; [|done].
    apply forallb_Forall_true. eapply Forall_impl; [exact Hds|].
    intros c Hc. unfold may_be_digit. by rewrite Hc.
Qed.

Lemma C6_witness :
  let env := env_of remote_echo in
  file_text env (files (ocr_world crlf_pages)) ocr_path
  = Some (blocks_text [(lit "page_1", lit "  hello ");
                        (lit "page_22", lit "a" ++ [nl] ++ lit "b")]) /\
  (parse_ocr_file env ocr_path (ocr_world crlf_pages)).1
  = Return [(lit "page_1", lit "hello"); (lit "page_22", lit "a" ++ [nl] ++ lit "b")] /\
  (parse_ocr_file env ocr_path (ocr_world (lit "no page here"))).1 = Return [].
Proof.
  intros env.
  assert (Hfile : file_text env (files (ocr_world crlf_pages)) ocr_path
                  = Some (blocks_text [(lit "page_1", lit "  hello ");
                                        (lit "page_22", lit "a" ++ [nl] ++ lit "b")]))
    by (vm_compute; reflexivity).
  split; [exact Hfile|]. split.
  - destruct (proj1 (C6_parse_page_blocks env ocr_path _ (ocr_world crlf_pages) Hfile)
                [(lit "page_1", lit "  hello "); (lit "page_22", lit "a" ++ [nl] ++ lit "b")])
      as (items & Hr & -> & _); [repeat constructor | reflexivity |].
    exact Hr.
  - apply (proj2 (proj2 (C6_parse_page_blocks env ocr_path (lit "no page here")
                           (ocr_world (lit "no page here")) eq_refl))).
    intros (pre & ds & post & _ & _ & H).
    assert (Hin : "="%char ∈ lit "no page here").
    { rewrite H. apply elem_of_app. right. apply elem_of_app. left. by left. }
    revert Hin. apply (proj1 (bool_decide_eq_false _)). vm_compute. reflexivity.
Defined.

(** C6 as the specification states it fails.  A block whose marker line is
    [===== item_1 =====] is well formed, and is not returned; and of two
    marker lines in a row, the first opens a block with an empty body for
    the specification, whereas the parser returns one item whose body begins
    with the second marker line. *)
Lemma C6_counterexample :
  let env := env_of remote_echo in
  let block := blocks_text [(lit "item_1", lit "hello")] in
  let markers := lit "===== page_1 =====" ++ [nl] ++ lit "===== page_2 =====" ++ [nl]
                 ++ lit "hello" in
  block = lit "===== item_1 =====" ++ [nl] ++ lit "hello" /\
  no_marker_line (lit "hello") /\
  (parse_ocr_file env ocr_path (ocr_world block)).1 = Return [] /\
  (parse_ocr_file env ocr_path (ocr_world markers)).1
  = Return [(lit "page_1", lit "===== page_2 =====" ++ [nl] ++ lit "hello")].
Proof.
  cbv zeta. split; [reflexivity|]. split; [repeat constructor|].
  split; vm_compute; reflexivity.
Qed.

(** ** [parse_ocr_file] *)

Lemma read_text_unreadable (env : Env) (p : Path) (w : World) (e : exn) :
  unreadable env p w e -> read_text env p w = (Raise e, w).
Proof.
  destruct w as [evs clk fs lg]. unfold unreadable. cbn [files].
  unfold read_text. run_M.
  intros [H|[(H1 & H2 & ->)|(H1 & [c H2] & H3)]].
  - by rewrite H.
  - by rewrite H1, H2.
  - by rewrite H1, H2, H3.
Qed.

(** C10. When the input file cannot be opened, is missing, or cannot be
    decoded, [parse_ocr_file] does not raise: it returns the empty list after
    logging one error record, and touches nothing else. *)
Theorem C10_unreadable_file_gives_no_items (env : Env) (p : Path) (w : World) (e : exn) :
  unreadable env p w e ->
  let out := parse_ocr_file env p w in
  out.1 = Return [] /\
  logged out.2 =
    logged w ++ [(ERROR, [FS (lit "Failed to parse OCR file "); FS (path_str p); FS (lit ": ")]
                         ++ exn_str e)] /\
  files out.2 = files w /\ events out.2 = events w.
Proof.
  intros H. unfold parse_ocr_file, try_except.
  rewrite run_bind, (read_text_unreadable env p w e H).
  destruct w as [evs clk fs lg]. run_M. done.
Qed.

Lemma C10_witness :
  let out := parse_ocr_file (env_of remote_down) (lit "in", lit "ocr_results.txt") empty_world in
  out.1 = Return [] /\
  logged out.2 =
    logged empty_world
    ++ [(ERROR, [FS (lit "Failed to parse OCR file ");
                 FS (path_str (lit "in", lit "ocr_results.txt")); FS (lit ": ")]
                ++ exn_str (OtherException [FS (lit "No such file or directory: ");
                                            FS (path_str (lit "in", lit "ocr_results.txt"))]))] /\
  files out.2 = files empty_world /\ events out.2 = events empty_world.
Proof.
  apply (C10_unreadable_file_gives_no_items (env_of remote_down)
           (lit "in", lit "ocr_results.txt") empty_world).
  right. left. split; [reflexivity|]. split; [reflexivity|]. reflexivity.
Defined.

(** ** Natural sort *)

Lemma split_text_no_digit (stem acc rest : str) :
  Forall (fun c => is_digit c = false) stem ->
  split_text acc (stem ++ rest) = split_text (rev stem ++ acc) rest.
Proof.
  intros H. revert acc. induction H as [|c stem Hc _ IH]; intros acc; [done|].
  cbn [app split_text]. rewrite Hc, IH. cbn [rev]. by rewrite <- app_assoc.
Qed.

Lemma split_digits_run (ds acc rest : str) :
  Forall (fun c => is_digit c = true) ds ->
  split_digits acc (ds ++ rest) = split_digits (rev ds ++ acc) rest.
Proof.
  intros H. revert acc. induction H as [|c ds Hc _ IH]; intros acc; [done|].
  cbn [app split_digits]. rewrite Hc, IH. cbn [rev]. by rewrite <- app_assoc.
Qed.

(** What [re.split] leaves after a digit run, from the text that follows. *)
Definition split_after (ext : str) : list str :=
  match ext with
  | [] => [[]]
  | c :: e => split_text [c] e
  end.

Lemma re_split_stem_digits (stem ds ext : str) :
  Forall (fun c => is_digit c = false) stem ->
  isdigit ds = true ->
  not_digit_first ext ->
  re_split (stem ++ ds ++ ext) = stem :: ds :: split_after ext.
Proof.
  intros Hstem [Hne Hds]%isdigit_Forall Hext. unfold re_split.
  rewrite split_text_no_digit by done. rewrite app_nil_r.
  destruct ds as [|d ds]; [done|]. apply Forall_cons in Hds as [Hd Hds].
  cbn [app split_text]. rewrite Hd, rev_involutive. f_equal.
  rewrite split_digits_run by done.
  replace (rev ds ++ [d]) with (rev (d :: ds)) by reflexivity.
  destruct ext as [|c e]; cbn [split_digits split_after].
  - by rewrite rev_involutive.
  - cbn in Hext. by rewrite Hext, rev_involutive.
Qed.

Lemma isdigit_no_digit (stem : str) :
  Forall (fun c => is_digit c = false) stem -> isdigit stem = false.
Proof.
  intros [|c s Hc _]; [done|]. unfold isdigit. cbn [forallb]. by rewrite Hc.
Qed.

Lemma natural_sort_key_stem_digits (stem ds ext : str) :
  Forall (fun c => is_digit c = false) stem ->
  isdigit ds = true ->
  not_digit_first ext ->
  natural_sort_key (stem ++ ds ++ ext) =
  KStr (lower stem) :: KInt (int_of_digits ds)
  :: map (fun text => if isdigit text then KInt (int_of_digits text) else KStr (lower text))
         (split_after ext).
Proof.
  intros Hstem Hds Hext. unfold natural_sort_key.
  rewrite re_split_stem_digits by done. cbn [map].
  by rewrite isdigit_no_digit, Hds.
Qed.

(** A digit run of smaller value gives a smaller key. *)
Lemma key_lt_digits (stem d1 d2 ext : str) :
  Forall (fun c => is_digit c = false) stem ->
  isdigit d1 = true -> isdigit d2 = true -> not_digit_first ext ->
  int_of_digits d1 < int_of_digits d2 ->
  key_lt (natural_sort_key (stem ++ d1 ++ ext)) (natural_sort_key (stem ++ d2 ++ ext))
    = Some true /\
  key_lt (natural_sort_key (stem ++ d2 ++ ext)) (natural_sort_key (stem ++ d1 ++ ext))
    = Some false.
Proof.
  intros Hstem Hd1 Hd2 Hext Hlt.
  rewrite !natural_sort_key_stem_digits by done.
  cbn [key_lt elem_eqb elem_lt]. rewrite bool_decide_eq_true_2 by done.
  replace (int_of_digits d1 =? int_of_digits d2) with false by (symmetry; apply Z.eqb_neq; lia).
  replace (int_of_digits d2 =? int_of_digits d1) with false by (symmetry; apply Z.eqb_neq; lia).
  split; f_equal; [apply Z.ltb_lt | apply Z.ltb_ge]; lia.
Qed.

(** The four page files of the example, however they are listed. *)
Lemma sort_four_page_files (l : list str) :
  l ≡ₚ map lit ["page_1.txt"; "page_2.txt"; "page_10.txt"; "page_20.txt"] ->
  sort_by natural_sort_key l
  = Some (map lit ["page_1.txt"; "page_2.txt"; "page_10.txt"; "page_20.txt"]).
Proof.
  assert (Hall : forallb
    (fun l => bool_decide
       (sort_by natural_sort_key l
        = Some (map lit ["page_1.txt"; "page_2.txt"; "page_10.txt"; "page_20.txt"])))
    (permutations (map lit ["page_1.txt"; "page_2.txt"; "page_10.txt"; "page_20.txt"])) = true)
    by (vm_compute; reflexivity).
  rewrite forallb_Forall_true, Forall_forall in Hall.
  intros Hl. symmetry in Hl. apply permutations_Permutation in Hl.
  specialize (Hall l Hl). by apply bool_decide_eq_true in Hall.
Qed.

(** ** [process_page] *)

Section Processor.
Context (env : Env).

Lemma translate_loop_files (text model : str) (n : nat) (d : Z) (attempts : list nat) (w : World) :
  files (translate_loop env text model n d attempts w).2 = files w.
Proof.
  revert w. induction attempts as [|a rest IH]; intros w; [done|].
  rewrite translate_loop_cons.
  pose proof (translate_attempt_files env text model n d a w) as Hf.
  destruct (translate_attempt env text model n d a w) as [[[r|]|e] w1]; cbn [fst snd] in *;
    [done| |done].
  by rewrite IH.
Qed.

Lemma translate_text_files (text model : str) (n : nat) (d : Z) (w : World) :
  files (translate_text env text model n d w).2 = files w.
Proof. apply translate_loop_files. Qed.

(** The first branch of [process_page]. *)
Lemma process_page_skip (page_id text output_directory model : str) (w : World) :
  is_Some (files w !! in_dir output_directory (page_id ++ lit ".txt")) ->
  process_page env (page_id, text, output_directory, model, false) w =
  (Return (page_id, Skipped),
   set_logged (fun l => l ++ [(INFO, [FS (lit "Skipping "); FS page_id;
                                      FS (lit " - translation already exists")])]) w).
Proof.
  intros H. unfold process_page. run_M.
  rewrite bool_decide_eq_true_2 by done. reflexivity.
Qed.

Lemma subdir_neq (d name : str) : subdir d (lit "errors") <> d.
Proof.
  unfold subdir. intros H. apply (f_equal length) in H.
  rewrite !length_app in H. unfold lit in H. cbn in H. lia.
Qed.

Lemma with_suffix_last (name : str) : last (with_suffix name (lit ".meta.json")) = Some "n"%char.
Proof.
  unfold with_suffix. change (lit ".meta.json") with (lit ".meta.jso" ++ ["n"%char]).
  by rewrite app_assoc, last_snoc.
Qed.

Lemma error_path_neq_output (d page_id page_id' : str) :
  error_path d page_id <> output_path d page_id'.
Proof. unfold error_path, output_path, in_dir. intros [= H _]. by apply subdir_neq in H. Qed.

Lemma error_path_neq_metadata (d page_id page_id' : str) :
  error_path d page_id <> metadata_path d page_id'.
Proof. unfold error_path, metadata_path, in_dir. intros [= H _]. by apply subdir_neq in H. Qed.

Lemma metadata_path_neq_output (d page_id page_id' : str) :
  metadata_path d page_id <> output_path d page_id'.
Proof.
  unfold metadata_path, output_path, in_dir. intros [= H].
  apply (f_equal last) in H. rewrite with_suffix_last in H.
  change (lit ".txt") with (lit ".tx" ++ ["t"%char]) in H.
  rewrite app_assoc, last_snoc in H. discriminate.
Qed.

(** The [except] block, from any world. *)
Lemma process_page_except_run (page_id output_directory : str) (e : exn) (w : World) :
  let out := process_page_except env page_id output_directory e w in
  let err := error_path output_directory page_id in
  (forall p, p <> err -> files out.2 !! p = files w !! p) /\
  (is_Some (files out.2 !! err) <->
     is_Some (files w !! err) \/ error_record_opens env output_directory page_id) /\
  (forall r, out.1 = Return r ->
     r = (page_id, Failed) /\ error_writes_ok env output_directory page_id) /\
  (error_writes_ok env output_directory page_id ->
     out.1 = Return (page_id, Failed) /\ exists c, files out.2 = <[err := c]> (files w)).
Proof.
  unfold process_page_except, error_writes_ok, error_record_opens, error_path, mkdir,
    open_write, file_write, in_dir.
  destruct w as [evs clk fs lg]. run_M. unfold Msg, Path, str in *.
  case_fault OpMkdir; [naive_solver|].
  case_fault OpOpenWrite; [naive_solver|].
  case_fault OpWrite.
  - split; [intros p Hp; by rewrite lookup_insert_ne|].
    rewrite lookup_insert_eq. naive_solver.
  - split; [intros p Hp; by rewrite !lookup_insert_ne|].
    rewrite !lookup_insert_eq. split; [naive_solver|]. split; [naive_solver|].
    intros _. split; [done|]. eexists. by rewrite insert_insert_eq.
Qed.

(** The [try] block, from any world. *)
Lemma process_page_try_run (page_id text output_directory model : str) (w : World) :
  let out := process_page_try env page_id text output_directory model w in
  let opath := output_path output_directory page_id in
  let mpath := metadata_path output_directory page_id in
  (forall p, p <> opath -> p <> mpath -> files out.2 !! p = files w !! p) /\
  match transform_outcome env page_id text model w with
  | Raise e => out.1 = Raise e /\ files out.2 = files w
  | Return t =>
      (output_writes_ok env output_directory page_id ->
       out.1 = Return (page_id, Completed) /\
       exists c, files out.2 = <[mpath := c]> (<[opath := t]> (files w))) /\
      (~ output_writes_ok env output_directory page_id ->
       (exists e, out.1 = Raise e) /\
       (is_Some (files out.2 !! opath) <->
          is_Some (files w !! opath) \/ io_fault env OpOpenWrite opath = None))
  end.
Proof.
  pose proof (metadata_path_neq_output output_directory page_id page_id) as N.
  unfold process_page_try, transform_outcome, output_writes_ok, output_path, metadata_path,
    open_write, file_write, in_dir in *.
  destruct w as [evs clk fs lg]. run_M. unfold Msg, Path, str in *.
  match goal with |- context [translate_text ?e ?t ?m ?n ?d ?w] =>
     pose proof (translate_text_files t m n d w) as Hf;
     destruct (translate_text e t m n d w) as [[tr|ex] [evs2 clk2 fs2 lg2]] end;
    cbn [files snd fst] in *; subst fs2; [|by repeat split].
  case_fault OpOpenWrite; [naive_solver eauto|].
  case_fault OpWrite.
  { split; [intros p Hp _; by rewrite lookup_insert_ne|].
    rewrite lookup_insert_eq. naive_solver eauto. }
  case_fault OpOpenWrite.
  { split; [intros p Hp _; by rewrite !lookup_insert_ne|].
    rewrite !lookup_insert_eq. naive_solver eauto. }
  case_fault OpWrite.
  { split; [intros p Hp Hp'; by rewrite !lookup_insert_ne|].
    rewrite !lookup_insert_eq, lookup_insert_ne, !lookup_insert_eq by done.
    naive_solver eauto. }
  split; [intros p Hp Hp'; by rewrite !lookup_insert_ne|].
  split; [|naive_solver]. intros _. split; [done|].
  rewrite !lookup_insert_eq. cbn [default app]. rewrite !insert_insert_eq.
  by eexists.
Qed.

(** [process_page] when the page is not skipped. *)
Lemma process_page_not_skipped (page_id text output_directory model : str)
    (force_retranslate : bool) (w : World) :
  files w !! output_path output_directory page_id = None \/ force_retranslate = true ->
  process_page env (page_id, text, output_directory, model, force_retranslate) w =
  match process_page_try env page_id text output_directory model w with
  | (Return r, w') => (Return r, w')
  | (Raise e, w') => process_page_except env page_id output_directory e w'
  end.
Proof.
  intros H. unfold process_page, output_path in *.
  rewrite run_bind. unfold path_exists at 1, gets at 1.
  assert (Hb : bool_decide (is_Some (files w !! in_dir output_directory (page_id ++ lit ".txt")))
               && negb force_retranslate = false).
  { destruct H as [H| ->]; [|by rewrite andb_false_r].
    rewrite H, bool_decide_eq_false_2; [done | by intros [? ?]]. }
  by rewrite Hb.
Qed.

Global Instance output_writes_ok_dec (output_directory page_id : str) :
  Decision (output_writes_ok env output_directory page_id).
Proof. unfold output_writes_ok. apply _. Defined.

Global Instance error_writes_ok_dec (output_directory page_id : str) :
  Decision (error_writes_ok env output_directory page_id).
Proof. unfold error_writes_ok, error_record_opens. apply _. Defined.

End Processor.

(** C7, as the code has it.  [process_page] never removes a record, and one
    call of it, from any state of the output directory, ends as follows.
    The output record is there if it was there before, or if the transform
    returned and the output file could be opened.  The error record is there
    if it was there before, or if the page was not skipped, the [try] block
    failed -- the transform raised, or one of the four file operations on the
    output and the metadata failed -- and the error record could be opened.
    The call returns [Skipped] when the output record is there and [--force]
    is not given, [Completed] when the [try] block goes through, [Failed]
    when it fails and the error record is written; it raises when the error
    record cannot be written.  So, from a start with neither record, both
    are there at the end exactly when the transform returned, the output file
    was opened, a later write failed and the error record could be opened. *)
Theorem C7_output_and_error_records
    (env : Env) (page_id text output_directory model : str) (force_retranslate : bool)
    (w : World) :
  let out := process_page env (page_id, text, output_directory, model, force_retranslate) w in
  let opath := output_path output_directory page_id in
  let epath := error_path output_directory page_id in
  let had p := is_Some (files w !! p) in
  let has p := is_Some (files out.2 !! p) in
  let skipped := had opath /\ force_retranslate = false in
  let returned := exists t, transform_outcome env page_id text model w = Return t in
  let try_fails := (exists e, transform_outcome env page_id text model w = Raise e) \/
                   ~ output_writes_ok env output_directory page_id in
  (has opath <-> had opath \/ (returned /\ io_fault env OpOpenWrite opath = None)) /\
  (has epath <->
     had epath \/
     (~ skipped /\ try_fails /\ error_record_opens env output_directory page_id)) /\
  (out.1 = Return (page_id, Skipped) <-> skipped) /\
  (out.1 = Return (page_id, Completed) <->
     ~ skipped /\ returned /\ output_writes_ok env output_directory page_id) /\
  (out.1 = Return (page_id, Failed) <->
     ~ skipped /\ try_fails /\ error_writes_ok env output_directory page_id) /\
  ((exists e, out.1 = Raise e) <->
     ~ skipped /\ try_fails /\ ~ error_writes_ok env output_directory page_id) /\
  (~ had opath -> ~ had epath ->
     (has opath /\ has epath <->
      returned /\ late_write_fails env output_directory page_id /\
      error_record_opens env output_directory page_id)).
Proof.
  cbv beta zeta.
  pose proof (error_path_neq_output output_directory page_id page_id) as N1.
  pose proof (error_path_neq_metadata output_directory page_id page_id) as N2.
  pose proof (metadata_path_neq_output output_directory page_id page_id) as N3.
  destruct (decide (is_Some (files w !! output_path output_directory page_id) /\
                    force_retranslate = false)) as [[Hhad ->]|Hns].
  { rewrite process_page_skip by done. destruct w as [evs clk fs lg].
    cbn [fst snd files set_logged] in *. unfold late_write_fails. naive_solver. }
  assert (Hcase : files w !! output_path output_directory page_id = None \/
                  force_retranslate = true).
  { destruct (files w !! output_path output_directory page_id) eqn:E; [|by left].
    destruct force_retranslate; [by right|]. exfalso. apply Hns. by eauto. }
  rewrite process_page_not_skipped by done.
  pose proof (process_page_try_run env page_id text output_directory model w) as [Hframe Htry].
  unfold late_write_fails.
  destruct (process_page_try env page_id text output_directory model w) as [r1 w1].
  cbn [fst snd] in *.
  destruct (transform_outcome env page_id text model w) as [t|e0].
  - destruct Htry as [Hok Hko].
    destruct (decide (output_writes_ok env output_directory page_id)) as [Hw|Hw].
    + destruct (Hok Hw) as [-> [c Hfs]]. cbn [fst snd]. rewrite Hfs.
      rewrite lookup_insert_ne, lookup_insert_eq by done.
      rewrite !lookup_insert_ne by done.
      pose proof Hw as [Hopen _]. naive_solver.
    + destruct (Hko Hw) as [[e ->] Hhas].
      pose proof (process_page_except_run env page_id output_directory e w1)
        as (Hframe' & Herr' & Hret & Hdone).
      destruct (process_page_except env page_id output_directory e w1) as [r2 w2].
      cbn [fst snd] in *.
      rewrite (Hframe' (output_path output_directory page_id)) by done.
      rewrite Hhas, Herr', (Hframe (error_path output_directory page_id)) by done.
      destruct (decide (error_writes_ok env output_directory page_id)) as [He|He].
      * destruct (Hdone He) as [-> _]. pose proof He as [Hopens _]. naive_solver.
      * destruct r2 as [r|x]; [by destruct (Hret r eq_refl)|].
        unfold error_writes_ok in *. naive_solver.
  - destruct Htry as [-> Hfs].
    pose proof (process_page_except_run env page_id output_directory e0 w1)
      as (Hframe' & Herr' & Hret & Hdone).
    destruct (process_page_except env page_id output_directory e0 w1) as [r2 w2].
    cbn [fst snd] in *.
    rewrite (Hframe' (output_path output_directory page_id)), Hfs by done.
    rewrite Herr', Hfs.
    destruct (decide (error_writes_ok env output_directory page_id)) as [He|He].
    + destruct (Hdone He) as [-> _]. pose proof He as [Hopens _]. naive_solver.
    + destruct r2 as [r|x]; [by destruct (Hret r eq_refl)|].
      unfold error_writes_ok in *. naive_solver.
Qed.

Lemma C7_witness :
  let out := process_page env_metadata_denied
               (lit "page_1", lit "salam", lit "out", lit "m", false)
               (world_of stale_error_record) in
  is_Some (files out.2 !! output_path (lit "out") (lit "page_1")) /\
  is_Some (files out.2 !! error_path (lit "out") (lit "page_1")) /\
  out.1 = Return (lit "page_1", Failed).
Proof.
  pose proof (C7_output_and_error_records env_metadata_denied
                (lit "page_1") (lit "salam") (lit "out") (lit "m") false
                (world_of stale_error_record)) as (Ho & He & _ & _ & Hf & _).
  split; [|split].
  - apply Ho. right. split; [by eexists|reflexivity].
  - apply He. left. by eexists.
  - apply Hf. split; [|split].
    + intros [[c Hc] _]. discriminate Hc.
    + right. intros (_ & _ & Hm & _). discriminate Hm.
    + repeat split.
Defined.

(** C7 as the specification states it fails, in two ways.  The transform
    succeeds, the translation is written, the metadata file cannot be
    opened: the call ends as [Failed] with both the output record and the
    error record.  And a page whose error record is left from an earlier run
    is translated without any failure: the call ends as [Completed] with
    both records. *)
Lemma C7_counterexample :
  (let out := process_page env_metadata_denied
                (lit "page_1", lit "salam", lit "out", lit "m", false) empty_world in
   files empty_world !! output_path (lit "out") (lit "page_1") = None /\
   files empty_world !! error_path (lit "out") (lit "page_1") = None /\
   transform_outcome env_metadata_denied (lit "page_1") (lit "salam") (lit "m") empty_world
     = Return (lit "EN:salam") /\
   out.1 = Return (lit "page_1", Failed) /\
   files out.2 !! output_path (lit "out") (lit "page_1") = Some (lit "EN:salam") /\
   files out.2 !! error_path (lit "out") (lit "page_1") = Some (lit "{error}")) /\
  (let out := process_page (env_of remote_echo)
                (lit "page_1", lit "salam", lit "out", lit "m", false)
                (world_of stale_error_record) in
   files (world_of stale_error_record) !! output_path (lit "out") (lit "page_1") = None /\
   out.1 = Return (lit "page_1", Completed) /\
   files out.2 !! output_path (lit "out") (lit "page_1") = Some (lit "EN:salam") /\
   files out.2 !! error_path (lit "out") (lit "page_1") = Some (lit "{stale error}")).
Proof. vm_compute. repeat split; reflexivity. Qed.

(** ** The batch *)

Section Batch.
Context (env : Env).

Lemma summary_path_neq_output (d page_id : str) : summary_path d <> output_path d page_id.
Proof.
  unfold summary_path, output_path, in_dir. intros [= H].
  apply (f_equal last) in H.
  change (lit ".txt") with (lit ".tx" ++ ["t"%char]) in H.
  rewrite app_assoc, last_snoc in H. discriminate.
Qed.

Lemma log_batch_start_run (args : Args) (page_entries : list (str * str)) (w : World) :
  (log_batch_start args page_entries w).1 = Return tt /\
  files (dispatch_world args page_entries w) = files w /\
  events (dispatch_world args page_entries w) = events w /\
  clock (dispatch_world args page_entries w) = clock w.
Proof. by destruct w. Qed.

Lemma run_batch_unfold (args : Args) (page_entries : list (str * str)) (w : World) :
  run_batch env args page_entries w =
  match map_M (process_page env) (process_args args page_entries)
              (dispatch_world args page_entries w) with
  | (Return results, w') => finish_batch env args page_entries results w'
  | (Raise e, w') => (Raise e, w')
  end.
Proof.
  unfold run_batch, dispatch_world. rewrite run_bind.
  pose proof (log_batch_start_run args page_entries w) as [H _].
  destruct (log_batch_start args page_entries w) as [r w']. cbn [fst snd] in *. subst r.
  by rewrite run_bind.
Qed.

(** Every page has its output: every page is skipped, nothing else happens. *)
Lemma dispatch_all_skipped (args : Args) (page_entries : list (str * str)) (w : World) :
  force args = false ->
  Forall (fun e => is_Some (files w !! output_path (output args) e.1)) page_entries ->
  let out := map_M (process_page env) (process_args args page_entries) w in
  out.1 = Return (map (fun e => (e.1, Skipped)) page_entries) /\
  files out.2 = files w /\ events out.2 = events w /\ clock out.2 = clock w.
Proof.
  destruct args as [ocr outd mdl wrk frc pgs cmb]. cbn [force output]. intros -> Hall.
  revert w Hall.
  induction page_entries as [|[page_id text] entries IH]; intros w Hall; [done|].
  apply Forall_cons in Hall as [Hhere Hall]. cbn [fst snd] in Hhere.
  unfold process_args in *. cbn [map map_M fst snd force output model] in *.
  rewrite run_bind, process_page_skip by done. rewrite run_bind.
  set (w1 := set_logged _ w).
  destruct (IH w1) as (Hres & Hfs & Hev & Hclk); [by destruct w|].
  destruct (map_M (process_page env) _ w1) as [r w2]. cbn [fst snd] in *. subst r.
  unfold mret, M_ret, ret. cbn [fst snd]. rewrite Hfs, Hev, Hclk. subst w1. by destruct w.
Qed.

Lemma count_status_all_skipped (st : Status) (page_entries : list (str * str)) :
  count_status st (map (fun e : str * str => (e.1, Skipped)) page_entries) =
  if decide (st = Skipped) then length page_entries else 0%nat.
Proof.
  unfold count_status. induction page_entries as [|e entries IH]; [by destruct (decide _)|].
  cbn [map List.filter snd]. destruct (decide (st = Skipped)) as [->|Hne].
  - rewrite bool_decide_eq_true_2 by done. cbn [length]. by rewrite IH.
  - rewrite bool_decide_eq_false_2 by done. by rewrite IH.
Qed.

(** The end of a run that writes no combined file. *)
Lemma finish_batch_no_combined (args : Args) (page_entries : list (str * str))
    (results : list (str * Status)) (w : World) :
  create_combined args && bool_decide (0 < count_status Completed results)%nat = false ->
  let out := finish_batch env args page_entries results w in
  events out.2 = events w /\
  (forall p, p <> summary_path (output args) -> files out.2 !! p = files w !! p) /\
  (io_fault env OpOpenWrite (summary_path (output args)) = None ->
   io_fault env OpWrite (summary_path (output args)) = None ->
   out.1 = Return tt /\
   files out.2 !! summary_path (output args)
   = Some (json_dumps env
             (JSummary (make_summary args page_entries results (isoformat env (clock w)))))).
Proof.
  intros Hno. unfold finish_batch, summary_path, open_write, file_write, in_dir.
  rewrite Hno. destruct w as [evs clk fs lg]. run_M. unfold Msg, Path, str in *.
  case_fault OpOpenWrite; [naive_solver|].
  case_fault OpWrite.
  - split; [done|]. split; [intros p Hp; by rewrite lookup_insert_ne|]. naive_solver.
  - split; [done|]. split; [intros p Hp; by rewrite !lookup_insert_ne|].
    intros _ _. by rewrite !lookup_insert_eq.
Qed.

End Batch.

(** C2. A page whose output file is in the output directory is, without
    [--force], reported [Skipped]: no remote call is made and no file is
    touched.  Hence, when a first run has left an output file for every page,
    a second run without [--force] skips every page, makes no remote call,
    and leaves every file as it was, the summary file alone being written
    anew. *)
Theorem C2_skip_existing_and_second_run (env : Env) :
  (forall (page_id text output_directory model : str) (w : World),
     is_Some (files w !! output_path output_directory page_id) ->
     let out := process_page env (page_id, text, output_directory, model, false) w in
     out.1 = Return (page_id, Skipped) /\
     events out.2 = events w /\ calls out.2 = calls w /\ files out.2 = files w) /\
  (forall (args : Args) (page_entries : list (str * str)) (w0 : World),
     force args = false ->
     let w1 := (run_batch env args page_entries w0).2 in
     Forall (fun e => is_Some (files w1 !! output_path (output args) e.1)) page_entries ->
     let dispatch := map_M (process_page env) (process_args args page_entries)
                           (dispatch_world args page_entries w1) in
     let out := run_batch env args page_entries w1 in
     dispatch.1 = Return (map (fun e => (e.1, Skipped)) page_entries) /\
     calls out.2 = calls w1 /\
     (forall p, p <> summary_path (output args) -> files out.2 !! p = files w1 !! p) /\
     Forall (fun e => files out.2 !! output_path (output args) e.1
                      = files w1 !! output_path (output args) e.1) page_entries).
Proof.
  split.
  - intros page_id text output_directory model w H.
    cbv zeta. rewrite process_page_skip by done. by destruct w.
  - intros args page_entries w0 Hforce w1 Hall dispatch out. subst dispatch out.
    pose proof (log_batch_start_run args page_entries w1) as (_ & Hfs & Hev & _).
    destruct (dispatch_all_skipped env args page_entries (dispatch_world args page_entries w1))
      as (Hres & Hfs' & Hev' & _); [done | by rewrite Hfs |].
    rewrite run_batch_unfold.
    destruct (map_M (process_page env) _ (dispatch_world args page_entries w1)) as [r w2].
    cbn [fst snd] in *. subst r. split; [done|].
    destruct (finish_batch_no_combined env args page_entries
                (map (fun e => (e.1, Skipped)) page_entries) w2) as (Hev2 & Hframe & _).
    { rewrite count_status_all_skipped. cbn. by rewrite andb_false_r. }
    assert (Hfiles : forall p, p <> summary_path (output args) ->
              files (finish_batch env args page_entries
                       (map (fun e => (e.1, Skipped)) page_entries) w2).2 !! p
              = files w1 !! p).
    { intros p Hp. by rewrite Hframe, Hfs', Hfs. }
    split; [|split; [done|]].
    + unfold calls. by rewrite Hev2, Hev', Hev.
    + apply Forall_forall. intros e _. apply Hfiles.
      intros H. symmetry in H. by apply summary_path_neq_output in H.
Qed.

Lemma C2_witness :
  let env := env_of remote_echo in
  let w1 := (run_batch env args_out two_pages empty_world).2 in
  let out := run_batch env args_out two_pages w1 in
  (map_M (process_page env) (process_args args_out two_pages)
         (dispatch_world args_out two_pages w1)).1
  = Return [(lit "page_1", Skipped); (lit "page_2", Skipped)] /\
  calls out.2 = calls w1 /\
  Forall (fun e => files out.2 !! output_path (output args_out) e.1
                   = files w1 !! output_path (output args_out) e.1) two_pages.
Proof.
  intros env w1 out.
  destruct (proj2 (C2_skip_existing_and_second_run env) args_out two_pages empty_world eq_refl)
    as (H1 & H2 & _ & H4).
  - apply Forall_cons. split; [vm_compute; eauto|].
    apply Forall_cons. split; [vm_compute; eauto|]. constructor.
  - split; [exact H1|]. split; [exact H2 | exact H4].
Defined.

(** ** The sort never meets a [TypeError] on natural keys *)

(** The pieces of [re.split] alternate: text that is not a number, then a
    number, and so on. *)
Fixpoint well_split (text_next : bool) (l : list str) : Prop :=
  match l with
  | [] => True
  | x :: l' => isdigit x = negb text_next /\ well_split (negb text_next) l'
  end.

Lemma split_text_digits_well (s : str) :
  (forall acc, Forall (fun c => is_digit c = false) acc -> well_split true (split_text acc s)) /\
  (forall acc, Forall (fun c => is_digit c = true) acc -> acc <> [] ->
               well_split false (split_digits acc s)).
Proof.
  induction s as [|c s [IHt IHd]]; split; intros acc Hacc.
  - cbn. split; [|done]. by apply isdigit_no_digit, Forall_rev.
  - intros Hne. cbn. split; [|done]. apply isdigit_Forall. split.
    + intros H. apply (f_equal (@rev _)) in H. rewrite rev_involutive in H. done.
    + by apply Forall_rev.
  - cbn [split_text]. destruct (is_digit c) eqn:Hc.
    + cbn. split; [by apply isdigit_no_digit, Forall_rev|].
      apply IHd; [by constructor | done].
    + apply IHt. by constructor.
  - intros Hne. cbn [split_digits]. destruct (is_digit c) eqn:Hc.
    + apply IHd; [by constructor | done].
    + cbn. split.
      * apply isdigit_Forall. split; [|by apply Forall_rev].
        intros H. apply (f_equal (@rev _)) in H. rewrite rev_involutive in H. done.
      * apply IHt. by constructor.
Qed.

(** The elements of a key alternate between [str] and [int]. *)
Fixpoint alt_key (str_next : bool) (k : list KeyElem) : Prop :=
  match k with
  | [] => True
  | KStr _ :: k' => str_next = true /\ alt_key false k'
  | KInt _ :: k' => str_next = false /\ alt_key true k'
  end.

Lemma natural_sort_key_alt (s : str) : alt_key true (natural_sort_key s).
Proof.
  unfold natural_sort_key, re_split.
  pose proof (proj1 (split_text_digits_well s) [] (Forall_nil_2 _)) as H.
  revert H. generalize (split_text [] s) as l. generalize true as b.
  intros b l. revert b. induction l as [|x l IH]; intros b; [done|].
  cbn [well_split map]. intros [Hx Hl]. rewrite Hx.
  destruct b; cbn [negb alt_key] in *; (split; [done|]); by apply IH.
Qed.

Lemma key_lt_alt (b : bool) (k1 k2 : list KeyElem) :
  alt_key b k1 -> alt_key b k2 -> is_Some (key_lt k1 k2).
Proof.
  revert b k2. induction k1 as [|x k1 IH]; intros b [|y k2] H1 H2; cbn [key_lt]; try by eauto.
  destruct x as [m|s], y as [n|t]; cbn [alt_key elem_eqb elem_lt] in *;
    destruct H1 as [-> H1], H2 as [? H2]; try done.
  - destruct (m =? n); [by eapply IH | by eauto].
  - destruct (bool_decide (s = t)); [by eapply IH | by eauto].
Qed.

Lemma insert_by_total {A} (key : A -> list KeyElem) (x : A) (l : list A) :
  (forall y, is_Some (key_lt (key y) (key x))) ->
  exists l', insert_by key x l = Some l' /\ l' ≡ₚ x :: l.
Proof.
  intros Hkey. induction l as [|y l (l' & IH & Hp)]; [by exists [x]|].
  cbn [insert_by]. destruct (Hkey y) as [lt ->]. cbn [mbind option_bind].
  destruct lt.
  - rewrite IH. exists (y :: l'). split; [done|]. rewrite Hp. apply perm_swap.
  - by exists (x :: y :: l).
Qed.

Lemma sort_by_total {A} (key : A -> list KeyElem) (l : list A) :
  (forall x y, is_Some (key_lt (key x) (key y))) ->
  exists l', sort_by key l = Some l' /\ l' ≡ₚ l.
Proof.
  intros Hkey. induction l as [|x l (l' & IH & Hp)]; [by exists []|].
  cbn [sort_by]. rewrite IH. cbn [mbind option_bind].
  destruct (insert_by_total key x l') as (l'' & -> & Hp'); [done|].
  exists l''. split; [done|]. by rewrite Hp', Hp.
Qed.

(** The sort of the combiner succeeds and permutes its input. *)
Lemma sort_by_natural_total (l : list str) :
  exists l', sort_by natural_sort_key l = Some l' /\ l' ≡ₚ l.
Proof.
  apply sort_by_total. intros x y.
  eapply key_lt_alt; apply natural_sort_key_alt.
Qed.

(** ** The combiner *)

Section Combiner.
Context (env : Env) (Hio : no_io_fault env).

Lemma names_in_elem (d f : str) (fs : gmap Path str) :
  f ∈ names_in d fs <-> is_Some (fs !! (d, f)).
Proof.
  unfold names_in. rewrite list_elem_of_omap. split.
  - intros ([d' f'] & Hin & Hsome). cbn [fst snd] in Hsome.
    destruct (decide (d' = d)) as [->|]; [|done]. injection Hsome as ->.
    by apply elem_of_elements, elem_of_dom in Hin.
  - intros H. exists (d, f). split; [by apply elem_of_elements, elem_of_dom|].
    cbn [fst snd]. by rewrite decide_True.
Qed.

(** One turn of the loop, for a file that is there. *)
Lemma combine_page_run (d f acc c : str) (w : World) :
  in_dir d f <> combined_path d ->
  files w !! combined_path d = Some acc ->
  files w !! in_dir d f = Some c ->
  let out := combine_page env d (combined_path d) f w in
  out.1 = Return tt /\ events out.2 = events w /\
  files out.2 =
    <[combined_path d :=
        acc ++ page_header (replace (lit ".txt") [] f) ++ universal_newlines c ++ [nl; nl]]>
      (files w).
Proof.
  intros Hne Hacc Hc. unfold combine_page, read_text, file_write, check_fault.
  rewrite !Hio. destruct w as [evs clk fs lg]. cbn [files] in *. run_M.
  unfold Msg, Path, str in *. rewrite Hacc. cbn [default]. rewrite lookup_insert_ne, Hc by done. run_M.
  rewrite !lookup_insert_eq. cbn [default]. unfold id.
  rewrite !insert_insert_eq, <- !app_assoc. done.
Qed.

Lemma combined_text_cons (f c : str) (l : list (str * str)) :
  combined_text ((f, c) :: l) =
  page_header (replace (lit ".txt") [] f) ++ c ++ [nl; nl] ++ combined_text l.
Proof. unfold combined_text. cbn [map concat fst snd]. by rewrite <- !app_assoc. Qed.

(** The loop, for files that are there. *)
Lemma for_each_combine_page (d : str) (l : list str) (acc : str) (w : World) :
  Forall (fun f => in_dir d f <> combined_path d /\ is_Some (files w !! in_dir d f)) l ->
  files w !! combined_path d = Some acc ->
  let out := for_each (combine_page env d (combined_path d)) l w in
  out.1 = Return tt /\ events out.2 = events w /\
  files out.2 =
    <[combined_path d :=
        acc ++ combined_text (map (fun f => (f, read_back (files w) (in_dir d f))) l)]>
      (files w).
Proof.
  revert acc w. induction l as [|f l IH]; intros acc w Hall Hacc.
  - cbn. rewrite app_nil_r. split; [done|]. split; [done|]. by rewrite insert_id.
  - apply Forall_cons in Hall as [[Hne [c Hc]] Hall].
    cbn [for_each]. rewrite run_bind.
    destruct (combine_page_run d f acc c w Hne Hacc Hc) as (Hr & Hev & Hfs).
    destruct (combine_page env d (combined_path d) f w) as [r w1]. cbn [fst snd] in *.
    subst r.
    destruct (IH (acc ++ page_header (replace (lit ".txt") [] f) ++ universal_newlines c
                      ++ [nl; nl]) w1)
      as (Hr' & Hev' & Hfs').
    + eapply Forall_impl; [exact Hall|]. intros f' [Hne' Hsome]. split; [done|].
      by rewrite Hfs, lookup_insert_ne.
    + by rewrite Hfs, lookup_insert_eq.
    + split; [done|]. split; [congruence|]. rewrite Hfs', Hfs, insert_insert_eq.
      f_equal. cbn [map]. rewrite combined_text_cons. unfold read_back, Path, str in *.
      rewrite Hc. cbn [default]. unfold id.
      rewrite <- !app_assoc. do 4 f_equal. f_equal.
      apply map_ext_in. intros f' Hf'. apply list_elem_of_In in Hf'.
      rewrite Forall_forall in Hall. destruct (Hall f' Hf') as [Hne' _].
      by rewrite lookup_insert_ne.
Qed.

Lemma sorted_translation_files_elem (d : str) (fs : gmap Path str) (L : list str) (f : str) :
  sort_by natural_sort_key (List.filter is_translation_file (names_in d fs)) = Some L ->
  f ∈ L <-> is_translation_file f = true /\ is_Some (fs !! in_dir d f).
Proof.
  intros Hsort.
  destruct (sort_by_natural_total (List.filter is_translation_file (names_in d fs)))
    as (L' & Hsort' & Hperm).
  rewrite Hsort in Hsort'. injection Hsort' as <-.
  rewrite Hperm, list_elem_of_In, filter_In, <- list_elem_of_In, names_in_elem.
  unfold in_dir. tauto.
Qed.

Lemma translation_file_not_combined (d f : str) :
  is_translation_file f = true -> in_dir d f <> combined_path d.
Proof. unfold in_dir, combined_path. intros H [= ->]. by vm_compute in H. Qed.

(** The combiner on a directory that holds translation files. *)
Lemma create_combined_translation_run (d : str) (w : World) (L : list str) :
  sort_by natural_sort_key (List.filter is_translation_file (names_in d (files w))) = Some L ->
  L <> [] ->
  let out := create_combined_translation env d w in
  out.1 = Return tt /\ events out.2 = events w /\
  files out.2 =
    <[combined_path d := combined_text (map (fun f => (f, read_back (files w) (in_dir d f))) L)]>
      (files w).
Proof.
  intros Hsort Hne.
  assert (Hall : Forall (fun f => in_dir d f <> combined_path d /\
                                  is_Some (files w !! in_dir d f)) L).
  { apply Forall_forall. intros f Hf.
    apply (sorted_translation_files_elem d (files w) L f Hsort) in Hf as [Ht Hs].
    split; [by apply translation_file_not_combined | done]. }
  destruct w as [evs clk fs lg]. cbn [files events] in *.
  pose (w1 := {| events := evs; clock := clk; files := <[combined_path d := []]> fs;
                 logged := lg |}).
  destruct (for_each_combine_page d L [] w1) as (Hr & Hev & Hfs).
  { eapply Forall_impl; [exact Hall|]. intros f [Hf Hs]. split; [done|].
    cbn [files w1]. by rewrite lookup_insert_ne. }
  { cbn [files w1]. by rewrite lookup_insert_eq. }
  unfold create_combined_translation, listdir, open_write, check_fault.
  rewrite !Hio. run_M. rewrite Hsort, bool_decide_eq_false_2 by done. run_M.
  change (in_dir d (lit "combined_translation.txt")) with (combined_path d).
  fold w1. destruct (for_each _ L w1) as [r [evs2 clk2 fs2 lg2]].
  cbn [fst snd files events w1] in *. subst. split; [done|]. split; [done|].
  rewrite insert_insert_eq. cbn [app]. do 2 f_equal.
  apply map_ext_in. intros f Hf. apply list_elem_of_In in Hf.
  rewrite Forall_forall in Hall. destruct (Hall f Hf) as [Hne' _].
  unfold read_back. by rewrite lookup_insert_ne.
Qed.

End Combiner.

(** The names of a directory are listed once each. *)
Lemma names_in_NoDup (d : str) (fs : gmap Path str) : NoDup (names_in d fs).
Proof.
  unfold names_in. pose proof (NoDup_elements (dom fs)) as Hnd.
  induction Hnd as [|p l Hp Hnd IH]; cbn [omap list_omap]; [constructor|].
  destruct (decide (p.1 = d)) as [Hd|Hd]; [|done].
  constructor; [|done]. intros Hin. apply list_elem_of_omap in Hin as (q & Hq & Hsome).
  destruct (decide (q.1 = d)) as [Hd'|]; [|done]. injection Hsome as Hsome.
  apply Hp. destruct p, q. cbn in *. by subst.
Qed.

Lemma NoDup_list_filter {A} (f : A -> bool) (l : list A) :
  NoDup l -> NoDup (List.filter f l).
Proof.
  induction 1 as [|x l Hx Hnd IH]; cbn [List.filter]; [constructor|].
  destruct (f x); [|done]. constructor; [|done].
  intros Hin. apply Hx. apply list_elem_of_In, filter_In in Hin as [Hin _].
  by apply list_elem_of_In.
Qed.

(** A check of [ascii_names] on the names of the directory. *)
Lemma ascii_names_check (d : str) (fs : gmap Path str) :
  forallb (forallb (fun c => (code c <? 128)%N)) (names_in d fs) = true ->
  ascii_names d fs.
Proof.
  intros H f _ Hs. apply names_in_elem in Hs.
  rewrite forallb_forall in H. apply list_elem_of_In in Hs. specialize (H f Hs).
  apply Forall_forall. intros c Hc. rewrite forallb_forall in H.
  apply list_elem_of_In in Hc. specialize (H c Hc). by apply N.ltb_lt in H.
Qed.

(** ** White space and newlines *)

Lemma is_space_ascii (a : ascii) : is_space a = true -> (code a <= 32)%N.
Proof.
  unfold is_space. intros H.
  apply orb_true_iff in H as [H|H]; apply andb_true_iff in H as [_ H]; apply N.leb_le in H; lia.
Qed.

(** A white space character of ASCII is no byte of a white space character
    outside ASCII. *)
Lemma space2_ascii (a b : ascii) :
  is_space a = true \/ is_space b = true -> space2 a b = false.
Proof. unfold space2. intros [H|H]; apply is_space_ascii in H; lia. Qed.

Lemma space3_ascii (a b c : ascii) :
  is_space a = true \/ is_space c = true -> space3 a b c = false.
Proof. unfold space3. intros [H|H]; apply is_space_ascii in H; lia. Qed.

(** Induction on the length of a text. *)
Lemma str_length_ind (P : str -> Prop) :
  (forall s, (forall t, (length t < length s)%nat -> P t) -> P s) -> forall s, P s.
Proof.
  intros H s. assert (Hn : forall n t, (length t < n)%nat -> P t).
  { induction n as [|n IH]; intros t Ht; [lia|]. apply H. intros u Hu. apply IH. lia. }
  apply (Hn (S (length s))). lia.
Qed.

Lemma strip_head_snoc_space (forwards : bool) (a : ascii) (s : str) :
  is_space a = true ->
  strip_head forwards (s ++ [a])
  = match strip_head forwards s with [] => [] | t => t ++ [a] end.
Proof.
  intros Ha. induction s as [s IH] using str_length_ind.
  destruct s as [|x [|y [|z s]]]; cbn [app strip_head length] in *.
  - by rewrite Ha.
  - destruct (is_space x); [by rewrite Ha|].
    by destruct forwards; rewrite space2_ascii by auto.
  - destruct (is_space x); [apply (IH [y]); cbn; lia|].
    destruct (if forwards then space2 x y else space2 y x); [by rewrite Ha|].
    by destruct forwards; rewrite space3_ascii by auto.
  - destruct (is_space x); [apply (IH (y :: z :: s)); cbn; lia|].
    destruct (if forwards then space2 x y else space2 y x); [apply (IH (z :: s)); cbn; lia|].
    destruct (if forwards then space3 x y z else space3 z y x); [apply IH; cbn; lia | done].
Qed.

Lemma rstrip_snoc_space (a : ascii) (x : str) :
  is_space a = true -> rstrip (x ++ [a]) = rstrip x.
Proof. intros Ha. unfold rstrip. rewrite rev_app_distr. cbn [app rev strip_head]. by rewrite Ha. Qed.

Lemma strip_snoc_space (a : ascii) (c : str) :
  is_space a = true -> strip (c ++ [a]) = strip c.
Proof.
  intros Ha. unfold strip, lstrip. rewrite strip_head_snoc_space by done.
  destruct (strip_head true c) as [|b t]; [done|]. by apply rstrip_snoc_space.
Qed.

Lemma strip_padded (c : str) :
  strip (nl :: c ++ [nl]) = strip c /\ strip (nl :: c ++ [nl; nl]) = strip c.
Proof.
  assert (Hnl : is_space nl = true) by reflexivity.
  assert (H1 : forall x, strip (nl :: x) = strip x) by (intros x; by unfold strip).
  split.
  - by rewrite H1, strip_snoc_space.
  - rewrite H1. change [nl; nl] with ([nl] ++ [nl]).
    by rewrite app_assoc, !strip_snoc_space.
Qed.

(** What is left has no white space at its head. *)
Lemma strip_head_idemp (forwards : bool) (s : str) :
  strip_head forwards (strip_head forwards s) = strip_head forwards s.
Proof.
  induction s as [s IH] using str_length_ind.
  destruct s as [|x [|y [|z s]]]; cbn [strip_head length] in *; [done|..].
  - destruct (is_space x) eqn:E1; [done|]. cbn [strip_head]. by rewrite E1.
  - destruct (is_space x) eqn:E1; [apply (IH [y]); cbn; lia|].
    destruct (if forwards then space2 x y else space2 y x) eqn:E2; [done|].
    cbn [strip_head]. by rewrite E1, E2.
  - destruct (is_space x) eqn:E1; [apply (IH (y :: z :: s)); cbn; lia|].
    destruct (if forwards then space2 x y else space2 y x) eqn:E2;
      [apply (IH (z :: s)); cbn; lia|].
    destruct (if forwards then space3 x y z else space3 z y x) eqn:E3;
      [apply IH; cbn; lia|].
    cbn [strip_head]. by rewrite E1, E2, E3.
Qed.

(** It is the end of the text. *)
Lemma strip_head_suffix (forwards : bool) (s : str) :
  exists p, s = p ++ strip_head forwards s.
Proof.
  induction s as [s IH] using str_length_ind.
  destruct s as [|x [|y [|z s]]]; cbn [strip_head length] in *; [by exists []|..].
  - destruct (is_space x); [by exists [x] | by exists []].
  - destruct (is_space x).
    { destruct (IH [y]) as [p Hp]; [cbn; lia|]. exists (x :: p). cbn [app]. f_equal. exact Hp. }
    destruct (if forwards then space2 x y else space2 y x); [by exists [x; y] | by exists []].
  - destruct (is_space x).
    { destruct (IH (y :: z :: s)) as [p Hp]; [cbn; lia|]. exists (x :: p). cbn [app]. f_equal. exact Hp. }
    destruct (if forwards then space2 x y else space2 y x).
    { destruct (IH (z :: s)) as [p Hp]; [cbn; lia|]. exists (x :: y :: p). cbn [app]. do 2 f_equal. exact Hp. }
    destruct (if forwards then space3 x y z else space3 z y x); [|by exists []].
    destruct (IH s) as [p Hp]; [cbn; lia|]. exists (x :: y :: z :: p). cbn [app]. do 3 f_equal. exact Hp.
Qed.

Lemma strip_head_length (forwards : bool) (s : str) :
  (length (strip_head forwards s) <= length s)%nat.
Proof.
  destruct (strip_head_suffix forwards s) as [p Hp]. rewrite Hp at 2. rewrite length_app. lia.
Qed.

(** The three ways in which white space is passed over. *)
Lemma strip_head_space1 (forwards : bool) (x : ascii) (s : str) :
  is_space x = true -> strip_head forwards (x :: s) = strip_head forwards s.
Proof. intros H. cbn [strip_head]. by rewrite H. Qed.

Lemma strip_head_space2 (forwards : bool) (x y : ascii) (s : str) :
  is_space x = false -> (if forwards then space2 x y else space2 y x) = true ->
  strip_head forwards (x :: y :: s) = strip_head forwards s.
Proof. intros H1 H2. cbn [strip_head]. by rewrite H1, H2. Qed.

Lemma strip_head_space3 (forwards : bool) (x y z : ascii) (s : str) :
  is_space x = false -> (if forwards then space2 x y else space2 y x) = false ->
  (if forwards then space3 x y z else space3 z y x) = true ->
  strip_head forwards (x :: y :: z :: s) = strip_head forwards s.
Proof. intros H1 H2 H3. cbn [strip_head]. by rewrite H1, H2, H3. Qed.

(** A text without white space at its head: so are the texts it begins
    with. *)
Lemma strip_head_prefix (forwards : bool) (u v : str) :
  strip_head forwards (u ++ v) = u ++ v -> strip_head forwards u = u.
Proof.
  intros H.
  assert (Hlen : forall t r : str, (length r < length t)%nat -> strip_head forwards r <> t).
  { intros t r Hr Heq. pose proof (strip_head_length forwards r). rewrite Heq in *. lia. }
  destruct u as [|x u]; [done|]. cbn [app] in H.
  destruct (is_space x) eqn:E1.
  { rewrite strip_head_space1 in H by done. exfalso. eapply Hlen; [|exact H]. cbn [length]. lia. }
  destruct u as [|y u]; [cbn [strip_head]; by rewrite E1|]. cbn [app] in H.
  destruct (if forwards then space2 x y else space2 y x) eqn:E2.
  { rewrite strip_head_space2 in H by done. exfalso. eapply Hlen; [|exact H]. cbn [length]. lia. }
  destruct u as [|z u]; [cbn [strip_head]; by rewrite E1, E2|]. cbn [app] in H.
  destruct (if forwards then space3 x y z else space3 z y x) eqn:E3.
  { rewrite strip_head_space3 in H by done. exfalso. eapply Hlen; [|exact H]. cbn [length]. lia. }
  cbn [strip_head]. by rewrite E1, E2, E3.
Qed.

(** [strip] leaves nothing to strip. *)
Lemma strip_idemp (s : str) : strip (strip s) = strip s.
Proof.
  unfold strip, lstrip, rstrip.
  set (t := strip_head true s).
  destruct (strip_head_suffix false (rev t)) as [p Hp].
  set (r := strip_head false (rev t)) in *.
  assert (Ht : t = rev r ++ rev p).
  { rewrite <- rev_app_distr, <- Hp. by rewrite rev_involutive. }
  assert (Hu : strip_head true (rev r) = rev r).
  { apply (strip_head_prefix true (rev r) (rev p)). rewrite <- Ht. apply strip_head_idemp. }
  rewrite Hu, rev_involutive. f_equal. apply strip_head_idemp.
Qed.

(** ** Universal newlines *)

(** A text without carriage return is read as it is. *)
Lemma universal_newlines_id (s : str) : cr ∉ s -> universal_newlines s = s.
Proof.
  induction s as [|c s IH]; [done|]. intros [Hc Hs]%not_elem_of_cons.
  cbn [universal_newlines]. rewrite decide_False by done. by rewrite IH.
Qed.

(** What is read holds no carriage return. *)
Lemma universal_newlines_no_cr (s : str) : cr ∉ universal_newlines s.
Proof.
  induction s as [s IH] using str_length_ind.
  destruct s as [|c [|c1 s]]; cbn [universal_newlines length] in *.
  - apply not_elem_of_nil.
  - destruct (decide (c = cr)); repeat (apply not_elem_of_cons; split; [done|]);
      apply not_elem_of_nil.
  - destruct (decide (c = cr)).
    + apply not_elem_of_cons. split; [done|].
      destruct (decide (c1 = nl)); [apply IH; cbn; lia|].
      apply (IH (c1 :: s)). cbn. lia.
    + apply not_elem_of_cons. split; [done|]. apply (IH (c1 :: s)). cbn. lia.
Qed.

Lemma universal_newlines_idemp (s : str) :
  universal_newlines (universal_newlines s) = universal_newlines s.
Proof. apply universal_newlines_id, universal_newlines_no_cr. Qed.

Lemma replace_txt_no_dot (s : str) :
  Forall (fun c => c <> "."%char) s -> replace (lit ".txt") [] (s ++ lit ".txt") = s.
Proof.
  unfold replace. induction 1 as [|c s Hc _ IH]; [reflexivity|].
  cbn [app replace_from].
  replace (startswith (c :: s ++ lit ".txt") (lit ".txt")) with false.
  - by rewrite IH.
  - change (lit ".txt") with ("."%char :: lit "txt") at 2.
    by rewrite startswith_cons, bool_decide_eq_false_2.
Qed.

Lemma replace_txt_page_id (id : str) :
  is_page_id id = true -> replace (lit ".txt") [] (id ++ lit ".txt") = id.
Proof.
  intros (ds & -> & [_ Hds]%isdigit_Forall)%is_page_id_inv.
  apply replace_txt_no_dot, Forall_app. split.
  - repeat constructor; discriminate.
  - eapply Forall_impl; [exact Hds|]. by intros c Hc ->.
Qed.

Lemma no_marker_line_padded (c tl : str) :
  no_marker_line c -> tl = [nl] \/ tl = [nl; nl] -> no_marker_line (nl :: c ++ tl).
Proof.
  unfold no_marker_line. intros Hc Htl.
  change (nl :: c ++ tl) with ([] ++ nl :: c ++ tl). rewrite lines_app_nl.
  apply Forall_app. split; [by repeat constructor|].
  destruct Htl as [-> | ->].
  - rewrite lines_app_nl. apply Forall_app. split; [done | by repeat constructor].
  - rewrite lines_app_nl. apply Forall_app. split; [done | by repeat constructor].
Qed.

(** The blocks of the combined file for the items [(id, body)]: each body
    sits between newlines. *)
Fixpoint combined_blocks (items : list (str * str)) : list (str * str) :=
  match items with
  | [] => []
  | [it] => [(it.1, nl :: it.2 ++ [nl; nl])]
  | it :: items' => (it.1, nl :: it.2 ++ [nl]) :: combined_blocks items'
  end.

Lemma combined_text_blocks (items : list (str * str)) :
  Forall (fun it => is_page_id it.1 = true) items ->
  combined_text (map (fun it => (it.1 ++ lit ".txt", it.2)) items)
  = blocks_text (combined_blocks items).
Proof.
  induction 1 as [|[id c] items Hid _ IH]; [done|].
  cbn [map fst snd] in *. rewrite combined_text_cons, replace_txt_page_id, IH by done.
  destruct items as [|it items].
  - cbn [combined_blocks blocks_text fst snd]. unfold block_text, page_header, marker_line.
    cbn [fst snd]. rewrite <- !app_assoc. cbn [app]. by rewrite ?app_nil_r.
  - change (combined_blocks ((id, c) :: it :: items))
      with ((id, nl :: c ++ [nl]) :: combined_blocks (it :: items)).
    set (rest := combined_blocks (it :: items)).
    assert (Hrest : rest <> []) by (subst rest; by destruct items).
    destruct rest as [|b rest]; [done|].
    change (blocks_text ((id, nl :: c ++ [nl]) :: b :: rest))
      with (block_text (id, nl :: c ++ [nl]) ++ [nl] ++ blocks_text (b :: rest)).
    unfold block_text, page_header, marker_line. cbn [fst snd].
    rewrite <- !app_assoc. cbn [app]. by rewrite <- !app_assoc.
Qed.

Lemma combined_blocks_ok (items : list (str * str)) :
  Forall (fun it => is_page_id it.1 = true /\ no_marker_line it.2) items ->
  Forall (fun b => is_page_id b.1 = true /\ no_marker_line b.2) (combined_blocks items) /\
  map (fun b => (b.1, strip b.2)) (combined_blocks items)
  = map (fun it => (it.1, strip it.2)) items.
Proof.
  induction 1 as [|[id c] items [Hid Hc] _ [IH1 IH2]]; [done|].
  cbn [fst snd] in *. destruct items as [|it items].
  - cbn [combined_blocks map fst snd]. split.
    + constructor; [|constructor]. split; [done|]. apply no_marker_line_padded; auto.
    + by rewrite (proj2 (strip_padded c)).
  - change (combined_blocks ((id, c) :: it :: items))
      with ((id, nl :: c ++ [nl]) :: combined_blocks (it :: items)).
    split.
    + constructor; [|done]. split; [done|]. apply no_marker_line_padded; auto.
    + cbn [map fst snd]. by rewrite IH2, (proj1 (strip_padded c)).
Qed.

(** Parsing the text of the combined file gives back its items. *)
Lemma parse_combined_text (items : list (str * str)) :
  Forall (fun it => is_page_id it.1 = true /\ no_marker_line it.2) items ->
  parse_content (combined_text (map (fun it => (it.1 ++ lit ".txt", it.2)) items))
  = map (fun it => (it.1, strip it.2)) items.
Proof.
  intros Hitems. destruct (combined_blocks_ok items Hitems) as [Hok Hmap].
  rewrite combined_text_blocks by (eapply Forall_impl; [exact Hitems|]; by intros ? [? _]).
  unfold parse_content, findall. rewrite findall_from_blocks by (done || lia). done.
Qed.

Lemma is_page_id_no_cr (id : str) : is_page_id id = true -> cr ∉ id.
Proof.
  intros (ds & -> & [_ Hds]%isdigit_Forall)%is_page_id_inv.
  apply not_elem_of_app. split.
  - intros H. repeat (apply elem_of_cons in H as [H|H]; [discriminate|]).
    by apply elem_of_nil in H.
  - intros H. rewrite Forall_forall in Hds. by specialize (Hds cr H).
Qed.

(** The combined file of page files, as it is stored, holds no carriage
    return: it is read back as it is. *)
Lemma combined_text_no_cr (items : list (str * str)) :
  Forall (fun it => is_page_id it.1 = true /\ cr ∉ it.2) items ->
  cr ∉ combined_text (map (fun it => (it.1 ++ lit ".txt", it.2)) items).
Proof.
  induction 1 as [|[id c] items [Hid Hc] _ IH]; [apply not_elem_of_nil|].
  cbn [map fst snd] in *. rewrite combined_text_cons, replace_txt_page_id by done.
  unfold page_header. rewrite !not_elem_of_app. repeat split; try done.
  - intros H. repeat (apply elem_of_cons in H as [H|H]; [discriminate|]).
    by apply elem_of_nil in H.
  - by apply is_page_id_no_cr.
  - intros H. repeat (apply elem_of_cons in H as [H|H]; [discriminate|]).
    by apply elem_of_nil in H.
  - intros H. repeat (apply elem_of_cons in H as [H|H]; [discriminate|]).
    by apply elem_of_nil in H.
  - intros H. repeat (apply elem_of_cons in H as [H|H]; [discriminate|]).
    by apply elem_of_nil in H.
Qed.

Lemma items_of_names (d : str) (fs : gmap Path str) (L : list str) :
  page_files d fs L ->
  map (fun it : str * str => it.1 ++ lit ".txt") (items_of d fs L) = L /\
  map (fun it : str * str => (it.1 ++ lit ".txt", it.2)) (items_of d fs L)
  = map (fun f => (f, read_back fs (in_dir d f))) L /\
  Forall (fun it : str * str => is_page_id it.1 = true /\ no_marker_line it.2 /\ cr ∉ it.2)
         (items_of d fs L).
Proof.
  intros HL. unfold items_of. rewrite !map_map. cbn [fst snd]. split; [|split].
  - rewrite <- (map_id L) at 2. apply map_ext_in. intros f Hf. apply list_elem_of_In in Hf.
    unfold page_files in HL. rewrite Forall_forall in HL.
    destruct (HL f Hf) as [(id & -> & Hid) _]. by rewrite replace_txt_page_id.
  - apply map_ext_in. intros f Hf. apply list_elem_of_In in Hf.
    unfold page_files in HL. rewrite Forall_forall in HL.
    destruct (HL f Hf) as [(id & -> & Hid) _]. by rewrite replace_txt_page_id.
  - apply Forall_map. eapply Forall_impl; [exact HL|].
    intros f [(id & -> & Hid) [_ Hno]]. cbn [fst snd].
    rewrite replace_txt_page_id by done. split; [done|]. split; [done|].
    apply universal_newlines_no_cr.
Qed.

(** Parsing the combined file of page files gives back the items. *)
Lemma parse_combined_file (env : Env) (d : str) (fs : gmap Path str) (L : list str) (w : World) :
  no_io_fault env ->
  page_files d fs L ->
  files w !! combined_path d
  = Some (combined_text (map (fun f => (f, read_back fs (in_dir d f))) L)) ->
  (parse_ocr_file env (combined_path d) w).1
  = Return (map (fun it => (it.1, strip it.2)) (items_of d fs L)).
Proof.
  intros Hio HL Hfile. destruct (items_of_names d fs L HL) as (_ & Hpairs & Hok).
  rewrite <- Hpairs in Hfile.
  rewrite (parse_ocr_file_ok env _ _ _ (file_text_no_fault env _ _ _ Hio Hfile)).
  rewrite universal_newlines_id.
  - f_equal. apply parse_combined_text.
    eapply Forall_impl; [exact Hok|]. by intros it (? & ? & _).
  - apply combined_text_no_cr. eapply Forall_impl; [exact Hok|]. by intros it (? & _ & ?).
Qed.

(** The page files of a directory, once sorted. *)
Lemma sorted_page_files (d : str) (fs : gmap Path str) (L : list str) :
  (forall f, is_translation_file f = true -> is_Some (fs !! in_dir d f) ->
     (exists id, f = id ++ lit ".txt" /\ is_page_id id = true) /\
     no_marker_line (read_back fs (in_dir d f))) ->
  sort_by natural_sort_key (List.filter is_translation_file (names_in d fs)) = Some L ->
  page_files d fs L.
Proof.
  intros Hfiles Hsort. apply Forall_forall. intros f Hf.
  apply (sorted_translation_files_elem d fs L f Hsort) in Hf as [Ht Hs].
  destruct (Hfiles f Ht Hs) as [Hid Hno]. done.
Qed.



(** ** A batch with one page that always fails *)

Section OneFatalPage.
Context (env : Env) (Hio : no_io_fault env).













(** The names of the artifacts, as the combiner sees them. *)
Lemma is_translation_file_output (id : str) :
  is_page_id id = true -> is_translation_file (id ++ lit ".txt") = true.
Proof.
  intros H. apply is_page_id_inv in H as (ds & -> & _).
  unfold is_translation_file, endswith. rewrite <- app_assoc, startswith_app.
  rewrite app_assoc, rev_app_distr, startswith_app. reflexivity.
Qed.






End OneFatalPage.

(** ** The summary of a batch *)















(** * Further properties of the script

    What follows is read off the code alone. *)

(** ** The retrying client, in general *)

Section Retries.
Context (env : Env) (text model : str).

Let rq := translate_params text model.




(** Whatever the service does: the calls of the loop are calls of the one
    request, at most one for each attempt; a result is the answer to the
    last of them. *)
Lemma translate_loop_bound (n : nat) (d : Z) (attempts : list nat) (w : World) :
  0 <= d ->
  let out := translate_loop env text model n d attempts w in
  exists k, (k <= length attempts)%nat /\
    calls out.2 = calls w ++ replicate k rq /\
    (length (slept out.2) <= length (slept w) + k)%nat /\
    (forall t, out.1 = Return t ->
       exists j, k = S j /\ remote env (calls w ++ replicate j rq) rq = Return t) /\
    (forall e, out.1 = Raise e ->
       e = attempts_exhausted n \/
       exists j, k = S j /\ remote env (calls w ++ replicate j rq) rq = Raise e).
Proof.
  intros Hd. revert w. induction attempts as [|a rest IH]; intros w.
  { exists 0%nat. cbn. rewrite app_nil_r. split; [lia|]. split; [done|]. split; [lia|].
    split; [done|]. intros e [= <-]. by left. }
  cbv zeta. rewrite translate_loop_cons.
  pose proof (translate_attempt_run env text model n d a w Hd) as [_ Hrun]. fold rq in Hrun.
  assert (Hone : forall w1, events w1 = events w ++ [Called rq] ->
            calls w1 = calls w ++ replicate 1 rq /\
            (length (slept w1) <= length (slept w) + 1)%nat).
  { intros w1 Hev. unfold calls, slept.
    rewrite Hev, calls_of_app, slept_of_app, length_app. cbn. split; [done | lia]. }
  destruct (remote env (calls w) rq) as [r|e] eqn:Hremote.
  - destruct (translate_attempt env text model n d a w) as [o w1]. cbn [fst snd] in *.
    destruct Hrun as [-> Hev]. destruct (Hone w1 Hev) as [Hc Hs].
    exists 1%nat. cbn [length fst snd]. split; [lia|]. split; [done|]. split; [done|]. split.
    + intros t [= <-]. exists 0%nat. cbn. by rewrite app_nil_r.
    + done.
  - assert (Hcases :
      ((translate_attempt env text model n d a w).1 = Raise e /\
       events (translate_attempt env text model n d a w).2 = events w ++ [Called rq]) \/
      ((translate_attempt env text model n d a w).1 = Return None /\
       events (translate_attempt env text model n d a w).2
       = events w ++ [Called rq; Slept (d * 2 ^ Z.of_nat a)])).
    { destruct e as [m|m|m]; [by right| |by left].
      destruct (a <? n - 1)%nat; [by right | by left]. }
    clear Hrun. destruct (translate_attempt env text model n d a w) as [o w1].
    cbn [fst snd] in *. destruct Hcases as [[-> Hev]|[-> Hev]].
    + destruct (Hone w1 Hev) as [Hc Hs].
      exists 1%nat. cbn [length fst snd]. split; [lia|]. split; [done|]. split; [done|].
      split; [done|]. intros e' [= <-]. right. exists 0%nat. cbn. by rewrite app_nil_r.
    + assert (Hc : calls w1 = calls w ++ [rq]) by (unfold calls; by rewrite Hev, calls_of_app).
      assert (Hs : length (slept w1) = S (length (slept w))).
      { unfold slept. rewrite Hev, slept_of_app, length_app. cbn. lia. }
      destruct (IH w1) as (k & Hk & Hcalls & Hslept & Hret & Hraise).
      exists (S k). cbn [length]. split; [lia|]. split; [|split; [lia|split]].
      * rewrite Hcalls, Hc, <- app_assoc. done.
      * intros t Ht. destruct (Hret t Ht) as (j & -> & Hj). exists (S j). split; [done|].
        rewrite Hc, <- app_assoc in Hj. exact Hj.
      * intros e' He'. destruct (Hraise e' He') as [->|(j & -> & Hj)]; [by left|].
        right. exists (S j). split; [done|]. rewrite Hc, <- app_assoc in Hj. exact Hj.
Qed.

End Retries.







(** ** What an operation leaves as it is *)

Global Instance same_events_preorder : PreOrder same_events.
Proof. split; [by intros w | intros w1 w2 w3 H1 H2; unfold same_events in *; congruence]. Qed.

Global Instance same_files_preorder : PreOrder same_files.
Proof. split; [by intros w | intros w1 w2 w3 H1 H2; unfold same_files in *; congruence]. Qed.

Global Instance no_file_lost_preorder : PreOrder no_file_lost.
Proof. split; [by intros w p | intros w1 w2 w3 H1 H2 p Hp; by apply H2, H1]. Qed.

Global Instance writes_within_preorder (area : Path -> Prop) : PreOrder (writes_within area).
Proof.
  split; [by intros w p | intros w1 w2 w3 H1 H2 p Hp].
  by rewrite (H2 p Hp), (H1 p Hp).
Qed.

Global Instance sends_only_preorder (allowed : Request -> Prop) : PreOrder (sends_only allowed).
Proof.
  split.
  - intros w. exists []. by rewrite app_nil_r.
  - intros w1 w2 w3 (l1 & H1 & Hl1) (l2 & H2 & Hl2). exists (l1 ++ l2). split.
    + by rewrite H2, H1, app_assoc.
    + by apply Forall_app.
Qed.

Section Keeps.
Context (R : relation World) `{!PreOrder R}.

Lemma keeps_ret {A} (a : A) : keeps R (ret a).
Proof. intros w. reflexivity. Qed.

Lemma keeps_raise {A} (e : exn) : keeps R (@raise A e).
Proof. intros w. reflexivity. Qed.

Lemma keeps_gets {A} (f : World -> A) : keeps R (gets f).
Proof. intros w. reflexivity. Qed.

Lemma keeps_lift_result {A} (r : result A) : keeps R (lift_result r).
Proof. intros w. reflexivity. Qed.

Lemma keeps_modify (f : World -> World) : (forall w, R w (f w)) -> keeps R (modify f).
Proof. intros H w. apply H. Qed.

Lemma keeps_bind {A B} (m : M A) (k : A -> M B) :
  keeps R m -> (forall a, keeps R (k a)) -> keeps R (m ≫= k).
Proof.
  intros Hm Hk w. rewrite run_bind. specialize (Hm w).
  destruct (m w) as [[a|e] w']; cbn [snd] in *; [|done].
  etrans; [exact Hm | apply Hk].
Qed.

Lemma keeps_try_except {A} (m : M A) (h : exn -> M A) :
  keeps R m -> (forall e, keeps R (h e)) -> keeps R (try_except m h).
Proof.
  intros Hm Hh w. unfold try_except. specialize (Hm w).
  destruct (m w) as [[a|e] w']; cbn [snd] in *; [done|].
  etrans; [exact Hm | apply Hh].
Qed.

Lemma keeps_for_each {A} (body : A -> M unit) (l : list A) :
  (forall x, x ∈ l -> keeps R (body x)) -> keeps R (for_each body l).
Proof.
  induction l as [|x l IH]; intros H; cbn [for_each]; [apply keeps_ret|].
  apply keeps_bind; [apply H; by left|]. intros _. apply IH. intros y Hy. apply H. by right.
Qed.

Lemma keeps_map_M {A B} (f : A -> M B) (l : list A) :
  (forall x, x ∈ l -> keeps R (f x)) -> keeps R (map_M f l).
Proof.
  induction l as [|x l IH]; intros H; cbn [map_M]; [apply keeps_ret|].
  apply keeps_bind; [apply H; by left|]. intros b.
  apply keeps_bind; [|intros bs; apply keeps_ret].
  apply IH. intros y Hy. apply H. by right.
Qed.

End Keeps.

(** Breaks an operation down to the changes of the world it is made of. *)
Ltac keeps_step :=
  first
    [ apply keeps_ret; apply _ | apply keeps_raise; apply _ | apply keeps_gets; apply _
    | apply keeps_lift_result; apply _
    | apply keeps_bind; [apply _| |intros ?]
    | apply keeps_try_except; [apply _| |intros ?]
    | apply keeps_for_each; [apply _|intros ? ?]
    | match goal with
      | |- keeps _ (match ?x with _ => _ end) => destruct x
      end ].

Ltac keeps_prims :=
  unfold logger, sleep, path_exists, now_isoformat, messages_create, read_text, open_write,
    file_write, mkdir, listdir, check_fault.

Ltac solve_keeps := repeat first [keeps_step | progress keeps_prims].

Lemma keeps_weaken {A} (R R' : relation World) (m : M A) :
  (forall w w', R w w' -> R' w w') -> keeps R m -> keeps R' m.
Proof. intros H Hm w. apply H, Hm. Qed.

Lemma writes_within_mono (area area' : Path -> Prop) (w w' : World) :
  (forall p, area p -> area' p) -> writes_within area w w' -> writes_within area' w w'.
Proof. intros H Hw p Hp. apply Hw. intros Ha. by apply Hp, H. Qed.

Lemma sends_only_mono (allowed allowed' : Request -> Prop) (w w' : World) :
  (forall rq, allowed rq -> allowed' rq) -> sends_only allowed w w' -> sends_only allowed' w w'.
Proof.
  intros H (sent & Hc & Hs). exists sent. split; [done|].
  eapply Forall_impl; [exact Hs | exact H].
Qed.

(** The changes of the world that the operations are made of. *)
Ltac same_events_leaf :=
  apply keeps_modify; intros [? ? ? ?]; reflexivity.

Ltac same_files_leaf :=
  apply keeps_modify; intros [? ? ? ?]; reflexivity.

Ltac no_file_lost_leaf :=
  apply keeps_modify; intros [? ? ? ?] ? ?; cbn [files set_files set_logged set_events set_clock
    events clock logged] in *;
  first [ assumption | apply lookup_insert_is_Some'; by right ].

Ltac writes_within_leaf :=
  apply keeps_modify;
  let q := fresh "q" in let Hq := fresh "Hq" in
  intros [? ? ? ?] q Hq; cbn [files set_files set_logged set_events set_clock
    events clock logged] in *;
  first [ reflexivity
        | rewrite lookup_insert_ne; [reflexivity | intros <-; apply Hq; auto] ].

Ltac sends_only_leaf :=
  apply keeps_modify; intros [? ? ? ?]; unfold sends_only, calls;
  cbn [files set_files set_logged set_events set_clock events clock logged];
  first [ by (exists []; rewrite app_nil_r)
        | by (exists []; rewrite calls_of_app, !app_nil_r)
        | by (eexists [_]; rewrite calls_of_app; split; [reflexivity | repeat constructor]) ].

Section Invariants.
Context (env : Env).

(** *** The parser *)

Lemma parse_ocr_file_same_events (p : Path) : keeps same_events (parse_ocr_file env p).
Proof. unfold parse_ocr_file. solve_keeps; same_events_leaf. Qed.

Lemma parse_ocr_file_same_files (p : Path) : keeps same_files (parse_ocr_file env p).
Proof. unfold parse_ocr_file. solve_keeps; same_files_leaf. Qed.

(** *** The processor *)

Lemma process_page_sends (page_id text d model : str) (force_retranslate : bool) :
  keeps (sends_only (eq (translate_params text model)))
        (process_page env (page_id, text, d, model, force_retranslate)).
Proof.
  unfold process_page, process_page_try, process_page_except.
  solve_keeps; sends_only_leaf.
Qed.

Lemma process_page_no_file_lost (page_id text d model : str) (force_retranslate : bool) :
  keeps no_file_lost (process_page env (page_id, text, d, model, force_retranslate)).
Proof.
  unfold process_page, process_page_try, process_page_except.
  solve_keeps; no_file_lost_leaf.
Qed.

Lemma process_page_writes_within (page_id text d model : str) (force_retranslate : bool) :
  keeps (writes_within (page_artifacts d page_id))
        (process_page env (page_id, text, d, model, force_retranslate)).
Proof.
  unfold process_page, process_page_try, process_page_except.
  solve_keeps; unfold page_artifacts, output_path, metadata_path, error_path;
    writes_within_leaf.
Qed.

(** *** The combiner and the end of the run *)

Lemma create_combined_translation_same_events (d : str) :
  keeps same_events (create_combined_translation env d).
Proof. unfold create_combined_translation, combine_page. solve_keeps; same_events_leaf. Qed.

Lemma finish_batch_same_events (args : Args) (page_entries : list (str * str))
    (results : list (str * Status)) :
  keeps same_events (finish_batch env args page_entries results).
Proof.
  unfold finish_batch. solve_keeps;
    first [apply create_combined_translation_same_events | same_events_leaf].
Qed.

(** *** The batch *)

Lemma process_args_elem (args : Args) (page_entries : list (str * str)) (x : ProcessArgs) :
  x ∈ process_args args page_entries ->
  exists e, e ∈ page_entries /\ x = (e.1, e.2, output args, model args, force args).
Proof.
  unfold process_args. intros H. apply list_elem_of_fmap in H as (e & -> & He). by exists e.
Qed.

Lemma page_artifacts_batch_area (d page_id : str) (p : Path) :
  page_artifacts d page_id p -> batch_area d p.
Proof. intros [->|[->| ->]]; [by left | by left | by right]. Qed.

Lemma run_batch_sends (args : Args) (page_entries : list (str * str)) :
  keeps (sends_only (request_of (model args) page_entries)) (run_batch env args page_entries).
Proof.
  unfold run_batch, log_batch_start. solve_keeps; try sends_only_leaf.
  apply keeps_map_M; [apply _|]. intros x (e & He & ->)%process_args_elem.
  eapply keeps_weaken; [|apply process_page_sends].
  intros w w'. apply sends_only_mono. intros rq <-. by exists e.
Qed.

Lemma run_batch_no_file_lost (args : Args) (page_entries : list (str * str)) :
  keeps no_file_lost (run_batch env args page_entries).
Proof.
  unfold run_batch, log_batch_start. solve_keeps; try no_file_lost_leaf.
  apply keeps_map_M; [apply _|]. intros x (e & He & ->)%process_args_elem.
  apply process_page_no_file_lost.
Qed.

Lemma run_batch_writes_within (args : Args) (page_entries : list (str * str)) :
  keeps (writes_within (batch_area (output args))) (run_batch env args page_entries).
Proof.
  unfold run_batch, log_batch_start, batch_area.
  solve_keeps; try writes_within_leaf.
  apply keeps_map_M; [apply _|]. intros x (e & He & ->)%process_args_elem.
  eapply keeps_weaken; [|apply process_page_writes_within].
  intros w w'. apply writes_within_mono, page_artifacts_batch_area.
Qed.

End Invariants.

(** ** [main] *)

Section Main.
Context (env : Env).

(** [parse_ocr_file] never raises: it returns what is parsed from the text
    of the file, and the empty list when the file cannot be read. *)
Lemma parse_ocr_file_cases (p : Path) (w : World) :
  (parse_ocr_file env p w).1
  = Return (match file_text env (files w) p with
            | Some text => parse_content text
            | None => []
            end).
Proof.
  unfold parse_ocr_file, file_text, read_text, check_fault. destruct w as [evs clk fs lg].
  run_M. unfold Msg, Path, str in *.
  destruct (io_fault env OpOpenRead p); run_M; [done|].
  destruct (fs !! p) as [content|] eqn:Hfile; run_M; [|done].
  by destruct (io_fault env OpDecode p); run_M.
Qed.

Lemma main_unfold (args : Args) (w : World) :
  main env args w =
  match io_fault env OpMkdir (output args, []) with
  | Some e => (Raise e, w)
  | None =>
      match parse_ocr_file env (ocr_file args) w with
      | (Return page_entries, w') =>
          if bool_decide (selected (pages args) page_entries = [])
          then
            (Return tt,
             set_logged (fun l => l ++
               [(ERROR,
                 if bool_decide (page_entries = [])
                 then [FS (lit "No pages found in OCR file "); FS (path_str (ocr_file args))]
                 else [FS (lit "None of the specified pages were found")])]) w')
          else run_batch env args (selected (pages args) page_entries) w'
      | (Raise e, w') => (Raise e, w')
      end
  end.
Proof.
  unfold main, mkdir, check_fault. rewrite run_bind.
  destruct (io_fault env OpMkdir (output args, [])) as [e|]; [done|].
  unfold ret at 1. rewrite run_bind.
  destruct (parse_ocr_file env (ocr_file args) w) as [[page_entries|e] w']; [|done].
  unfold selected. destruct (decide (page_entries = [])) as [->|Hne].
  - rewrite (bool_decide_eq_true_2 ([] = [])) by done.
    destruct (bool_decide (pages args = [])); by rewrite bool_decide_eq_true_2.
  - rewrite (bool_decide_eq_false_2 (page_entries = [])) by done.
    destruct (bool_decide (pages args = [])) eqn:Hp.
    + by rewrite bool_decide_eq_false_2.
    + by destruct (bool_decide (List.filter _ page_entries = [])).
Qed.

End Main.

(** X4. One call of [process_page] for a page whose identifier is a plain
    file name, whatever the service and the file system do and whether it
    returns or raises: the log apart, it writes no file other than the output
    file, the metadata file and the error record of its page; every file that
    was there before is still there; and every remote call it makes is the
    request for the text of its page. *)
Theorem X4_process_page_touches_its_artifacts_only
    (env : Env) (page_id text output_directory model : str) (force_retranslate : bool)
    (w : World) :
  is_file_name page_id = true ->
  let out := process_page env (page_id, text, output_directory, model, force_retranslate) w in
  (forall p, p <> output_path output_directory page_id ->
             p <> metadata_path output_directory page_id ->
             p <> error_path output_directory page_id ->
             files out.2 !! p = files w !! p) /\
  (forall p, is_Some (files w !! p) -> is_Some (files out.2 !! p)) /\
  exists k, calls out.2 = calls w ++ replicate k (translate_params text model).
Proof.
  intros _. cbv zeta. split; [|split].
  - intros p H1 H2 H3.
    apply (process_page_writes_within env page_id text output_directory model
             force_retranslate w).
    by intros [?|[?|?]].
  - apply (process_page_no_file_lost env page_id text output_directory model
             force_retranslate w).
  - destruct (process_page_sends env page_id text output_directory model force_retranslate w)
      as (sent & Hc & Hs).
    exists (length sent). rewrite Hc. f_equal.
    clear Hc. induction Hs as [|rq sent <- _ IH]; [done|]. cbn. by rewrite <- IH.
Qed.

Lemma X4_witness :
  let out := process_page env_metadata_denied
               (lit "page_1", lit "salam", lit "out", lit "m", false) (world_of stale_files) in
  (forall p, p <> output_path (lit "out") (lit "page_1") ->
             p <> metadata_path (lit "out") (lit "page_1") ->
             p <> error_path (lit "out") (lit "page_1") ->
             files out.2 !! p = files (world_of stale_files) !! p) /\
  (forall p, is_Some (files (world_of stale_files) !! p) -> is_Some (files out.2 !! p)) /\
  exists k, calls out.2
            = calls (world_of stale_files) ++ replicate k (translate_params (lit "salam") (lit "m")).
Proof.
  apply (X4_process_page_touches_its_artifacts_only env_metadata_denied
           (lit "page_1") (lit "salam") (lit "out") (lit "m") false (world_of stale_files)).
  reflexivity.
Defined.

(** X6. Every remote call that [main] makes is the request -- with the
    model of the command line, the fixed system prompt and 4000 tokens -- for
    the text of a page parsed from the OCR file as it was at the start and
    selected by [--pages]; no other text is ever sent.  The markers of the
    file are taken to be written with ASCII digits. *)
Theorem X6_main_sends_selected_pages_only (env : Env) (args : Args) (w : World) :
  (forall text, file_text env (files w) (ocr_file args) = Some text ->
                markers_ascii text = true) ->
  exists sent,
    calls (main env args w).2 = calls w ++ sent /\
    Forall (fun rq =>
              exists text e,
                file_text env (files w) (ocr_file args) = Some text /\
                e ∈ selected (pages args) (parse_content text) /\
                rq = translate_params e.2 (model args)) sent.
Proof.
  intros _. rewrite main_unfold. destruct (io_fault env OpMkdir (output args, [])) as [e|].
  { exists []. by rewrite app_nil_r. }
  pose proof (parse_ocr_file_cases env (ocr_file args) w) as Hr.
  pose proof (parse_ocr_file_same_events env (ocr_file args) w) as He.
  destruct (parse_ocr_file env (ocr_file args) w) as [r w']. cbn [fst snd] in *. subst r.
  assert (Hcalls : calls w' = calls w) by (unfold calls; by rewrite He).
  case_bool_decide as Hsel.
  { exists []. cbn [snd]. rewrite app_nil_r, <- Hcalls. by destruct w'. }
  destruct (file_text env (files w) (ocr_file args)) as [text|] eqn:Hfile.
  2:{ exfalso. apply Hsel. unfold selected. by case_bool_decide. }
  destruct (run_batch_sends env args (selected (pages args) (parse_content text)) w')
    as (sent & Hc & Hs).
  exists sent. rewrite Hc, Hcalls. split; [done|].
  eapply Forall_impl; [exact Hs|]. intros rq (e & Hin & ->). by exists text, e.
Qed.

Lemma X6_witness :
  let args :=
    {| ocr_file := ocr_path; output := lit "out"; model := lit "m"; workers := 1;
       force := false; pages := [lit "page_22"]; create_combined := false |} in
  exists sent,
    calls (main (env_of remote_echo) args (ocr_world crlf_pages)).2
      = calls (ocr_world crlf_pages) ++ sent /\
    Forall (fun rq =>
              exists text e,
                file_text (env_of remote_echo) (files (ocr_world crlf_pages)) (ocr_file args)
                  = Some text /\
                e ∈ selected (pages args) (parse_content text) /\
                rq = translate_params e.2 (model args)) sent.
Proof.
  intros args.
  apply (X6_main_sends_selected_pages_only (env_of remote_echo) args (ocr_world crlf_pages)).
  intros text Hfile. vm_compute in Hfile. injection Hfile as <-. vm_compute. reflexivity.
Defined.

(** X7. [main] removes no file and, the log apart, creates or changes
    files only in the output directory and in its [errors] directory, however
    it ends. *)
Theorem X7_main_writes_in_the_output_directory_only (env : Env) (args : Args) (w : World) :
  let out := main env args w in
  (forall p, is_Some (files w !! p) -> is_Some (files out.2 !! p)) /\
  (forall p, p.1 <> output args -> p.1 <> subdir (output args) (lit "errors") ->
             files out.2 !! p = files w !! p).
Proof.
  cbv zeta. rewrite main_unfold.
  destruct (io_fault env OpMkdir (output args, [])) as [e|]; [done|].
  pose proof (parse_ocr_file_same_files env (ocr_file args) w) as Hf. unfold same_files in Hf.
  destruct (parse_ocr_file env (ocr_file args) w) as [[page_entries|e] w'];
    cbn [fst snd] in *; [|by rewrite Hf].
  case_bool_decide as Hsel.
  { cbn [snd]. destruct w'. cbn [files set_logged] in *. by rewrite Hf. }
  split.
  - intros p Hp.
    apply (run_batch_no_file_lost env args (selected (pages args) page_entries) w').
    by rewrite Hf.
  - intros p H1 H2. rewrite <- Hf.
    apply (run_batch_writes_within env args (selected (pages args) page_entries) w').
    by intros [?|?].
Qed.

(** ** One page, and the batch, in general *)



Section Abort.
Context (env : Env) (d : str) (x : exn).
Context (Hdir : io_fault env OpMkdir (subdir d (lit "errors"), []) = Some x).




End Abort.






Section NoFault.
Context (env : Env) (Hio : no_io_fault env).



End NoFault.



(** ** The combiner, in general *)

Section CombinerAny.
Context (env : Env) (d : str).
Context (Hopen : io_fault env OpOpenWrite (combined_path d) = None).
Context (Hwrite : io_fault env OpWrite (combined_path d) = None).

(** One turn of the loop, whether the file can be read or not. *)
Lemma combine_page_any (f acc : str) (w : World) :
  in_dir d f <> combined_path d ->
  files w !! combined_path d = Some acc ->
  let out := combine_page env d (combined_path d) f w in
  out.1 = Return tt /\
  files out.2 = <[combined_path d := acc ++ combined_block env d (files w) f]> (files w).
Proof.
  intros Hne Hacc. unfold combine_page, combined_block, file_text, read_text, file_write,
    check_fault.
  rewrite !Hwrite. destruct w as [evs clk fs lg]. cbn [files] in *. run_M.
  unfold Msg, Path, str in *. rewrite Hacc. cbn [default]. unfold id.
  destruct (io_fault env OpOpenRead (in_dir d f)); run_M.
  { split; [done|]. by rewrite app_nil_r. }
  rewrite lookup_insert_ne by done.
  repeat (match goal with
          | |- context [match ?t with Some _ => _ | None => _ end] =>
              let E := fresh "E" in destruct t eqn:E; try rewrite !E
          end; run_M);
    (split; [done|]);
    first [ by rewrite app_nil_r
          | rewrite !lookup_insert_eq; cbn [default from_option];
            by rewrite !insert_insert_eq, <- !app_assoc ].
Qed.

Lemma for_each_combine_page_any (l : list str) (acc : str) (w : World) :
  Forall (fun f => in_dir d f <> combined_path d) l ->
  files w !! combined_path d = Some acc ->
  let out := for_each (combine_page env d (combined_path d)) l w in
  out.1 = Return tt /\
  files out.2 =
    <[combined_path d := acc ++ concat (map (combined_block env d (files w)) l)]> (files w).
Proof.
  revert acc w. induction l as [|f l IH]; intros acc w Hall Hacc.
  - cbn. rewrite app_nil_r. split; [done|]. by rewrite insert_id.
  - apply Forall_cons in Hall as [Hne Hall]. cbn [for_each]. rewrite run_bind.
    destruct (combine_page_any f acc w Hne Hacc) as (Hr & Hfs).
    destruct (combine_page env d (combined_path d) f w) as [r w1]. cbn [fst snd] in *.
    subst r.
    destruct (IH (acc ++ combined_block env d (files w) f) w1 Hall) as (Hr' & Hfs').
    { by rewrite Hfs, lookup_insert_eq. }
    split; [done|]. rewrite Hfs', Hfs, insert_insert_eq. f_equal.
    cbn [map concat]. rewrite <- !app_assoc. do 2 f_equal. f_equal.
    apply map_ext_in. intros f' Hf'. apply list_elem_of_In in Hf'.
    rewrite Forall_forall in Hall. unfold combined_block, file_text.
    by rewrite lookup_insert_ne by (apply not_eq_sym, Hall, Hf').
Qed.

End CombinerAny.

(** The combiner when the directory can be listed and the combined file
    written. *)
Lemma create_combined_translation_any (env : Env) (d : str) (w : World) :
  io_fault env OpListdir (d, []) = None ->
  io_fault env OpOpenWrite (combined_path d) = None ->
  io_fault env OpWrite (combined_path d) = None ->
  let out := create_combined_translation env d w in
  exists L,
    sort_by natural_sort_key (List.filter is_translation_file (names_in d (files w))) = Some L /\
    (forall f, f ∈ L <-> is_translation_file f = true /\ is_Some (files w !! in_dir d f)) /\
    out.1 = Return tt /\
    if bool_decide (L = [])
    then files out.2 = files w /\
         logged out.2
         = logged w ++ [(WARNING, [FS (lit "No translation files found to combine")])]
    else files out.2
         = <[combined_path d := concat (map (combined_block env d (files w)) L)]> (files w).
Proof.
  intros Hlist Hopen Hwrite. cbv zeta.
  destruct (sort_by_natural_total (List.filter is_translation_file (names_in d (files w))))
    as (L & Hsort & _).
  exists L. split; [done|]. split; [intros f; by apply sorted_translation_files_elem|].
  assert (Hall : Forall (fun f => in_dir d f <> combined_path d) L).
  { apply Forall_forall. intros f Hf.
    apply (sorted_translation_files_elem d (files w) L f Hsort) in Hf as [Ht _].
    by apply translation_file_not_combined. }
  destruct w as [evs clk fs lg]. cbn [files logged] in *.
  unfold create_combined_translation, listdir, open_write, check_fault.
  rewrite Hlist. change (in_dir d (lit "combined_translation.txt")) with (combined_path d).
  rewrite Hopen. run_M. rewrite Hsort.
  destruct (decide (L = [])) as [->|Hne].
  { rewrite !bool_decide_eq_true_2 by done. by run_M. }
  rewrite !bool_decide_eq_false_2 by done. run_M.
  pose (w1 := {| events := evs; clock := clk; files := <[combined_path d := []]> fs;
                 logged := lg |}).
  destruct (for_each_combine_page_any env d Hwrite L [] w1 Hall) as (Hr & Hfs).
  { cbn [files w1]. by rewrite lookup_insert_eq. }
  fold w1. destruct (for_each _ L w1) as [r [evs2 clk2 fs2 lg2]].
  cbn [fst snd files w1] in *. subst. split; [done|].
  rewrite insert_insert_eq. cbn [app]. do 2 f_equal.
  apply map_ext_in. intros f Hf. apply list_elem_of_In in Hf.
  rewrite Forall_forall in Hall. unfold combined_block, file_text.
  by rewrite lookup_insert_ne by (apply not_eq_sym, Hall, Hf).
Qed.



(** ** The parser, on any text *)

Lemma findall_from_page_ids (fuel : nat) (s : str) :
  Forall (fun m => is_page_id m.1 = true) (findall_from fuel s).
Proof.
  revert s. induction fuel as [|fuel IH]; intros s; [constructor|].
  cbn [findall_from].
  destruct (page_pattern_match s) as [[[id body] rest]|] eqn:E.
  - constructor; [|apply IH]. by apply page_pattern_match_Some in E as [Hid _].
  - destruct s as [|c s]; [constructor | apply IH].
Qed.

(** X12. Whatever the text of the OCR file, as long as the digits of its
    page markers are ASCII digits, every entry that the parser returns has an
    identifier of the form [page_<digits>] and a text without leading or
    trailing whitespace.  Hence the name [<id>.txt] under which
    [process_page] stores its translation is always one that the combiner
    keeps, and the combiner recovers the identifier from it. *)
Theorem X12_parsed_entries_are_well_formed (content : str) :
  markers_ascii content = true ->
  Forall (fun e : str * str =>
            is_page_id e.1 = true /\
            strip e.2 = e.2 /\
            is_translation_file (e.1 ++ lit ".txt") = true /\
            replace (lit ".txt") [] (e.1 ++ lit ".txt") = e.1)
         (parse_content content).
Proof.
  intros _. unfold parse_content, findall. apply Forall_map.
  eapply Forall_impl; [apply findall_from_page_ids|].
  intros [id body] Hid. cbn [fst snd] in *.
  split; [done|]. split; [apply strip_idemp|].
  split; [by apply is_translation_file_output | by apply replace_txt_page_id].
Qed.

Lemma X12_witness :
  Forall (fun e : str * str =>
            is_page_id e.1 = true /\
            strip e.2 = e.2 /\
            is_translation_file (e.1 ++ lit ".txt") = true /\
            replace (lit ".txt") [] (e.1 ++ lit ".txt") = e.1)
         (parse_content (universal_newlines crlf_pages)).
Proof.
  apply (X12_parsed_entries_are_well_formed (universal_newlines crlf_pages)).
  vm_compute. reflexivity.
Defined.

(** ** The results file of the OCR script *)

Lemma ocr_results_text_blocks (results : list (str * str)) :
  ocr_results_text results = blocks_text (ocr_blocks results).
Proof.
  unfold ocr_results_text. induction results as [|[id c] results IH]; [done|].
  cbn [map concat fst snd]. rewrite IH. destruct results as [|r results].
  - cbn [ocr_blocks blocks_text fst snd]. unfold block_text, marker_line. cbn [fst snd].
    rewrite <- ?app_assoc. cbn [app]. by rewrite ?app_nil_r.
  - change (ocr_blocks ((id, c) :: r :: results))
      with ((id, c ++ [nl]) :: ocr_blocks (r :: results)).
    set (rest := ocr_blocks (r :: results)).
    assert (Hrest : rest <> []) by (subst rest; by destruct results).
    destruct rest as [|b rest]; [done|].
    change (blocks_text ((id, c ++ [nl]) :: b :: rest))
      with (block_text (id, c ++ [nl]) ++ [nl] ++ blocks_text (b :: rest)).
    unfold block_text, marker_line. cbn [fst snd].
    rewrite <- ?app_assoc. cbn [app]. by rewrite <- ?app_assoc.
Qed.

Lemma no_marker_line_snoc_nl (c tl : str) :
  no_marker_line c -> tl = [nl] \/ tl = [nl; nl] -> no_marker_line (c ++ tl).
Proof.
  unfold no_marker_line. intros Hc [-> | ->].
  - rewrite lines_app_nl. apply Forall_app. split; [done | by repeat constructor].
  - rewrite lines_app_nl. apply Forall_app. split; [done | by repeat constructor].
Qed.

Lemma ocr_blocks_ok (results : list (str * str)) :
  Forall (fun r => is_page_id r.1 = true /\ no_marker_line r.2) results ->
  Forall (fun b => is_page_id b.1 = true /\ no_marker_line b.2) (ocr_blocks results) /\
  map (fun b => (b.1, strip b.2)) (ocr_blocks results)
  = map (fun r => (r.1, strip r.2)) results.
Proof.
  assert (Hnl : is_space nl = true) by reflexivity.
  induction 1 as [|[id c] results [Hid Hc] _ [IH1 IH2]]; [done|].
  cbn [fst snd] in *. destruct results as [|r results].
  - cbn [ocr_blocks map fst snd]. split.
    + constructor; [|constructor]. split; [done|]. apply no_marker_line_snoc_nl; auto.
    + change [nl; nl] with ([nl] ++ [nl]). by rewrite app_assoc, !strip_snoc_space.
  - change (ocr_blocks ((id, c) :: r :: results))
      with ((id, c ++ [nl]) :: ocr_blocks (r :: results)).
    split.
    + constructor; [|done]. split; [done|]. apply no_marker_line_snoc_nl; auto.
    + cbn [map fst snd]. by rewrite IH2, strip_snoc_space.
Qed.

Section OcrResults.
Context (env : Env) (p : Path).
Context (Hopen : io_fault env OpOpenWrite p = None) (Hwrite : io_fault env OpWrite p = None).

Lemma write_ocr_results_loop (results : list (str * str)) (acc : str) (w : World) :
  files w !! p = Some acc ->
  let out :=
    for_each (fun r : str * str =>
                file_write env p (lit "===== " ++ r.1 ++ lit " =====" ++ [nl]) ;;
                file_write env p r.2 ;;
                file_write env p [nl; nl])
             results w in
  out.1 = Return tt /\ events out.2 = events w /\
  files out.2 = <[p := acc ++ ocr_results_text results]> (files w).
Proof.
  revert acc w. induction results as [|[id c] results IH]; intros acc w Hacc.
  - cbn. unfold ocr_results_text. cbn. rewrite app_nil_r, insert_id; done.
  - cbn [for_each]. rewrite run_bind.
    set (body := file_write env p _ ;; _).
    assert (Hbody : body w = (Return tt,
              set_files (insert p (acc ++ lit "===== " ++ id ++ lit " =====" ++ [nl] ++ c
                                   ++ [nl; nl])) w)).
    { subst body. unfold file_write, check_fault. rewrite !Hwrite.
      destruct w as [evs clk fs lg]. cbn [files] in Hacc. run_M.
      unfold Msg, Path, str in *. rewrite Hacc, !lookup_insert_eq. cbn [default from_option].
      rewrite !insert_insert_eq. cbn [fst snd]. unfold Datatypes.id.
      by rewrite <- !app_assoc. }
    rewrite Hbody.
    destruct (IH (acc ++ lit "===== " ++ id ++ lit " =====" ++ [nl] ++ c ++ [nl; nl])
                 (set_files (insert p (acc ++ lit "===== " ++ id ++ lit " =====" ++ [nl] ++ c
                                       ++ [nl; nl])) w))
      as (Hr & Hev & Hfs).
    { destruct w. cbn. by rewrite lookup_insert_eq. }
    split; [done|]. split; [rewrite Hev; by destruct w|].
    rewrite Hfs. destruct w as [evs clk fs lg]. cbn [files set_files].
    rewrite insert_insert_eq. f_equal. unfold ocr_results_text. cbn [map concat fst snd].
    by rewrite <- !app_assoc.
Qed.

(** The results file after the last block of the OCR script. *)
Lemma write_ocr_results_run (results : list (str * str)) (w : World) :
  let out := write_ocr_results env p results w in
  out.1 = Return tt /\ events out.2 = events w /\
  files out.2 = <[p := ocr_results_text results]> (files w).
Proof.
  cbv zeta. unfold write_ocr_results. rewrite run_bind.
  assert (Hfirst : open_write env p w = (Return tt, set_files (insert p []) w)).
  { unfold open_write, check_fault. rewrite Hopen. by destruct w. }
  rewrite Hfirst. cbv beta iota.
  destruct (write_ocr_results_loop results [] (set_files (insert p []) w))
    as (Hr & Hev & Hfs).
  { destruct w. cbn. by rewrite lookup_insert_eq. }
  split; [done|]. split; [rewrite Hev; by destruct w|].
  rewrite Hfs. destruct w. cbn [files set_files]. by rewrite insert_insert_eq.
Qed.

End OcrResults.

Lemma ocr_results_text_no_cr (results : list (str * str)) :
  Forall (fun r => is_page_id r.1 = true /\ cr ∉ r.2) results ->
  cr ∉ ocr_results_text results.
Proof.
  unfold ocr_results_text.
  induction 1 as [|[id c] results [Hid Hc] _ IH]; [apply not_elem_of_nil|].
  cbn [map concat fst snd] in *. rewrite !not_elem_of_app. repeat split; try done.
  - intros H. repeat (apply elem_of_cons in H as [H|H]; [discriminate|]).
    by apply elem_of_nil in H.
  - by apply is_page_id_no_cr.
  - intros H. repeat (apply elem_of_cons in H as [H|H]; [discriminate|]).
    by apply elem_of_nil in H.
  - intros H. repeat (apply elem_of_cons in H as [H|H]; [discriminate|]).
    by apply elem_of_nil in H.
  - intros H. repeat (apply elem_of_cons in H as [H|H]; [discriminate|]).
    by apply elem_of_nil in H.
Qed.

(** X13. The results file that the OCR script writes is read back by the
    translator: when the pages are named [page_<digits>], their texts hold
    no carriage return and no line of them begins with [=====],
    [parse_ocr_file] on the file written for [results] returns the same
    pages in the same order, each text stripped of its surrounding
    whitespace. *)
Theorem X13_ocr_results_file_parses_back
    (env : Env) (p : Path) (results : list (str * str)) (w : World) :
  no_io_fault env ->
  Forall (fun r => is_page_id r.1 = true /\ no_marker_line r.2 /\ cr ∉ r.2) results ->
  let written := write_ocr_results env p results w in
  written.1 = Return tt /\
  files written.2 !! p = Some (ocr_results_text results) /\
  (parse_ocr_file env p written.2).1 = Return (map (fun r => (r.1, strip r.2)) results).
Proof.
  intros Hio Hres. cbv zeta.
  destruct (write_ocr_results_run env p (Hio _ _) (Hio _ _) results w) as (Hr & _ & Hfs).
  assert (Hfile : files (write_ocr_results env p results w).2 !! p
                  = Some (ocr_results_text results)) by (by rewrite Hfs, lookup_insert_eq).
  split; [done|]. split; [done|].
  rewrite (parse_ocr_file_ok env p _ _ (file_text_no_fault env _ _ _ Hio Hfile)).
  rewrite universal_newlines_id.
  2:{ apply ocr_results_text_no_cr. eapply Forall_impl; [exact Hres|]. by intros r (? & _ & ?). }
  f_equal.
  destruct (ocr_blocks_ok results) as [Hok Hmap].
  { eapply Forall_impl; [exact Hres|]. by intros r (? & ? & _). }
  rewrite ocr_results_text_blocks. unfold parse_content, findall.
  rewrite findall_from_blocks by (done || lia). done.
Qed.

Lemma X13_witness :
  let p := (lit "in", lit "ocr_results.txt") in
  let written := write_ocr_results (env_of remote_echo) p two_pages empty_world in
  (parse_ocr_file (env_of remote_echo) p written.2).1 = Return two_pages.
Proof.
  destruct (X13_ocr_results_file_parses_back (env_of remote_echo)
              (lit "in", lit "ocr_results.txt") two_pages empty_world) as (_ & _ & H).
  - intros op q. reflexivity.
  - repeat constructor; by apply (bool_decide_unpack _).
  - exact H.
Defined.

(** ** [escape_latex] *)

(** Replacing a single character is a substitution character by character. *)
Lemma replace_char (c : ascii) (new s : str) :
  replace [c] new s = flat_map (fun x => if bool_decide (c = x) then new else [x]) s.
Proof.
  unfold replace. induction s as [|x s IH]; [done|].
  cbn [replace_from flat_map length Nat.sub]. rewrite startswith_cons.
  change (startswith s []) with true. rewrite andb_true_r, IH.
  by destruct (bool_decide (c = x)).
Qed.

Lemma flat_map_comp {A B C} (f : A -> list B) (g : B -> list C) (l : list A) :
  flat_map g (flat_map f l) = flat_map (fun x => flat_map g (f x)) l.
Proof.
  induction l as [|x l IH]; [done|]. cbn [flat_map]. by rewrite flat_map_app, IH.
Qed.

(** X14. [escape_latex] replaces the ten characters one after the other,
    the backslash last; so the backslashes that the earlier replacements have
    inserted are replaced too.  Character by character: each of [& % $ # _ { }]
    becomes [\textbackslash{}] followed by the character itself, left as it
    was; [~] becomes [\textbackslash{}textasciitilde{}], [^] becomes
    [\textbackslash{}^{}], a backslash becomes [\textbackslash{}]; every other
    character is kept. *)
Theorem X14_escape_latex_character_by_character (text : str) :
  escape_latex text = flat_map escaped_char text.
Proof.
  unfold escape_latex, escapes. cbn [fold_left fst snd].
  change (lit "&") with ["&"%char]. change (lit "%") with ["%"%char].
  change (lit "$") with ["$"%char]. change (lit "#") with ["#"%char].
  change (lit "_") with ["_"%char]. change (lit "{") with ["{"%char].
  change (lit "}") with ["}"%char]. change (lit "~") with ["~"%char].
  change (lit "^") with ["^"%char].
  rewrite !replace_char, !flat_map_comp.
  apply flat_map_ext. intros c.
  destruct c as [[] [] [] [] [] [] [] []]; vm_compute; reflexivity.
Qed.

(** ** [load_translations] *)

Section Loader.
Context (env : Env) (d : str).

(** Reading one file changes nothing. *)
Lemma read_text_run (p : Path) (w : World) :
  exists r, read_text env p w = (r, w) /\
    match file_text env (files w) p with
    | Some content => r = Return content
    | None => exists e, r = Raise e
    end.
Proof.
  unfold read_text, file_text, check_fault. destruct w as [evs clk fs lg]. run_M.
  unfold Msg, Path, str in *.
  destruct (io_fault env OpOpenRead p); run_M; [by eauto|].
  repeat (match goal with
          | |- context [match ?t with Some _ => _ | None => _ end] =>
              let E := fresh "E" in destruct t eqn:E; try rewrite !E
          end; run_M); by eauto.
Qed.

(** The loop over the sorted names: all the entries, or the first
    exception. *)
Lemma load_entries_run (L : list str) (w : World) :
  exists r,
    map_M (fun filename =>
             content ← read_text env (in_dir d filename);
             ret (replace (lit ".txt") [] filename, strip content)) L w = (r, w) /\
    match mapM (loaded_entry env d (files w)) L with
    | Some entries => r = Return entries
    | None => exists e, r = Raise e
    end.
Proof.
  induction L as [|f L IH]; [by exists (Return [])|].
  cbn [map_M mapM]. rewrite run_bind, run_bind.
  destruct (read_text_run (in_dir d f) w) as (r1 & -> & Hr1).
  unfold loaded_entry in *.
  destruct (file_text env (files w) (in_dir d f)) as [content|] eqn:E;
    rewrite ?E in Hr1 |- *; cbn [mbind option_bind].
  2:{ destruct Hr1 as [e ->]. exists (Raise e). split; [done|]. by exists e. }
  subst r1. unfold ret at 1. rewrite run_bind.
  destruct IH as (r & -> & Hr).
  destruct (mapM _ L) as [entries|]; cbn [mbind option_bind].
  - subst r. by eexists.
  - destruct Hr as [e ->]. exists (Raise e). split; [done|]. by exists e.
Qed.

End Loader.

Lemma load_translations_run (env : Env) (d : str) (w : World) :
  let out := load_translations env d w in
  exists L,
    sort_by natural_sort_key (List.filter is_translation_file (names_in d (files w))) = Some L /\
    out.1 = Return (match io_fault env OpListdir (d, []) with
                    | Some _ => []
                    | None => default [] (mapM (loaded_entry env d (files w)) L)
                    end) /\
    files out.2 = files w /\ events out.2 = events w.
Proof.
  cbv zeta.
  destruct (sort_by_natural_total (List.filter is_translation_file (names_in d (files w))))
    as (L & Hsort & _).
  exists L. split; [done|].
  assert (H : exists w',
            load_translations env d w =
            (Return (match io_fault env OpListdir (d, []) with
                     | Some _ => []
                     | None => default [] (mapM (loaded_entry env d (files w)) L)
                     end), w') /\
            files w' = files w /\ events w' = events w).
  { unfold load_translations, try_except. rewrite run_bind.
    unfold listdir, check_fault. rewrite run_bind.
    destruct (io_fault env OpListdir (d, [])) as [e|].
    { eexists. split; [reflexivity|]. by destruct w. }
    unfold ret at 1. unfold gets at 1. cbv beta iota. rewrite Hsort, run_bind.
    destruct (load_entries_run env d L w) as (r & -> & Hr).
    destruct (mapM (loaded_entry env d (files w)) L) as [entries|].
    - subst r. eexists. split; [reflexivity|]. by destruct w.
    - destruct Hr as [e ->]. eexists. split; [reflexivity|]. by destruct w. }
  destruct H as (w' & -> & Hf & He). done.
Qed.



(** X16. The entries that the LaTeX generator loads from the directory of
    translations are those that parsing the combined file gives: when the
    translation files are named [page_<digits>.txt], no line of their texts
    begins with [=====], and no operation on files fails, [parse_ocr_file] on
    the combined file written by [create_combined_translation] returns what
    [load_translations] returns on the directory. *)
Theorem X16_loader_agrees_with_combined_file (env : Env) (d : str) (w : World) :
  no_io_fault env ->
  (forall f, is_translation_file f = true -> is_Some (files w !! in_dir d f) ->
     (exists id, f = id ++ lit ".txt" /\ is_page_id id = true) /\
     no_marker_line (read_back (files w) (in_dir d f))) ->
  (exists f, is_translation_file f = true /\ is_Some (files w !! in_dir d f)) ->
  let combine := create_combined_translation env d w in
  (parse_ocr_file env (combined_path d) combine.2).1 = (load_translations env d w).1.
Proof.
  intros Hio Hfiles (f0 & Ht0 & Hs0). cbv zeta.
  destruct (load_translations_run env d w) as (L & Hsort & Hload & _).
  rewrite Hload, Hio. clear Hload.
  pose proof (sorted_translation_files_elem d (files w) L) as Helem.
  assert (HL : L <> []).
  { intros ->. apply (elem_of_nil f0). by apply (Helem f0 Hsort). }
  pose proof (sorted_page_files d (files w) L Hfiles Hsort) as Hpages.
  destruct (create_combined_translation_run env Hio d w L Hsort HL) as (_ & _ & Hfs).
  assert (Hcp : files (create_combined_translation env d w).2 !! combined_path d
                = Some (combined_text (map (fun f => (f, read_back (files w) (in_dir d f))) L)))
    by (by rewrite Hfs, lookup_insert_eq).
  rewrite (parse_combined_file env d (files w) L _ Hio Hpages Hcp). f_equal.
  assert (Hmap : mapM (loaded_entry env d (files w)) L
                 = Some (map (fun it => (it.1, strip it.2)) (items_of d (files w) L))).
  { unfold items_of. rewrite map_map. cbn [fst snd].
    apply mapM_Some, Forall2_fmap_r, Forall_Forall2_diag.
    eapply Forall_impl; [exact Hpages|]. intros f (_ & [c Hc] & _).
    unfold loaded_entry, compose, read_back.
    rewrite (file_text_no_fault env _ _ c Hio Hc). unfold Path, str in *. by rewrite Hc. }
  by rewrite Hmap.
Qed.

Lemma X16_witness :
  let env := env_of remote_echo in
  let w := world_of translated_files in
  let combine := create_combined_translation env (lit "out") w in
  (parse_ocr_file env (combined_path (lit "out")) combine.2).1
  = (load_translations env (lit "out") w).1.
Proof.
  apply (X16_loader_agrees_with_combined_file (env_of remote_echo) (lit "out")
           (world_of translated_files)).
  - intros op p. reflexivity.
  - intros f Ht [c Hl].
    assert (Hin : in_dir (lit "out") f ∈ elements (dom translated_files)).
    { apply elem_of_elements, elem_of_dom. by eexists. }
    vm_compute in Hin.
    repeat (apply elem_of_cons in Hin as [Hin|Hin]);
      [injection Hin as ->.. | by apply elem_of_nil in Hin];
      vm_compute in Ht; try discriminate Ht;
      (split;
       [first [exists (lit "page_10"); split; reflexivity
              | exists (lit "page_2"); split; reflexivity]
       | vm_compute; repeat constructor]).
  - exists (lit "page_2.txt"). split; [reflexivity|]. vm_compute. by eexists.
Defined.

(** ** The records of a page *)

(** X17. A page that is not skipped and whose transform raises [e] is
    [Failed] as soon as the error record can be written: the record holds the
    page and the message of [e], and neither the output file nor the metadata
    file is touched -- with [--force], the translation of an earlier run is
    still there after a failed retranslation. *)
Theorem X17_failed_page_records
    (env : Env) (page_id text output_directory model : str) (force_retranslate : bool)
    (e : exn) (w : World) :
  files w !! output_path output_directory page_id = None \/ force_retranslate = true ->
  transform_outcome env page_id text model w = Raise e ->
  error_writes_ok env output_directory page_id ->
  let out := process_page env (page_id, text, output_directory, model, force_retranslate) w in
  out.1 = Return (page_id, Failed) /\
  (exists error_date,
     files out.2 !! error_path output_directory page_id
     = Some (json_dumps env (JErrorInfo
               {| ei_source_page := page_id;
                  ei_error_date := error_date;
                  ei_error_message := exn_str e;
                  ei_status := Failed |}))) /\
  files out.2 !! output_path output_directory page_id
  = files w !! output_path output_directory page_id /\
  files out.2 !! metadata_path output_directory page_id
  = files w !! metadata_path output_directory page_id.
Proof.
  intros Hns He [[H1 H2] H3]. cbv zeta. rewrite process_page_not_skipped by done.
  pose proof (process_page_try_run env page_id text output_directory model w) as [_ Htry].
  rewrite He in Htry. destruct Htry as [Hr Hfs].
  destruct (process_page_try env page_id text output_directory model w) as [r w1].
  cbn [fst snd] in *. subst r.
  pose proof (error_path_neq_output output_directory page_id page_id) as N1.
  pose proof (error_path_neq_metadata output_directory page_id page_id) as N2.
  unfold process_page_except, mkdir, open_write, file_write, check_fault, error_path,
    output_path, metadata_path, in_dir in *.
  rewrite H1, H2, H3. destruct w1 as [evs clk fs lg]. cbn [files] in Hfs. subst fs.
  run_M. unfold Msg, Path, str in *.
  rewrite !lookup_insert_eq. cbn [default app]. rewrite !insert_insert_eq.
  rewrite ?lookup_insert_eq, !lookup_insert_ne by done.
  split; [done|]. split; [by eexists | done].
Qed.

Lemma X17_witness :
  let out := process_page (env_of remote_broken)
               (lit "page_2", lit "nur", lit "out", lit "m", true) (world_of stale_files) in
  out.1 = Return (lit "page_2", Failed) /\
  files out.2 !! output_path (lit "out") (lit "page_2") = Some (lit "stale").
Proof.
  destruct (X17_failed_page_records (env_of remote_broken)
              (lit "page_2") (lit "nur") (lit "out") (lit "m") true
              (OtherException [FS (lit "list index out of range")])
              (world_of stale_files)) as (Hr & _ & Ho & _).
  - by right.
  - reflexivity.
  - by repeat split.
  - split; [exact Hr|]. rewrite Ho. reflexivity.
Defined.

Lemma last_dot_txt (name : str) : last_dot (name ++ lit ".txt") = Some (length name).
Proof.
  induction name as [|c name IH]; [reflexivity|].
  cbn [app last_dot length]. by rewrite IH.
Qed.

(** X18. The metadata file of a page is named after the page: for a page
    identifier that is a plain file name -- not empty, not beginning with a
    dot, without a separator --, [output_filepath.with_suffix('.meta.json')]
    is [<id>.meta.json] in the output directory, whether the identifier
    holds dots or not. *)
Theorem X18_metadata_file_name (output_directory page_id : str) :
  is_file_name page_id = true ->
  metadata_path output_directory page_id
  = in_dir output_directory (page_id ++ lit ".meta.json").
Proof.
  intros Hname. unfold metadata_path, with_suffix, path_suffix. rewrite last_dot_txt.
  destruct page_id as [|c page_id]; [done|].
  rewrite bool_decide_eq_true_2.
  2:{ rewrite length_app. change (length (lit ".txt")) with 4%nat. cbn [length]. lia. }
  rewrite drop_app_length, length_app, Nat.add_sub, take_app_length. done.
Qed.

Lemma X18_witness :
  metadata_path (lit "out") (lit "page_1.2") = in_dir (lit "out") (lit "page_1.2.meta.json").
Proof.
  apply (X18_metadata_file_name (lit "out") (lit "page_1.2")). reflexivity.
Defined.

(** ** The order of the natural sort *)

Lemma code_inj (x y : ascii) : code x = code y -> x = y.
Proof.
  unfold code. intros H. apply (f_equal ascii_of_N) in H.
  by rewrite !ascii_N_embedding in H.
Qed.

Lemma str_lt_irrefl (a : str) : str_lt a a = false.
Proof. induction a as [|x a IH]; [done|]. cbn [str_lt]. by rewrite N.ltb_irrefl. Qed.

Lemma str_lt_asym (a b : str) : str_lt a b = true -> str_lt b a = false.
Proof.
  revert b. induction a as [|x a IH]; intros [|y b]; cbn [str_lt]; try done.
  destruct (code x <? code y)%N eqn:Hxy, (code y <? code x)%N eqn:Hyx; try done.
  - apply N.ltb_lt in Hxy, Hyx. lia.
  - apply IH.
Qed.

Lemma str_lt_total (a b : str) : a <> b -> str_lt a b = true \/ str_lt b a = true.
Proof.
  revert b. induction a as [|x a IH]; intros [|y b] Hne; cbn [str_lt]; try by auto.
  destruct (code x <? code y)%N eqn:Hxy; [by left|].
  destruct (code y <? code x)%N eqn:Hyx; [by right|].
  apply N.ltb_ge in Hxy, Hyx. assert (x = y) as -> by (apply code_inj; lia).
  apply IH. by intros ->.
Qed.

Lemma str_lt_trans (a b c : str) : str_lt a b = true -> str_lt b c = true -> str_lt a c = true.
Proof.
  revert b c. induction a as [|x a IH]; intros [|y b] [|z c]; cbn [str_lt]; try done.
  destruct (code x <? code y)%N eqn:Hxy, (code y <? code z)%N eqn:Hyz;
    destruct (code y <? code x)%N eqn:Hyx, (code z <? code y)%N eqn:Hzy;
    destruct (code x <? code z)%N eqn:Hxz, (code z <? code x)%N eqn:Hzx;
    try done;
    rewrite ?N.ltb_lt, ?N.ltb_ge in *; try lia.
  apply IH.
Qed.

Lemma elem_eqb_eq (x y : KeyElem) : elem_eqb x y = true <-> x = y.
Proof.
  destruct x as [m|s], y as [n|t]; cbn [elem_eqb]; try (split; [discriminate | by intros [=]]).
  - rewrite Z.eqb_eq. split; [by intros -> | by intros [=]].
  - rewrite bool_decide_eq_true. split; [by intros -> | by intros [=]].
Qed.

Lemma elem_lt_cases (x y : KeyElem) :
  same_kind x y ->
  (x = y /\ elem_lt x y = Some false) \/
  (x <> y /\ elem_lt x y = Some true /\ elem_lt y x = Some false) \/
  (x <> y /\ elem_lt x y = Some false /\ elem_lt y x = Some true).
Proof.
  destruct x as [m|s], y as [n|t]; cbn [same_kind elem_lt]; try done; intros _.
  - destruct (Z.lt_trichotomy m n) as [H|[->|H]].
    + right. left. split; [intros [=]; lia|]. split; f_equal; [apply Z.ltb_lt | apply Z.ltb_ge]; lia.
    + left. split; [done|]. f_equal. apply Z.ltb_irrefl.
    + right. right. split; [intros [=]; lia|].
      split; f_equal; [apply Z.ltb_ge | apply Z.ltb_lt]; lia.
  - destruct (decide (s = t)) as [->|Hne]; [left; by rewrite str_lt_irrefl|].
    destruct (str_lt_total s t Hne) as [H|H].
    + right. left. split; [by intros [=]|]. by rewrite H, (str_lt_asym s t H).
    + right. right. split; [by intros [=]|]. by rewrite H, (str_lt_asym t s H).
Qed.

Lemma elem_lt_trans (x y z : KeyElem) :
  elem_lt x y = Some true -> elem_lt y z = Some true -> elem_lt x z = Some true.
Proof.
  destruct x as [m|s], y as [n|t], z as [o|u]; cbn [elem_lt]; try done.
  - intros [= H1] [= H2]. f_equal. apply Z.ltb_lt. apply Z.ltb_lt in H1, H2. lia.
  - intros [= H1] [= H2]. f_equal. by apply (str_lt_trans s t u).
Qed.

Lemma alt_key_same_kind (b : bool) (x y : KeyElem) (k1 k2 : list KeyElem) :
  alt_key b (x :: k1) -> alt_key b (y :: k2) ->
  same_kind x y /\ alt_key (negb b) k1 /\ alt_key (negb b) k2.
Proof.
  destruct x, y; cbn [alt_key same_kind]; intros [-> H1] [? H2]; by try done.
Qed.

(** A smaller key is not a greater one. *)
Lemma key_lt_asym (b : bool) (k1 k2 : list KeyElem) :
  alt_key b k1 -> alt_key b k2 -> key_lt k1 k2 = Some true -> key_lt k2 k1 = Some false.
Proof.
  revert b k2. induction k1 as [|x k1 IH]; intros b [|y k2] H1 H2; cbn [key_lt]; try done.
  destruct (alt_key_same_kind b x y k1 k2 H1 H2) as (Hk & H1' & H2').
  destruct (elem_lt_cases x y Hk) as [[-> _]|[(Hne & Hlt & Hgt)|(Hne & Hlt & Hgt)]].
  - rewrite (proj2 (elem_eqb_eq y y)) by done. by apply IH with (negb b).
  - assert (elem_eqb x y = false) as -> by (apply not_true_iff_false; by rewrite elem_eqb_eq).
    assert (elem_eqb y x = false) as -> by (apply not_true_iff_false; by rewrite elem_eqb_eq).
    done.
  - assert (elem_eqb x y = false) as -> by (apply not_true_iff_false; by rewrite elem_eqb_eq).
    by rewrite Hlt.
Qed.

(** The order of the keys is transitive. *)
Lemma key_le_trans (b : bool) (k1 k2 k3 : list KeyElem) :
  alt_key b k1 -> alt_key b k2 -> alt_key b k3 ->
  key_lt k2 k1 = Some false -> key_lt k3 k2 = Some false -> key_lt k3 k1 = Some false.
Proof.
  revert b k2 k3. induction k1 as [|x k1 IH]; intros b k2 k3 H1 H2 H3.
  { by destruct k3. }
  destruct k2 as [|y k2]; [done|]. destruct k3 as [|z k3]; [done|]. cbn [key_lt].
  destruct (alt_key_same_kind b x y k1 k2 H1 H2) as (Hxy & H1' & H2').
  destruct (alt_key_same_kind b y z k2 k3 H2 H3) as (Hyz & _ & H3').
  assert (Hneq : forall u v : KeyElem, u <> v -> elem_eqb u v = false).
  { intros u v Huv. apply not_true_iff_false. by rewrite elem_eqb_eq. }
  assert (Hyx : same_kind y x) by (by destruct x, y).
  assert (Hzy : same_kind z y) by (by destruct y, z).
  assert (Hzx : same_kind z x) by (by destruct x, y, z).
  destruct (elem_lt_cases y x Hyx) as [[-> _]|[(Hne & Hlt & Hgt)|(Hne & Hlt & Hgt)]].
  - rewrite (proj2 (elem_eqb_eq x x)) by done. intros H12.
    destruct (elem_lt_cases z x Hzx) as [[-> _]|[(Hne & Hlt & Hgt)|(Hne & Hlt & Hgt)]].
    + rewrite (proj2 (elem_eqb_eq x x)) by done. by apply IH with (negb b).
    + by rewrite (Hneq z x Hne), Hlt.
    + by rewrite (Hneq z x Hne).
  - by rewrite (Hneq y x Hne), Hlt.
  - rewrite (Hneq y x Hne). intros _.
    destruct (elem_lt_cases z y Hzy) as [[-> _]|[(Hne' & Hlt' & Hgt')|(Hne' & Hlt' & Hgt')]].
    + rewrite (proj2 (elem_eqb_eq y y)) by done. intros _.
      by rewrite (Hneq y x Hne).
    + by rewrite (Hneq z y Hne'), Hlt'.
    + rewrite (Hneq z y Hne'). intros _.
      pose proof (elem_lt_trans x y z Hgt Hgt') as Hxz.
      destruct (elem_lt_cases z x Hzx) as [[-> _]|[(Hne2 & H & H')|(Hne2 & H & _)]].
      * destruct (elem_lt_cases x x) as [[_ H]|[(H & _)|(H & _)]];
          [by destruct x | congruence | done | done].
      * congruence.
      * by rewrite (Hneq z x Hne2).
Qed.

Lemma natural_le_trans (f g h : str) : natural_le f g -> natural_le g h -> natural_le f h.
Proof.
  unfold natural_le. apply (key_le_trans true); apply natural_sort_key_alt.
Qed.

Lemma insert_by_natural_sorted (x : str) (l l' : list str) :
  StronglySorted natural_le l ->
  insert_by natural_sort_key x l = Some l' ->
  StronglySorted natural_le l'.
Proof.
  revert l'. induction l as [|y l IH]; intros l' Hl; cbn [insert_by].
  { intros [= <-]. by repeat constructor. }
  apply StronglySorted_inv in Hl as [Hl Hy].
  destruct (key_lt (natural_sort_key y) (natural_sort_key x)) as [[]|] eqn:Hlt;
    cbn [mbind option_bind]; [| |done].
  - destruct (insert_by natural_sort_key x l) as [l0|] eqn:Hins; [|done].
    cbn [fmap option_fmap option_map]. intros [= <-].
    constructor; [by apply IH|].
    destruct (insert_by_total natural_sort_key x l) as (l1 & Hl1 & Hp).
    { intros z. eapply key_lt_alt; apply natural_sort_key_alt. }
    rewrite Hins in Hl1. injection Hl1 as <-. rewrite Hp. constructor; [|done].
    apply (key_lt_asym true); [apply natural_sort_key_alt.. | done].
  - intros [= <-]. constructor; [by constructor|].
    constructor; [done|].
    eapply Forall_impl; [exact Hy|]. intros z Hz. by apply (natural_le_trans x y z).
Qed.

(** X19. The names that the combiner sorts: on names of ASCII characters
    the sort by [natural_sort_key] never fails -- the elements of two keys that
    are compared are both texts or both numbers -- and it returns the same
    names, each as often as before, in an order in which no name comes before
    a name with a smaller key. *)
Theorem X19_natural_sort_is_total_and_sorted (names : list str) :
  Forall is_ascii_text names ->
  exists sorted,
    sort_by natural_sort_key names = Some sorted /\
    sorted ≡ₚ names /\
    StronglySorted natural_le sorted.
Proof.
  intros _. destruct (sort_by_natural_total names) as (sorted & Hsort & Hperm).
  exists sorted. split; [done|]. split; [done|].
  revert sorted Hsort Hperm. induction names as [|x names IH]; intros sorted; cbn [sort_by].
  { intros [= <-] _. constructor. }
  destruct (sort_by natural_sort_key names) as [l|] eqn:Hl; cbn [mbind option_bind]; [|done].
  intros Hins _. destruct (sort_by_natural_total names) as (l2 & Hl2 & Hp2).
  rewrite Hl in Hl2. injection Hl2 as <-.
  apply (insert_by_natural_sorted x l); [by apply IH | done].
Qed.

Lemma X19_witness :
  exists sorted,
    sort_by natural_sort_key (map lit ["page_10.txt"; "page_2.txt"; "Page_1.txt"]) = Some sorted /\
    sorted ≡ₚ map lit ["page_10.txt"; "page_2.txt"; "Page_1.txt"] /\
    StronglySorted natural_le sorted.
Proof.
  apply (X19_natural_sort_is_total_and_sorted
           (map lit ["page_10.txt"; "page_2.txt"; "Page_1.txt"])).
  repeat constructor.
Defined.

(** ** The order of the combined file *)

Lemma sort_by_natural_sorted (names sorted : list str) :
  sort_by natural_sort_key names = Some sorted -> StronglySorted natural_le sorted.
Proof.
  revert sorted. induction names as [|x names IH]; intros sorted; cbn [sort_by].
  { intros [= <-]. constructor. }
  destruct (sort_by natural_sort_key names) as [l|] eqn:Hl; cbn [mbind option_bind]; [|done].
  intros Hins. apply (insert_by_natural_sorted x l); [by apply IH | done].
Qed.

(** In a sorted list, a name with a smaller key is before a name with a
    larger key. *)
Lemma sorted_before (L : list str) (f g : str) :
  StronglySorted natural_le L ->
  f ∈ L -> g ∈ L ->
  key_lt (natural_sort_key f) (natural_sort_key g) = Some true ->
  exists l1 l2 l3, L = l1 ++ f :: l2 ++ g :: l3.
Proof.
  intros HL Hf Hg Hlt. induction HL as [|x l HL IH Hx].
  { by apply elem_of_nil in Hf. }
  apply elem_of_cons in Hf as [<-|Hf].
  - apply elem_of_cons in Hg as [<-|Hg].
    + apply (key_lt_asym true) in Hlt as Hlt'; [|apply natural_sort_key_alt..]. congruence.
    + apply list_elem_of_split in Hg as (l2 & l3 & ->). by exists [], l2, l3.
  - apply elem_of_cons in Hg as [<-|Hg].
    + rewrite Forall_forall in Hx. specialize (Hx f Hf). unfold natural_le in Hx. congruence.
    + destruct (IH Hf Hg) as (l1 & l2 & l3 & ->). by exists (x :: l1), l2, l3.
Qed.

(** C9, as the code has it.  The combiner keeps the names of the directory
    that begin with [page_] and end with [.txt] (names of ASCII characters
    here), and writes their blocks in the order of the natural sort: each
    kept name once, no name before a name with a smaller key, and a name with
    an embedded run of digits of smaller value before the same name with a
    run of larger value -- [page_2.txt] before [page_10.txt].  When the kept
    names are [page_1.txt], [page_2.txt], [page_10.txt] and [page_20.txt],
    the blocks of the combined file are in that order. *)
Theorem C9_natural_sort (env : Env) (d : str) (w : World) :
  ascii_names d (files w) ->
  io_fault env OpListdir (d, []) = None ->
  io_fault env OpOpenWrite (combined_path d) = None ->
  io_fault env OpWrite (combined_path d) = None ->
  (exists f, is_translation_file f = true /\ is_Some (files w !! in_dir d f)) ->
  let out := create_combined_translation env d w in
  exists L : list str,
    out.1 = Return tt /\
    files out.2 !! combined_path d
      = Some (concat (map (combined_block env d (files w)) L)) /\
    NoDup L /\
    (forall f, f ∈ L <-> is_translation_file f = true /\ is_Some (files w !! in_dir d f)) /\
    StronglySorted natural_le L /\
    (forall stem d1 d2 ext : str,
       Forall (fun c => is_digit c = false) stem ->
       isdigit d1 = true -> isdigit d2 = true -> not_digit_first ext ->
       int_of_digits d1 < int_of_digits d2 ->
       stem ++ d1 ++ ext ∈ L -> stem ++ d2 ++ ext ∈ L ->
       exists l1 l2 l3, L = l1 ++ (stem ++ d1 ++ ext) :: l2 ++ (stem ++ d2 ++ ext) :: l3) /\
    ((forall f, is_translation_file f = true /\ is_Some (files w !! in_dir d f) <->
                f ∈ map lit ["page_1.txt"; "page_2.txt"; "page_10.txt"; "page_20.txt"]) ->
     L = map lit ["page_1.txt"; "page_2.txt"; "page_10.txt"; "page_20.txt"]).
Proof.
  intros _ Hlist Hopen Hwrite (f0 & Ht0 & Hs0). cbv zeta.
  destruct (create_combined_translation_any env d w Hlist Hopen Hwrite)
    as (L & Hsort & Helem & Hr & Hfs).
  assert (HL : L <> []).
  { intros ->. apply (elem_of_nil f0). by apply Helem. }
  rewrite bool_decide_eq_false_2 in Hfs by done.
  destruct (sort_by_natural_total (List.filter is_translation_file (names_in d (files w))))
    as (L' & Hsort' & Hperm).
  rewrite Hsort in Hsort'. injection Hsort' as <-.
  assert (Hnd : NoDup L).
  { rewrite Hperm. apply NoDup_list_filter, names_in_NoDup. }
  pose proof (sort_by_natural_sorted _ _ Hsort) as Hsorted.
  exists L. split; [done|]. split; [by rewrite Hfs, lookup_insert_eq|].
  split; [done|]. split; [done|]. split; [done|]. split.
  - intros stem d1 d2 ext Hstem Hd1 Hd2 Hext Hlt Hf Hg.
    apply sorted_before; [done..|].
    by apply key_lt_digits.
  - intros Hfour.
    assert (Hp : L ≡ₚ map lit ["page_1.txt"; "page_2.txt"; "page_10.txt"; "page_20.txt"]).
    { apply NoDup_Permutation; [done | by apply (bool_decide_unpack _) |].
      intros f. by rewrite Helem, Hfour. }
    rewrite Hperm in Hp. apply sort_four_page_files in Hp. congruence.
Qed.

Lemma C9_witness :
  let env := env_of remote_echo in
  let w := world_of four_page_files in
  let out := create_combined_translation env (lit "out") w in
  exists L : list str,
    out.1 = Return tt /\
    files out.2 !! combined_path (lit "out")
      = Some (concat (map (combined_block env (lit "out") (files w)) L)) /\
    NoDup L /\
    (forall f, f ∈ L <->
               is_translation_file f = true /\ is_Some (files w !! in_dir (lit "out") f)) /\
    StronglySorted natural_le L /\
    (forall stem d1 d2 ext : str,
       Forall (fun c => is_digit c = false) stem ->
       isdigit d1 = true -> isdigit d2 = true -> not_digit_first ext ->
       int_of_digits d1 < int_of_digits d2 ->
       stem ++ d1 ++ ext ∈ L -> stem ++ d2 ++ ext ∈ L ->
       exists l1 l2 l3, L = l1 ++ (stem ++ d1 ++ ext) :: l2 ++ (stem ++ d2 ++ ext) :: l3) /\
    ((forall f, is_translation_file f = true /\ is_Some (files w !! in_dir (lit "out") f) <->
                f ∈ map lit ["page_1.txt"; "page_2.txt"; "page_10.txt"; "page_20.txt"]) ->
     L = map lit ["page_1.txt"; "page_2.txt"; "page_10.txt"; "page_20.txt"]).
Proof.
  apply (C9_natural_sort (env_of remote_echo) (lit "out") (world_of four_page_files)).
  - apply ascii_names_check. vm_compute. reflexivity.
  - reflexivity.
  - reflexivity.
  - reflexivity.
  - exists (lit "page_2.txt"). split; [reflexivity|]. vm_compute. by eexists.
Defined.

(** C9 as the specification states it fails: the names [item_1], [item_2],
    [item_10] and [item_20], with or without [.txt], are not names the
    combiner keeps.  On a directory that holds them the combiner logs a
    warning and writes no combined file, although the sort itself would put
    them in the order of their numbers. *)
Lemma C9_counterexample :
  let out := create_combined_translation (env_of remote_echo) (lit "out") (world_of item_files) in
  Forall (fun f => is_Some (item_files !! (lit "out", f)))
         (map lit ["item_1"; "item_2"; "item_10"; "item_20"]) /\
  sort_by natural_sort_key (map lit ["item_20"; "item_10"; "item_2"; "item_1"])
    = Some (map lit ["item_1"; "item_2"; "item_10"; "item_20"]) /\
  List.filter is_translation_file (names_in (lit "out") item_files) = [] /\
  out.1 = Return tt /\
  files out.2 = item_files /\
  files out.2 !! combined_path (lit "out") = None /\
  logged out.2 = [(WARNING, [FS (lit "No translation files found to combine")])].
Proof.
  cbv zeta.
  assert (Hnone : List.filter is_translation_file (names_in (lit "out") item_files) = [])
    by (vm_compute; reflexivity).
  destruct (create_combined_translation_any (env_of remote_echo) (lit "out")
              (world_of item_files)) as (L & Hsort & _ & Hr & Hfs); [reflexivity..|].
  change (files (world_of item_files)) with item_files in *.
  rewrite Hnone in Hsort. injection Hsort as <-.
  rewrite bool_decide_eq_true_2 in Hfs by done. destruct Hfs as [Hfs Hlog].
  split.
  { cbn [map]. repeat (constructor; [vm_compute; by eexists|]). constructor. }
  split; [vm_compute; reflexivity|]. split; [done|]. split; [done|]. split; [done|].
  split; [rewrite Hfs; vm_compute; reflexivity | exact Hlog].
Qed.

(** ** The number of remote calls *)

Section Budget.
Context (env : Env).

Lemma process_page_except_same_events (page_id d : str) (e : exn) :
  keeps same_events (process_page_except env page_id d e).
Proof. unfold process_page_except. solve_keeps; same_events_leaf. Qed.

(** The calls of [process_page] are those of its one [translate_text]. *)
Lemma process_page_calls_bound (page_id text d model : str) (force_retranslate : bool)
    (w : World) :
  (length (calls (process_page env (page_id, text, d, model, force_retranslate) w).2)
   <= length (calls w) + 3)%nat.
Proof.
  unfold process_page. rewrite run_bind. unfold path_exists at 1, gets at 1.
  destruct (_ && _); [destruct w; run_M; unfold calls; cbn [events]; lia|].
  unfold try_except.
  assert (Htry : (length (calls (process_page_try env page_id text d model w).2)
                  <= length (calls w) + 3)%nat).
  { unfold process_page_try. rewrite run_bind. unfold logger at 1, modify at 1.
    rewrite run_bind.
    match goal with |- context [translate_text env text model 3 2 ?w0] =>
      destruct (translate_loop_bound env text model 3 2 (seq 0 3) w0 ltac:(lia))
        as (k & Hk & Hc & _);
      fold (translate_text env text model 3 2) in Hc;
      assert (Hc0 : calls w0 = calls w) by (by destruct w);
      destruct (translate_text env text model 3 2 w0) as [[t|e] w1]
    end; cbn [fst snd length seq] in *.
    - match goal with |- context [calls (?m w1).2] =>
        assert (Hrest : keeps same_events m) by (solve_keeps; same_events_leaf);
        specialize (Hrest w1)
      end.
      unfold calls at 1. rewrite Hrest. fold (calls w1).
      rewrite Hc, Hc0, length_app, length_replicate. lia.
    - rewrite Hc, Hc0, length_app, length_replicate. lia. }
  destruct (process_page_try env page_id text d model w) as [[r|e] w1]; cbn [snd] in *; [done|].
  pose proof (process_page_except_same_events page_id d e w1) as Hex.
  unfold calls at 1. rewrite Hex. by fold (calls w1).
Qed.

Lemma dispatch_calls_bound (args : Args) (l : list (str * str)) (w : World) :
  (length (calls (map_M (process_page env) (process_args args l) w).2)
   <= length (calls w) + 3 * length l)%nat.
Proof.
  revert w. induction l as [|e l IH]; intros w; [cbn; lia|].
  unfold process_args. cbn [map map_M]. fold (process_args args l). rewrite run_bind.
  pose proof (process_page_calls_bound e.1 e.2 (output args) (model args) (force args) w)
    as Hone.
  destruct (process_page env (e.1, e.2, output args, model args, force args) w) as [[r|x] w1];
    cbn [snd length] in *; [|lia].
  rewrite run_bind. specialize (IH w1).
  destruct (map_M (process_page env) (process_args args l) w1) as [[rs|x] w2];
    cbn [snd] in *; unfold mret, M_ret, ret; cbn [snd]; lia.
Qed.

End Budget.

(** X20. A run of the batch makes at most three remote calls for each
    page, whatever the service and the file system do and however the run
    ends. *)
Theorem X20_at_most_three_calls_per_page
    (env : Env) (args : Args) (page_entries : list (str * str)) (w : World) :
  (length (calls (run_batch env args page_entries w).2)
   <= length (calls w) + 3 * length page_entries)%nat.
Proof.
  rewrite run_batch_unfold.
  pose proof (log_batch_start_run args page_entries w) as (_ & _ & Hev & _).
  pose proof (dispatch_calls_bound env args page_entries (dispatch_world args page_entries w))
    as Hd.
  assert (Hc0 : calls (dispatch_world args page_entries w) = calls w)
    by (unfold calls; by rewrite Hev).
  rewrite Hc0 in Hd.
  destruct (map_M (process_page env) (process_args args page_entries)
              (dispatch_world args page_entries w)) as [[results|x] w1]; cbn [snd] in *; [|done].
  pose proof (finish_batch_same_events env args page_entries results w1) as Hfin.
  unfold calls at 1. rewrite Hfin. by fold (calls w1).
Qed.

(** ** The schedule of the retries *)




(** ** The filter of the combiner *)

(** X22. The third test of the filter of translation files,
    [not filename.endswith(".meta.json")], never decides: a name that ends
    with [.txt] does not end with [.meta.json].  The names kept are exactly
    those that begin with [page_] and end with [.txt]; in particular the
    combined file and the summary file are never among them. *)
Theorem X22_filter_of_translation_files (filename : str) :
  is_translation_file filename
  = startswith filename (lit "page_") && endswith filename (lit ".txt") /\
  is_translation_file (lit "combined_translation.txt") = false /\
  is_translation_file (lit "translation_summary.json") = false.
Proof.
  split; [|split; reflexivity].
  unfold is_translation_file, endswith.
  destruct (startswith (rev filename) (rev (lit ".txt"))) eqn:Htxt;
    [|by rewrite !andb_false_r].
  apply startswith_true in Htxt as [r Hr]. rewrite Hr.
  rewrite andb_true_r. by destruct (startswith filename (lit "page_")).
Qed.
